(** * tm-zora-manager: content intake pipeline

    A shallow embedding of [auto-post-daily.ts] (tweet/image path) and
    [youtube-shorts-zora.ts] (video path), and the properties of the
    deduplication ledger, the text fallback, the thread reconstruction,
    the media acquisition loop and the two [main] drivers. *)

From Stdlib Require Import ZArith NArith List Bool Lia Ascii String DecimalString Sorted.
From stdpp Require Import base decidable option list strings gmap.
From Equations.Prop Require Import Equations Logic.
Import ListNotations.

Local Open Scope list_scope.

(** ** JavaScript strings

    A JS string is a sequence of UTF-16 code units; [length] counts code
    units.  Every JS string of the program (texts, identifiers, file
    names, format specifications) is a [Js.str = list N]; literals are
    written [Js.lit "..."]. *)

Module Js.

Definition str := list N.

(** Code units of an ASCII literal. *)
Fixpoint lit (s : string) : str :=
  match s with
  | EmptyString => []
  | String a s' => N_of_ascii a :: lit s'
  end.

(** [\w] without the unicode or ignore-case flag: [A-Za-z0-9_]. *)
Definition is_word (c : N) : bool :=
  ((65 <=? c) && (c <=? 90) || (97 <=? c) && (c <=? 122)
   || (48 <=? c) && (c <=? 57) || (c =? 95))%N.

(** [\s], which is also the set removed by [String.prototype.trim]:
    WhiteSpace and LineTerminator of ECMA-262. *)
Definition is_space (c : N) : bool :=
  ((9 <=? c) && (c <=? 13) || (c =? 32) || (c =? 160) || (c =? 5760)
   || (8192 <=? c) && (c <=? 8202) || (c =? 8232) || (c =? 8233)
   || (c =? 8239) || (c =? 8287) || (c =? 12288) || (c =? 65279))%N.

Fixpoint drop_while (p : N -> bool) (s : str) : str :=
  match s with
  | [] => []
  | c :: s' => if p c then drop_while p s' else s
  end.

(** [s.startsWith(p)], returning what follows the prefix. *)
Fixpoint strip_prefix (p s : str) : option str :=
  match p, s with
  | [], _ => Some s
  | _ :: _, [] => None
  | a :: p', c :: s' => if (a =? c)%N then strip_prefix p' s' else None
  end.

(** [s.replace(re, rep)] for a global regular expression [re] given by
    its matcher at the head of the subject: [m s = Some rest] when [re]
    matches a non-empty prefix of [s] and [rest] is what follows the
    match.  The scan is left to right; after a match it resumes behind
    the match, otherwise it copies one code unit and moves on.  [behind]
    is the identity on what a matcher of non-empty prefixes returns. *)
Definition behind (s' rest : str) : str :=
  if (length rest <=? length s')%nat then rest else s'.

Equations? replace_all (m : str -> option str) (rep : str) (s : str)
  : str by wf (length s) lt :=
  replace_all m rep [] := [];
  replace_all m rep (c :: s') with m (c :: s') := {
    | Some rest := rep ++ replace_all m rep (behind s' rest);
    | None := c :: replace_all m rep s' }.
Proof.
  all: unfold behind; simpl; try lia.
  destruct (length rest <=? length s')%nat eqn:Hle; [apply Nat.leb_le in Hle |]; lia.
Qed.

(** [String.prototype.trim]. *)
Definition trim_start (s : str) : str := drop_while is_space s.
Definition trim_end (s : str) : str := rev (drop_while is_space (rev s)).
Definition trim (s : str) : str := trim_end (trim_start s).

(** [s.startsWith(p)] and [s.endsWith(p)]. *)
Definition startsWith (s p : str) : bool := bool_decide (is_Some (strip_prefix p s)).
Definition endsWith (s p : str) : bool := startsWith (rev s) (rev p).

(** [s.slice(-n)]: the last [n] code units (all of [s] when it is shorter). *)
Definition slice_last (n : nat) (s : str) : str := skipn (length s - n) s.

(** [s.toUpperCase()].  On ASCII text only the letters a-z change.
    Outside ASCII the Unicode case mapping applies, which is not
    tabulated here and can lengthen the string (U+00DF becomes SS): the
    result is then what the engine's mapping [unicode] gives. *)
Definition is_ascii (s : str) : bool := forallb (fun c => (c <? 128)%N) s.

Definition upper_ascii (c : N) : N :=
  if ((97 <=? c) && (c <=? 122))%N then (c - 32)%N else c.

Definition toUpperCase (unicode : str -> str) (s : str) : str :=
  if is_ascii s then map upper_ascii s else unicode s.

(** Decimal digits of a number in a template literal, and [Array.join]. *)
Definition of_nat (n : nat) : str :=
  lit (NilEmpty.string_of_uint (Nat.to_uint n)).

Fixpoint join (sep : str) (l : list str) : str :=
  match l with
  | [] => []
  | [x] => x
  | x :: l' => x ++ sep ++ join sep l'
  end.

(** [a || b] on strings: the empty string is falsy. *)
Definition or_else (a b : str) : str :=
  match a with [] => b | _ => a end.

End Js.

(** ** Deterministic text fallback ([cleanTextBasic]) *)

Definition tco_prefix : Js.str := Js.lit "https://t.co/".

(** Matcher of [/https:\/\/t\.co\/\w+/]: the literal prefix followed by
    a greedy, non-empty run of word characters. *)
Definition match_tco (s : Js.str) : option Js.str :=
  match Js.strip_prefix tco_prefix s with
  | Some (w :: r) =>
      if Js.is_word w then Some (Js.drop_while Js.is_word r) else None
  | _ => None
  end.

(** Matcher of [/\s+/]. *)
Definition match_spaces (s : Js.str) : option Js.str :=
  match s with
  | c :: s' => if Js.is_space c then Some (Js.drop_while Js.is_space s') else None
  | [] => None
  end.

Definition cleanTextBasic (t : Js.str) : Js.str :=
  Js.trim
    (Js.replace_all match_spaces (Js.lit " ")
       (Js.replace_all match_tco [] t)).

(** A tracking link starts at the head of [s]; one occurs in [s]. *)
Definition starts_link (s : Js.str) : bool :=
  match match_tco s with Some _ => true | None => false end.

Fixpoint has_link (s : Js.str) : bool :=
  match s with
  | [] => false
  | _ :: s' => starts_link s || has_link s'
  end.

(** Every tracking link of [s] runs up to a white space or to the end of
    the text. *)
Fixpoint links_delimited (s : Js.str) : bool :=
  match s with
  | [] => true
  | _ :: s' =>
      match match_tco s with
      | Some (d :: _) => Js.is_space d
      | _ => true
      end && links_delimited s'
  end.

(** The space-free prefix of [a] is a prefix of [b]. *)
Fixpoint agree (a b : Js.str) : bool :=
  match a with
  | [] => true
  | x :: a' =>
      if Js.is_space x then true
      else match b with
           | y :: b' => (x =? y)%N && agree a' b'
           | [] => false
           end
  end.

(** ** Effects: errors, the world, the external services

    The programs are sequences of awaited calls (one in flight at a
    time), so an [async] function is a state-passing function that either
    returns or throws. *)

Inductive Error :=
| FsError (syscall : string)        (* rejection of a node:fs call *)
| SyntaxError                       (* JSON.parse *)
| TypeError                         (* method call on a value without it *)
| ServiceError (what : string)      (* propagated from an SDK or HTTP client *)
| NoTweetsFound
| NoValidImagePosts
| LatestVideoAlreadyPosted
| YtDlpFailed (code : Z)            (* 'yt-dlp failed with exit code ...' *)
| YtDlpSpawnError
| DownloadedFilesNotFound
| FailedToListDownloadedFiles
| AllFormatStrategiesFailed.

Inductive Res (A : Type) :=
| Ok (a : A)
| Throw (e : Error).
Arguments Ok {A} a.
Arguments Throw {A} e.

(** One entry of a dedup ledger ([PostedTweetRecord], [PostedVideoRecord]:
    the two interfaces differ only in the name of the first field,
    [tweetId] or [videoId]). *)
Record PostedRecord := {
  itemId : Js.str;
  coinName : Js.str;
  zoraTransaction : Js.str;
  postedAt : Js.str
}.

(** What [fs.readFile] followed by [JSON.parse] finds in a ledger file.
    The elements of a parsed array are records, as the annotation
    [PostedTweetRecord[]] says. *)
Inductive LedgerFile :=
| Unreadable                        (* readFile rejects: no such file, ... *)
| Unparsable                        (* JSON.parse throws *)
| NotAnArray                        (* valid JSON, but not an array *)
| Records (l : list PostedRecord).

Inductive LedgerName := POSTED_TWEETS_FILE | POSTED_VIDEOS_FILE.

Inductive LogStatus := SUCCESS | FAILED.
Record LogEntry := { status : LogStatus; logged_id : option Js.str }.

(** Request to the minting subsystem (metadata upload and [createCoin]). *)
Record MintRequest := {
  mint_name : Js.str;
  mint_symbol : Js.str;
  mint_description : Js.str;
  mint_image : Js.str;
  mint_video : option Js.str
}.

(** Calls to the external collaborators, oldest first in the trace. *)
Inductive Event :=
| EvAi (input : Js.str)
| EvDownload (videoId format : Js.str)
| EvMint (source : Js.str) (req : MintRequest) (tx : option Js.str).

Record World := {
  posted_tweets : LedgerFile;       (* posted-tweets.json *)
  posted_videos : LedgerFile;       (* posted-videos.json *)
  downloads : list Js.str;          (* names in downloads/, in readdir order *)
  run_log : list LogEntry;          (* daily-posting.log, youtube-posting.log *)
  trace : list Event
}.

Inductive AiOutcome :=
| AiThrows
| AiText (output_text : Js.str).    (* [] for an empty or missing output_text *)

Inductive Spawned :=
| SpawnError
| Closed (code : Z) (files : list Js.str).  (* exit code, downloads/ afterwards *)

Record TwitterPost := {
  id : Js.str;
  text : Js.str;
  created_at : Z;                   (* new Date(created_at).getTime() *)
  conversation_id : Js.str;
  referenced_tweets : option (list (Js.str * Js.str));   (* (type, id) *)
  media_keys : option (list Js.str) (* attachments?.media_keys *)
}.

Record TwitterMedia := {
  media_key : Js.str;
  type : Js.str;
  url : option Js.str
}.

Record YouTubeVideo := {
  vid : Js.str;                     (* id *)
  title : Js.str;
  description : Js.str;
  publishedAt : Js.str;
  thumbnailUrl : Js.str;
  channelTitle : Js.str
}.

(** The environment of a run: what each external call answers.  Services
    that a run may call more than once see the trace so far. *)
Record Env := {
  now : Js.str;                                      (* new Date().toISOString() *)
  openai : list Event -> Js.str -> AiOutcome;        (* openai.responses.create *)
  userTimeline : Res (list TwitterPost * list TwitterMedia);
  youtube_video : Js.str -> Res YouTubeVideo;        (* videos?id= *)
  youtube_latest : Res YouTubeVideo;                 (* channel's latest upload *)
  yt_dlp : list Event -> Js.str -> Js.str -> list Js.str -> Spawned;
  zora : MintRequest -> Res Js.str;                  (* transaction hash *)
  writeFile_ok : LedgerName -> bool;
  writeFile_opened : LedgerName -> bool;  (* a rejected write got past open *)
  appendFile_ok : LogEntry -> bool;
  wallet_ok : bool;           (* setApiKey, privateKeyToAccount, viem clients *)
  mkdir_ok : bool;
  readdir_ok : bool;
  unlink_ok : Js.str -> bool;
  unicode_upper : Js.str -> Js.str   (* toUpperCase outside ASCII *)
}.

Definition M (A : Type) : Type := World -> Res A * World.

Definition ret {A} (a : A) : M A := fun w => (Ok a, w).
Definition throw {A} (e : Error) : M A := fun w => (Throw e, w).
Definition bind {A B} (m : M A) (k : A -> M B) : M B :=
  fun w => match m w with
           | (Ok a, w') => k a w'
           | (Throw e, w') => (Throw e, w')
           end.
(** [try { m } catch (error) { h error }] *)
Definition try_catch {A} (m : M A) (h : Error -> M A) : M A :=
  fun w => match m w with
           | (Ok a, w') => (Ok a, w')
           | (Throw e, w') => h e w'
           end.
(** [try { m } finally { f }]: [f] runs on both exits; if it throws, its
    error replaces the outcome of [m]. *)
Definition try_finally {A} (m : M A) (f : M unit) : M A :=
  fun w => match m w with
           | (r, w') => match f w' with
                        | (Ok _, w'') => (r, w'')
                        | (Throw e, w'') => (Throw e, w'')
                        end
           end.

Declare Scope js_scope.
Delimit Scope js_scope with js.
Notation "x <- m ;; k" := (bind m (fun x => k))
  (at level 100, m at next level, right associativity) : js_scope.
Notation "m ;;; k" := (bind m (fun _ => k))
  (at level 100, right associativity) : js_scope.
Local Open Scope js_scope.

Definition get : M World := fun w => (Ok w, w).
Definition emit (e : Event) : M unit :=
  fun w => (Ok tt, {| posted_tweets := posted_tweets w; posted_videos := posted_videos w;
                      downloads := downloads w; run_log := run_log w;
                      trace := trace w ++ [e] |}).

Definition ledger (f : LedgerName) (w : World) : LedgerFile :=
  match f with
  | POSTED_TWEETS_FILE => posted_tweets w
  | POSTED_VIDEOS_FILE => posted_videos w
  end.

Definition set_ledger (f : LedgerName) (c : LedgerFile) (w : World) : World :=
  match f with
  | POSTED_TWEETS_FILE =>
      {| posted_tweets := c; posted_videos := posted_videos w;
         downloads := downloads w; run_log := run_log w; trace := trace w |}
  | POSTED_VIDEOS_FILE =>
      {| posted_tweets := posted_tweets w; posted_videos := c;
         downloads := downloads w; run_log := run_log w; trace := trace w |}
  end.

Definition set_downloads (d : list Js.str) (w : World) : World :=
  {| posted_tweets := posted_tweets w; posted_videos := posted_videos w;
     downloads := d; run_log := run_log w; trace := trace w |}.

(** ** Deduplication store *)

(** The value of [JSON.parse(await fs.readFile(file, 'utf8'))]. *)
Inductive Parsed :=
| PArray (l : list PostedRecord)
| POther.

Definition readJson (f : LedgerName) : M Parsed :=
  fun w => match ledger f w with
           | Unreadable => (Throw (FsError "open"), w)
           | Unparsable => (Throw SyntaxError, w)
           | NotAnArray => (Ok POther, w)
           | Records l => (Ok (PArray l), w)
           end.

(** How [fs.writeFile(file, JSON.stringify(records, null, 2))] ends.
    The file is opened with flag [w], which truncates it, and then
    written: a write rejected at [open] leaves the file as it was, a
    write rejected later leaves it empty or holding a strict prefix of
    the text, neither of which is valid JSON. *)
Inductive Write :=
| Written
| Refused
| Truncated.

Definition write_outcome (E : Env) (f : LedgerName) : Write :=
  if writeFile_ok E f then Written
  else if writeFile_opened E f then Truncated
  else Refused.

Definition writeJson (E : Env) (f : LedgerName) (l : list PostedRecord) : M unit :=
  fun w => match write_outcome E f with
           | Written => (Ok tt, set_ledger f (Records l) w)
           | Refused => (Throw (FsError "open"), w)
           | Truncated => (Throw (FsError "write"), set_ledger f Unparsable w)
           end.

(** [loadPostedTweets], [loadPostedVideos]: a non-array has no [map]. *)
Definition loadPosted (f : LedgerName) : M (gset Js.str) :=
  try_catch
    (data <- readJson f ;;
     match data with
     | PArray records => ret (list_to_set (map itemId records))
     | POther => throw TypeError
     end)
    (fun _ => ret ∅).

(** [records.slice(-cap)]: the last [cap] elements; [slice(-0)] is
    [slice(0)], the whole array. *)
Definition slice_neg {A} (cap : nat) (l : list A) : list A :=
  match cap with
  | O => l
  | S _ => skipn (length l - cap) l
  end.

(** [savePostedTweet] and [savePostedVideo] are the same function up to
    the file and the constant. *)
Definition savePosted (f : LedgerName) (cap : nat) (E : Env) (record : PostedRecord)
  : M unit :=
  try_catch
    (records <- try_catch (readJson f) (fun _ => ret (PArray [])) ;;
     match records with
     | POther => throw TypeError             (* records.push is not a function *)
     | PArray l =>
         let l := l ++ [record] in
         let l := if (cap <? length l)%nat then slice_neg cap l else l in
         writeJson E f l
     end)
    (fun _ => ret tt).                       (* logged; "Don't throw" *)

Definition loadPostedTweets := loadPosted POSTED_TWEETS_FILE.
Definition savePostedTweet := savePosted POSTED_TWEETS_FILE 1000.
Definition loadPostedVideos := loadPosted POSTED_VIDEOS_FILE.
Definition savePostedVideo := savePosted POSTED_VIDEOS_FILE 100.

(** ** Content normalizer *)

(** One awaited [openai.responses.create] call. *)
Definition ai_call (E : Env) (input : Js.str) : M AiOutcome :=
  w <- get ;;
  emit (EvAi input) ;;;
  ret (openai E (trace w) input).

(** The [input] of the request of [cleanAndOptimizeContent]. *)
Definition clean_input (content : Js.str) (isThread : bool) : Js.str :=
  let contentType :=
    Js.lit (if isThread then "Twitter thread summary" else "tweet content") in
  Js.lit "Please clean and optimize this " ++ contentType
  ++ Js.lit " for social media posting:" ++ [10; 10]%N ++ content.

(** [cleanAndOptimizeContent]: [response.output_text || content] when the
    call returns, [cleanTextBasic(content)] when it throws.  [isThread]
    only selects the wording of the request. *)
Definition cleanAndOptimizeContent (E : Env) (content : Js.str) (isThread : bool)
  : M Js.str :=
  r <- ai_call E (clean_input content isThread) ;;
  match r with
  | AiText output_text => ret (Js.or_else output_text content)
  | AiThrows => ret (cleanTextBasic content)
  end.

(** ** Thread reconstruction *)

Definition REPLIED_TO : Js.str := Js.lit "replied_to".

Definition str_eqb (a b : Js.str) : bool := bool_decide (a = b).

(** [tweet.referenced_tweets?.some(ref => ref.type === ty)]: [None] is
    the [undefined] of a missing field. *)
Definition some_ref (ty : Js.str) (tweet : TwitterPost) : option bool :=
  match referenced_tweets tweet with
  | Some refs => Some (existsb (fun ref => str_eqb (fst ref) ty) refs)
  | None => None
  end.

Definition truthy (o : option bool) : bool :=
  match o with Some b => b | None => false end.

Definition isPartOfThread (tweet : TwitterPost) : bool :=
  let hasRepliedTo := some_ref REPLIED_TO tweet in
  let isReply := negb (str_eqb (conversation_id tweet) (id tweet)) in
  truthy hasRepliedTo || isReply.

Definition getThreadFromTimeline (conversationId : Js.str) (timelineData : list TwitterPost)
  : list TwitterPost :=
  List.filter (fun tweet => str_eqb (conversation_id tweet) conversationId) timelineData.

Definition findFirstTweet (tweets : list TwitterPost) : option TwitterPost :=
  List.find (fun tweet => negb (truthy (some_ref REPLIED_TO tweet))) tweets.

(** [Array.prototype.sort] is stable: equal keys keep their order. *)
Fixpoint insert_sorted (t : TwitterPost) (l : list TwitterPost) : list TwitterPost :=
  match l with
  | [] => [t]
  | h :: l' => if (created_at t <=? created_at h)%Z then t :: l
               else h :: insert_sorted t l'
  end.

Definition sortThreadChronologically (tweets : list TwitterPost) : list TwitterPost :=
  fold_right insert_sorted [] tweets.

(** The [input] of the request of [summarizeThread]: the numbered texts. *)
Definition summary_input (tweets : list TwitterPost) : Js.str :=
  let threadText :=
    Js.join [10%N]
      (imap (fun index tweet => Js.of_nat (index + 1) ++ Js.lit ". " ++ text tweet) tweets) in
  Js.lit "Please summarize this Twitter thread for social media posting:"
  ++ [10; 10]%N ++ threadText.

(** [summarizeThread]: [response.output_text || ''], or the basic cleanup
    of the first tweet when the call throws. *)
Definition summarizeThread (E : Env) (tweets : list TwitterPost) : M Js.str :=
  r <- ai_call E (summary_input tweets) ;;
  match r with
  | AiText output_text => ret output_text
  | AiThrows =>
      ret (cleanTextBasic (match tweets with t :: _ => text t | [] => [] end))
  end.

Record Processed := { content : Js.str; firstTweetId : Js.str }.

(** [processTwitterContent].  [sort] sorts [threadTweets] in place and
    returns the same array, so [findFirstTweet(threadTweets)] searches
    the sorted array. *)
Definition processTwitterContent (E : Env) (tweet : TwitterPost)
    (timelineData : list TwitterPost) : M Processed :=
  try_catch
    (if negb (isPartOfThread tweet) then
       cleanedContent <- cleanAndOptimizeContent E (text tweet) false ;;
       ret {| content := cleanedContent; firstTweetId := id tweet |}
     else
       try_catch
         (let threadTweets := getThreadFromTimeline (conversation_id tweet) timelineData in
          if (length threadTweets <=? 1)%nat then
            cleanedContent <- cleanAndOptimizeContent E (text tweet) false ;;
            ret {| content := cleanedContent; firstTweetId := id tweet |}
          else
            let sortedTweets := sortThreadChronologically threadTweets in
            let firstTweet := findFirstTweet sortedTweets in
            summary <- summarizeThread E sortedTweets ;;
            cleanedSummary <- cleanAndOptimizeContent E summary true ;;
            ret {| content := cleanedSummary;
                   firstTweetId :=
                     match firstTweet with
                     | Some ft => Js.or_else (id ft) (conversation_id tweet)
                     | None => conversation_id tweet
                     end |})
         (fun _ =>
            cleanedContent <- cleanAndOptimizeContent E (text tweet) false ;;
            ret {| content := cleanedContent; firstTweetId := conversation_id tweet |}))
    (fun _ => ret {| content := text tweet; firstTweetId := id tweet |}).

(** ** Run log and process exit

    [fs.appendFile] on [daily-posting.log] or [youtube-posting.log]. *)
Definition appendLog (E : Env) (entry : LogEntry) : M unit :=
  fun w => if appendFile_ok E entry
           then (Ok tt, {| posted_tweets := posted_tweets w;
                           posted_videos := posted_videos w;
                           downloads := downloads w;
                           run_log := run_log w ++ [entry];
                           trace := trace w |})
           else (Throw (FsError "open"), w).

(** The statements of [createZoraCoin] and [createZoraCoinWithVideo] that
    precede their [try]: they throw on unusable credentials. *)
Definition client_setup (E : Env) : M unit :=
  if wallet_ok E then ret tt else throw (ServiceError "wallet").

(** The awaited uploads and [createCoin] call; returns [result.hash]. *)
Definition mint (E : Env) (source : Js.str) (req : MintRequest) : M Js.str :=
  match zora E req with
  | Ok hash => emit (EvMint source req (Some hash)) ;;; ret hash
  | Throw e => emit (EvMint source req None) ;;; throw e
  end.

(** How the process ends: [main] returned, [process.exit(code)] was
    called, or the promise of [main] was rejected, which
    [main().catch(console.error)] prints before the process ends with
    status 0. *)
Inductive Outcome :=
| Completed
| Exited (code : Z)
| Rejected (e : Error).

Definition exit_status (o : Outcome) : Z :=
  match o with
  | Exited code => code
  | Completed | Rejected _ => 0%Z
  end.

(** ** Image path ([auto-post-daily.ts]) *)

Module AutoPostDaily.

(** [tweet.text.match(/^@(\w+)/)]: the captured handle. *)
Definition reply_handle (t : Js.str) : option Js.str :=
  match t with
  | c :: r =>
      if (c =? 64)%N then
        match r with
        | w :: _ => if Js.is_word w
                    then Some (take (length r - length (Js.drop_while Js.is_word r)) r)
                    else None
        | [] => None
        end
      else None
  | [] => None
  end.

Definition has_ref (ty : string) (tweet : TwitterPost) : bool :=
  match referenced_tweets tweet with
  | Some refs => existsb (fun ref => str_eqb (fst ref) (Js.lit ty)) refs
  | None => false
  end.

Definition type_is (ty : string) (media : TwitterMedia) : bool :=
  str_eqb (type media) (Js.lit ty).

(** The body of the [for (const tweet of tweetData)] loop: [None] is
    [continue], [Some imageUrl] is the [return]. *)
Definition image_of (alreadyPosted : gset Js.str) (mediaData : list TwitterMedia)
    (tweet : TwitterPost) : option Js.str :=
  if bool_decide (id tweet ∈ alreadyPosted) then None
  else if Js.startsWith (text tweet) (Js.lit "@")
          && match reply_handle (text tweet) with
             | Some h => negb (str_eqb h (Js.lit "tokenmetricsinc"))
             | None => false
             end then None
  else if Js.startsWith (text tweet) (Js.lit "RT @") || has_ref "retweeted" tweet then None
  else if has_ref "quoted" tweet then None
  else match media_keys tweet with
       | None => None
       | Some keys =>
           let tweetMedia :=
             List.filter (fun media => bool_decide (media_key media ∈ keys)) mediaData in
           let hasVideo :=
             existsb (fun media => type_is "video" media || type_is "animated_gif" media)
                     tweetMedia in
           if hasVideo then None
           else match List.find (type_is "photo") tweetMedia with
                | Some imageMedia =>
                    match url imageMedia with
                    | Some (c :: u) => Some (c :: u)
                    | _ => None
                    end
                | None => None
                end
       end.

Fixpoint first_image_post (alreadyPosted : gset Js.str) (mediaData : list TwitterMedia)
    (tweets : list TwitterPost) : option (TwitterPost * Js.str) :=
  match tweets with
  | [] => None
  | tweet :: rest =>
      match image_of alreadyPosted mediaData tweet with
      | Some imageUrl => Some (tweet, imageUrl)
      | None => first_image_post alreadyPosted mediaData rest
      end
  end.

Record Found := {
  post : TwitterPost;
  imageUrl : Js.str;
  timelineData : list TwitterPost
}.

(** [getLatestImagePost]: the [catch] only logs and rethrows. *)
Definition getLatestImagePost (E : Env) (alreadyPosted : gset Js.str) : M Found :=
  match userTimeline E with
  | Throw e => throw e
  | Ok (tweetData, mediaData) =>
      match tweetData with
      | [] => throw NoTweetsFound
      | _ =>
          match first_image_post alreadyPosted mediaData tweetData with
          | Some (tweet, imageUrl) =>
              ret {| post := tweet; imageUrl := imageUrl; timelineData := tweetData |}
          | None => throw NoValidImagePosts
          end
      end
  end.

Definition coin_name_of (post_id : Js.str) : Js.str :=
  Js.lit "tokenmetrics#" ++ Js.slice_last 6 post_id.

(** [createZoraCoin]: metadata upload and [createCoin]; the [catch] logs
    and rethrows. *)
Definition createZoraCoin (E : Env) (post : TwitterPost) (imageUrl : Js.str)
    (processedContent linkToPost : Js.str) : M Js.str :=
  client_setup E ;;;
  let postIdHash := Js.slice_last 6 (id post) in
  mint E (id post)
    {| mint_name := Js.lit "tokenmetrics#" ++ postIdHash;
       mint_symbol := Js.lit "TM" ++ Js.toUpperCase (unicode_upper E) postIdHash;
       mint_description := processedContent;
       mint_image := imageUrl;
       mint_video := None |}.

(** The [try] block of [main]. *)
Definition main_try (E : Env) : M unit :=
  alreadyPosted <- loadPostedTweets ;;
  found <- getLatestImagePost E alreadyPosted ;;
  let post := post found in
  processed <- processTwitterContent E post (timelineData found) ;;
  let linkToPost := Js.lit "https://x.com/tokenmetricsinc/status/" ++ firstTweetId processed in
  txHash <- createZoraCoin E post (imageUrl found) (content processed) linkToPost ;;
  let coinName := coin_name_of (id post) in
  savePostedTweet E {| itemId := id post; coinName := coinName;
                       zoraTransaction := txHash; postedAt := now E |} ;;;
  appendLog E {| status := SUCCESS; logged_id := Some (id post) |}.

Definition main (E : Env) (w : World) : Outcome * World :=
  match main_try E w with
  | (Ok _, w') => (Completed, w')
  | (Throw _, w') =>
      match appendLog E {| status := FAILED; logged_id := None |} w' with
      | (Ok _, w'') => (Exited 1, w'')
      | (Throw e, w'') => (Rejected e, w'')
      end
  end.

End AutoPostDaily.

(** ** Video path ([youtube-shorts-zora.ts]) *)

Module YoutubeShorts.

(** [getShortsPlaylistId]: [None] stands for the thrown
    [Error('Invalid channel ID format')]; [substring(2)] drops two code
    units. *)
Definition getShortsPlaylistId (channelId : Js.str) : option Js.str :=
  if Js.startsWith channelId (Js.lit "UC")
  then Some (Js.lit "UUSH" ++ skipn 2 channelId)
  else None.

(** [getSpecificVideo]: the [catch] logs and rethrows. *)
Definition getSpecificVideo (E : Env) (videoId : Js.str) : M YouTubeVideo :=
  match youtube_video E videoId with
  | Ok video => ret video
  | Throw e => throw e
  end.

(** [getLatestShorts]: [maxResults = 1], so the single latest upload is
    the only candidate. *)
Definition getLatestShorts (E : Env) (alreadyPosted : gset Js.str) : M YouTubeVideo :=
  match youtube_latest E with
  | Throw e => throw e
  | Ok video =>
      if bool_decide (vid video ∈ alreadyPosted)
      then throw LatestVideoAlreadyPosted
      else ret video
  end.

Definition formatStrategies : list Js.str :=
  [ Js.lit "232+233-9/231+233-9/230+233-9";
    Js.lit "232+233/231+233/230+233";
    Js.lit "best[height<=720]";
    Js.lit "best[ext=mp4]";
    Js.lit "best" ].

Record Downloaded := { videoPath : Js.str; thumbnailPath : Js.str }.

Definition is_video_file (videoId f : Js.str) : bool :=
  Js.startsWith f videoId
  && (Js.endsWith f (Js.lit ".mp4") || Js.endsWith f (Js.lit ".webm")
      || Js.endsWith f (Js.lit ".mkv")).

Definition is_thumb_file (videoId f : Js.str) : bool :=
  Js.startsWith f videoId && Js.endsWith f (Js.lit ".jpg").

(** [tryDownloadWithFormat]: one spawn of the downloader.  A path inside
    [downloads/] is represented by the file's name. *)
Definition tryDownloadWithFormat (E : Env) (videoId formatString : Js.str)
  : M Downloaded :=
  w <- get ;;
  emit (EvDownload videoId formatString) ;;;
  match yt_dlp E (trace w) videoId formatString (downloads w) with
  | SpawnError => throw YtDlpSpawnError
  | Closed code files =>
      (fun w => (Ok tt, set_downloads files w)) ;;;
      if (code =? 0)%Z then
        let videoPath := videoId ++ Js.lit ".mp4" in
        let thumbnailPath := videoId ++ Js.lit ".jpg" in
        let videoExists := bool_decide (videoPath ∈ files) in
        let thumbExists := bool_decide (thumbnailPath ∈ files) in
        if videoExists && thumbExists then
          ret {| videoPath := videoPath; thumbnailPath := thumbnailPath |}
        else if readdir_ok E then
          match List.find (is_video_file videoId) files,
                List.find (is_thumb_file videoId) files with
          | Some (c :: v), Some (d :: t) =>
              ret {| videoPath := c :: v; thumbnailPath := d :: t |}
          | _, _ => throw DownloadedFilesNotFound
          end
        else throw FailedToListDownloadedFiles
      else throw (YtDlpFailed code)
  end.

(** The [for] loop of [downloadShortVideo] over the strategies that are
    left: the error of the last strategy is rethrown, any earlier one is
    dropped. *)
Fixpoint try_strategies (E : Env) (videoId : Js.str) (strategies : list Js.str)
  : M Downloaded :=
  match strategies with
  | [] => throw AllFormatStrategiesFailed
  | formatString :: rest =>
      try_catch (tryDownloadWithFormat E videoId formatString)
        (fun error =>
           match rest with
           | [] => throw error
           | _ :: _ => try_strategies E videoId rest
           end)
  end.

Definition downloadShortVideo (E : Env) (videoId : Js.str) : M Downloaded :=
  (if mkdir_ok E then ret tt else throw (FsError "mkdir")) ;;;
  try_strategies E videoId formatStrategies.

Definition caption_input (title description : Js.str) : Js.str :=
  Js.lit "Please create an engaging social media caption for this YouTube Short:"
  ++ [10; 10]%N ++ Js.lit "Title: " ++ title ++ [10; 10]%N
  ++ Js.lit "Description: " ++ description.

(** [optimizeContentWithAI]: the title when the call throws or returns
    nothing. *)
Definition optimizeContentWithAI (E : Env) (title description : Js.str) : M Js.str :=
  r <- ai_call E (caption_input title description) ;;
  match r with
  | AiText output_text => ret (Js.or_else output_text title)
  | AiThrows => ret title
  end.

Definition readFile (path : Js.str) : M unit :=
  fun w => if bool_decide (path ∈ downloads w) then (Ok tt, w)
           else (Throw (FsError "open"), w).

Definition unlink (E : Env) (path : Js.str) : M unit :=
  fun w => if bool_decide (path ∈ downloads w) && unlink_ok E path
           then (Ok tt, set_downloads (List.filter (fun f => negb (str_eqb f path)) (downloads w)) w)
           else (Throw (FsError "unlink"), w).

(** The [try] block of [createZoraCoinWithVideo]. *)
Definition video_mint (E : Env) (video : YouTubeVideo)
    (videoPath thumbnailPath : Js.str) : M Js.str :=
  optimizedContent <- optimizeContentWithAI E (title video) (description video) ;;
  let videoIdHash := Js.slice_last 6 (vid video) in
  readFile videoPath ;;;
  readFile thumbnailPath ;;;
  mint E (vid video)
    {| mint_name := title video;
       mint_symbol := Js.lit "TM" ++ Js.toUpperCase (unicode_upper E) videoIdHash;
       mint_description := optimizedContent;
       mint_image := thumbnailPath;
       mint_video := Some videoPath |}.

(** Its [finally] block: the two deletions share one [try], whose
    [catch] only warns. *)
Definition cleanup (E : Env) (videoPath thumbnailPath : Js.str) : M unit :=
  try_catch
    (unlink E videoPath ;;; unlink E thumbnailPath)
    (fun _ => ret tt).

(** [createZoraCoinWithVideo]: client setup, then
    [try { ... } catch (error) { throw error } finally { ... }]. *)
Definition createZoraCoinWithVideo (E : Env) (video : YouTubeVideo)
    (videoPath thumbnailPath : Js.str) : M Js.str :=
  client_setup E ;;;
  try_finally
    (try_catch (video_mint E video videoPath thumbnailPath)
               (fun error => throw error))
    (cleanup E videoPath thumbnailPath).

(** [process.argv[2]], when it is a non-empty string, selects the
    specific-video mode. *)
Definition specific (arg : option Js.str) : option Js.str :=
  match arg with
  | Some (c :: s) => Some (c :: s)
  | _ => None
  end.

(** The [try] block of [main]. *)
Definition main_try (E : Env) (arg : option Js.str) : M unit :=
  alreadyPosted <- match specific arg with
                   | None => loadPostedVideos
                   | Some _ => ret ∅
                   end ;;
  targetVideo <- match specific arg with
                 | Some specificVideoId => getSpecificVideo E specificVideoId
                 | None => getLatestShorts E alreadyPosted
                 end ;;
  d <- downloadShortVideo E (vid targetVideo) ;;
  txHash <- createZoraCoinWithVideo E targetVideo (videoPath d) (thumbnailPath d) ;;
  let coinName := title targetVideo in
  match specific arg with
  | None => savePostedVideo E {| itemId := vid targetVideo; coinName := coinName;
                                 zoraTransaction := txHash; postedAt := now E |}
  | Some _ => ret tt
  end ;;;
  appendLog E {| status := SUCCESS; logged_id := Some (vid targetVideo) |}.

Definition main (E : Env) (arg : option Js.str) (w : World) : Outcome * World :=
  match main_try E arg w with
  | (Ok _, w') => (Completed, w')
  | (Throw _, w') =>
      match appendLog E {| status := FAILED; logged_id := None |} w' with
      | (Ok _, w'') => (Exited 1, w'')
      | (Throw e, w'') => (Rejected e, w'')
      end
  end.

End YoutubeShorts.

(** ** Vocabulary of the properties *)

(** The records a ledger file holds for the program: none when it cannot
    be read as an array. *)
Definition stored (c : LedgerFile) : list PostedRecord :=
  match c with
  | Records l => l
  | _ => []
  end.

Definition stored_ids (c : LedgerFile) : list Js.str := map itemId (stored c).

(** The world after further external calls. *)
Definition add_events (evs : list Event) (w : World) : World :=
  {| posted_tweets := posted_tweets w; posted_videos := posted_videos w;
     downloads := downloads w; run_log := run_log w; trace := trace w ++ evs |}.

Definition add_log (entries : list LogEntry) (w : World) : World :=
  {| posted_tweets := posted_tweets w; posted_videos := posted_videos w;
     downloads := downloads w; run_log := run_log w ++ entries; trace := trace w |}.

(** What a record operation leaves in the ledger file. *)
Definition after_save (cap : nat) (wr : Write) (record : PostedRecord) (c : LedgerFile)
  : LedgerFile :=
  let write l :=
    match wr with
    | Written => Records (if (cap <? length (l ++ [record]))%nat
                          then slice_neg cap (l ++ [record]) else l ++ [record])
    | Refused => c
    | Truncated => Unparsable
    end in
  match c with
  | NotAnArray => c
  | Records l => write l
  | Unreadable | Unparsable => write []
  end.

(** A sequence of record operations, each in its own environment. *)
Fixpoint record_all (f : LedgerName) (cap : nat) (ops : list (Env * PostedRecord))
    (w : World) : World :=
  match ops with
  | [] => w
  | (E, record) :: ops' => record_all f cap ops' (savePosted f cap E record w).2
  end.

Definition is_mint (ev : Event) : bool :=
  match ev with EvMint _ _ _ => true | _ => false end.

Definition is_download (ev : Event) : bool :=
  match ev with EvDownload _ _ => true | _ => false end.

Definition is_ai (ev : Event) : bool :=
  match ev with EvAi _ => true | _ => false end.

(** The source item an acquisition or a mint was made for. *)
Definition event_source (ev : Event) : option Js.str :=
  match ev with
  | EvAi _ => None
  | EvDownload videoId _ => Some videoId
  | EvMint source _ _ => Some source
  end.

(** An event of a run for the item [v] that is not a call to the minting
    subsystem. *)
Definition before_mint_of (v : Js.str) (ev : Event) : bool :=
  match ev with
  | EvAi _ => true
  | EvDownload videoId _ => str_eqb videoId v
  | EvMint _ _ _ => false
  end.

(** [downloads/] after the [finally] block of [createZoraCoinWithVideo]:
    the thumbnail is only deleted when the video was. *)
Definition after_cleanup (E : Env) (videoPath thumbnailPath : Js.str)
    (files : list Js.str) : list Js.str :=
  if bool_decide (videoPath ∈ files) && unlink_ok E videoPath then
    let files1 := List.filter (fun f => negb (str_eqb f videoPath)) files in
    if bool_decide (thumbnailPath ∈ files1) && unlink_ok E thumbnailPath then
      List.filter (fun f => negb (str_eqb f thumbnailPath)) files1
    else files1
  else files.

(** The world after a run of the video path that got its candidate:
    [downloads/] and the trace moved, and the ledger when [save] is
    set. *)
Definition video_world (E : Env) (latest : bool) (record : PostedRecord)
    (files : list Js.str) (evs : list Event) (w : World) : World :=
  let w1 := set_downloads files (add_events evs w) in
  if latest
  then set_ledger POSTED_VIDEOS_FILE
         (after_save 100 (write_outcome E POSTED_VIDEOS_FILE) record (posted_videos w)) w1
  else w1.

Definition is_latest (arg : option Js.str) : bool :=
  match YoutubeShorts.specific arg with None => true | Some _ => false end.

(** The ids a run of the video path loads from its ledger. *)
Definition video_loaded (arg : option Js.str) (w : World) : gset Js.str :=
  if is_latest arg then list_to_set (stored_ids (posted_videos w)) else ∅.

Definition FAILED_ENTRY : LogEntry := {| status := FAILED; logged_id := None |}.
Definition SUCCESS_ENTRY (x : Js.str) : LogEntry := {| status := SUCCESS; logged_id := Some x |}.

(** How a failed run ends: never as a completed run, and with exit
    status 1 when the failure entry could be appended to the run log. *)
Definition failure (E : Env) (o : Outcome) : Prop :=
  o <> Completed /\ (appendFile_ok E FAILED_ENTRY = true -> o = Exited 1).

(** Events that are no call to the minting subsystem and concern no item
    of [S]. *)
Definition quiet (S : gset Js.str) (evs : list Event) : Prop :=
  forall ev, In ev evs ->
    is_mint ev = false /\ forall src, event_source ev = Some src -> src ∉ S.

(** The three ways a run goes, seen from outside: the events [evs] it
    added to the trace, its ledger file before ([old]) and after
    ([new]), and its outcome [o].  [S] is the set of ids the run loaded,
    [saves] tells whether the mode records a minted item. *)
Inductive RunShape (E : Env) (S : gset Js.str) (f : LedgerName) (cap : nat)
    (saves : bool) (old new : LedgerFile) (evs : list Event) (o : Outcome) : Prop :=
| StoppedBeforeMint :
    quiet S evs -> new = old -> failure E o ->
    RunShape E S f cap saves old new evs o
| MintFailed src req evs0 :
    evs = evs0 ++ [EvMint src req None] -> quiet S evs0 -> src ∉ S ->
    new = old -> failure E o ->
    RunShape E S f cap saves old new evs o
| Minted src req tx evs0 record :
    evs = evs0 ++ [EvMint src req (Some tx)] -> quiet S evs0 -> src ∉ S ->
    itemId record = src ->
    new = (if saves then after_save cap (write_outcome E f) record old else old) ->
    (appendFile_ok E (SUCCESS_ENTRY src) = true -> o = Completed) ->
    (o <> Completed -> failure E o) ->
    RunShape E S f cap saves old new evs o.

(** A tweet without a "replied_to" reference. *)
Definition is_root (tweet : TwitterPost) : bool :=
  negb (truthy (some_ref REPLIED_TO tweet)).

Definition chronological (a b : TwitterPost) : Prop :=
  (created_at a <= created_at b)%Z.

(** The same, read off the data: no reference of [tweet] has the type
    "replied_to". *)
Definition no_reply_ref (tweet : TwitterPost) : Prop :=
  forall refs ref,
    referenced_tweets tweet = Some refs -> In ref refs -> fst ref <> REPLIED_TO.

(** [t] is a tweet of the fetched window that belongs to conversation
    [c]; the window holds at least two such tweets. *)
Definition in_conversation (c : Js.str) (timelineData : list TwitterPost)
    (t : TwitterPost) : Prop :=
  In t timelineData /\ conversation_id t = c.

Definition two_in_conversation (c : Js.str) (timelineData : list TwitterPost) : Prop :=
  exists l1 a l2 b l3,
    timelineData = l1 ++ a :: l2 ++ b :: l3
    /\ conversation_id a = c /\ conversation_id b = c.


(** All the strategies of [l] were tried in order, each failed. *)
Inductive all_failed (E : Env) (videoId : Js.str) : list Js.str -> World -> World -> Prop :=
| all_failed_nil w : all_failed E videoId [] w w
| all_failed_cons formatString rest w w1 w2 e :
    YoutubeShorts.tryDownloadWithFormat E videoId formatString w = (Throw e, w1) ->
    all_failed E videoId rest w1 w2 ->
    all_failed E videoId (formatString :: rest) w w2.

(** ** Environments and worlds of the examples *)

Definition world0 : World :=
  {| posted_tweets := Unreadable; posted_videos := Unreadable;
     downloads := []; run_log := []; trace := [] |}.

Definition with_tweets (c : LedgerFile) (w : World) : World := set_ledger POSTED_TWEETS_FILE c w.
Definition with_videos (c : LedgerFile) (w : World) : World := set_ledger POSTED_VIDEOS_FILE c w.

(** Every service answers; [ai] is the language service, [dl] the
    downloader, [wr] the outcome of writing a ledger. *)
Definition env_of (ai : AiOutcome) (tl : Res (list TwitterPost * list TwitterMedia))
    (yt : Res YouTubeVideo) (dl : Js.str -> list Js.str -> Spawned)
    (mt : Res Js.str) (wr : bool) : Env :=
  {| now := Js.lit "2025-01-01T00:00:00.000Z";
     openai := fun _ _ => ai;
     userTimeline := tl;
     youtube_video := fun _ => yt;
     youtube_latest := yt;
     yt_dlp := fun _ _ formatString files => dl formatString files;
     zora := fun _ => mt;
     writeFile_ok := fun _ => wr;
     writeFile_opened := fun _ => false;
     appendFile_ok := fun _ => true;
     wallet_ok := true;
     mkdir_ok := true;
     readdir_ok := true;
     unlink_ok := fun _ => true;
     unicode_upper := fun s => s |}.

(** [E] with another answer of [fs.unlink], of the client setup. *)
Definition with_unlink (u : Js.str -> bool) (E : Env) : Env :=
  {| now := now E; openai := openai E; userTimeline := userTimeline E;
     youtube_video := youtube_video E; youtube_latest := youtube_latest E;
     yt_dlp := yt_dlp E; zora := zora E; writeFile_ok := writeFile_ok E;
     writeFile_opened := writeFile_opened E;
     appendFile_ok := appendFile_ok E; wallet_ok := wallet_ok E;
     mkdir_ok := mkdir_ok E; readdir_ok := readdir_ok E; unlink_ok := u;
     unicode_upper := unicode_upper E |}.

Definition with_wallet (b : bool) (E : Env) : Env :=
  {| now := now E; openai := openai E; userTimeline := userTimeline E;
     youtube_video := youtube_video E; youtube_latest := youtube_latest E;
     yt_dlp := yt_dlp E; zora := zora E; writeFile_ok := writeFile_ok E;
     writeFile_opened := writeFile_opened E;
     appendFile_ok := appendFile_ok E; wallet_ok := b;
     mkdir_ok := mkdir_ok E; readdir_ok := readdir_ok E; unlink_ok := unlink_ok E;
     unicode_upper := unicode_upper E |}.

(** [E] where every write of a ledger is rejected after the file was
    opened. *)
Definition with_torn_write (E : Env) : Env :=
  {| now := now E; openai := openai E; userTimeline := userTimeline E;
     youtube_video := youtube_video E; youtube_latest := youtube_latest E;
     yt_dlp := yt_dlp E; zora := zora E; writeFile_ok := fun _ => false;
     writeFile_opened := fun _ => true;
     appendFile_ok := appendFile_ok E; wallet_ok := wallet_ok E;
     mkdir_ok := mkdir_ok E; readdir_ok := readdir_ok E; unlink_ok := unlink_ok E;
     unicode_upper := unicode_upper E |}.

(** [E] where the run log cannot be appended to. *)
Definition with_log_failure (E : Env) : Env :=
  {| now := now E; openai := openai E; userTimeline := userTimeline E;
     youtube_video := youtube_video E; youtube_latest := youtube_latest E;
     yt_dlp := yt_dlp E; zora := zora E; writeFile_ok := writeFile_ok E;
     writeFile_opened := writeFile_opened E;
     appendFile_ok := fun _ => false; wallet_ok := wallet_ok E;
     mkdir_ok := mkdir_ok E; readdir_ok := readdir_ok E; unlink_ok := unlink_ok E;
     unicode_upper := unicode_upper E |}.

Definition rec_of (x : string) : PostedRecord :=
  {| itemId := Js.lit x; coinName := Js.lit "coin"; zoraTransaction := Js.lit "0xabc";
     postedAt := Js.lit "2025-01-01T00:00:00.000Z" |}.

Definition env_ok : Env :=
  env_of (AiText (Js.lit "caption")) (Throw (ServiceError "twitter"))
         (Throw (ServiceError "youtube")) (fun _ _ => SpawnError)
         (Ok (Js.lit "0xabc")) true.

(** Only the language service varies. *)
Definition env_ai (ai : AiOutcome) : Env :=
  env_of ai (Throw (ServiceError "twitter")) (Throw (ServiceError "youtube"))
         (fun _ _ => SpawnError) (Ok (Js.lit "0xabc")) true.

Definition video_abc : YouTubeVideo :=
  {| vid := Js.lit "abc"; title := Js.lit "A short"; description := Js.lit "about $ETH";
     publishedAt := Js.lit "2025-01-01T00:00:00Z"; thumbnailUrl := Js.lit "https://i.ytimg.com/abc";
     channelTitle := Js.lit "Token Metrics" |}.

(** The downloader succeeds at once and leaves the two expected files. *)
Definition dl_ok : Js.str -> list Js.str -> Spawned :=
  fun _ files => Closed 0 (files ++ [Js.lit "abc.mp4"; Js.lit "abc.jpg"]).

(** The first two strategies fail, the third one succeeds. *)
Definition dl_third : Js.str -> list Js.str -> Spawned :=
  fun formatString files =>
    if str_eqb formatString (Js.lit "best[height<=720]")
    then Closed 0 (files ++ [Js.lit "abc.mp4"; Js.lit "abc.jpg"])
    else Closed 1 files.

Definition env_video (dl : Js.str -> list Js.str -> Spawned) (mt : Res Js.str) (wr : bool)
  : Env :=
  env_of (AiText (Js.lit "caption")) (Throw (ServiceError "twitter")) (Ok video_abc)
         dl mt wr.

(** Every attempt writes the thumbnail and then fails on the video. *)
Definition dl_thumb_only : Js.str -> list Js.str -> Spawned :=
  fun _ files => Closed 1 (List.filter (fun f => negb (str_eqb f (Js.lit "abc.jpg"))) files
                           ++ [Js.lit "abc.jpg"]).

Definition tweet_of (i : string) (txt : string) (at_ : Z) (conv : string)
    (refs : option (list (Js.str * Js.str))) : TwitterPost :=
  {| id := Js.lit i; text := Js.lit txt; created_at := at_;
     conversation_id := Js.lit conv; referenced_tweets := refs;
     media_keys := Some [Js.lit ("m" ++ i)] |}.

Definition env_image (tweets : list TwitterPost) (media : list TwitterMedia)
    (mt : Res Js.str) (wr : bool) : Env :=
  env_of (AiText (Js.lit "caption")) (Ok (tweets, media)) (Throw (ServiceError "youtube"))
         (fun _ _ => SpawnError) mt wr.

(** A thread of three tweets in the timeline, newest first; the root is
    in the window, and its id differs from the conversation id. *)
Definition thread_root : TwitterPost := tweet_of "1000" "1/ thread" 10 "900" None.
Definition thread_mid : TwitterPost :=
  tweet_of "1001" "2/ more" 20 "900" (Some [(REPLIED_TO, Js.lit "1000")]).
Definition thread_last : TwitterPost :=
  tweet_of "1002" "3/ end" 30 "900" (Some [(REPLIED_TO, Js.lit "1001")]).
Definition thread_timeline : list TwitterPost := [thread_last; thread_mid; thread_root].

Definition photo_of (i : string) : TwitterMedia :=
  {| media_key := Js.lit ("m" ++ i); type := Js.lit "photo";
     url := Some (Js.lit "https://pbs.twimg.com/media/x.jpg") |}.

(** ** Vocabulary of the further properties *)

(** White space of a text in normal form: only U+0020, never twice in a
    row, and neither first nor last. *)
Definition space_is_32 (c : N) : bool := negb (Js.is_space c) || (c =? 32)%N.

Fixpoint no_space_runs (s : Js.str) : bool :=
  match s with
  | c :: s' =>
      match s' with
      | d :: _ => negb (Js.is_space c && Js.is_space d)
      | [] => true
      end && no_space_runs s'
  | [] => true
  end.

Definition head_ok (s : Js.str) : bool :=
  match s with
  | c :: _ => negb (Js.is_space c)
  | [] => true
  end.

Definition ws_normal (s : Js.str) : bool :=
  forallb space_is_32 s && no_space_runs s && head_ok s && head_ok (rev s).

(** The code units of a text that are not white space, in order. *)
Definition visible (s : Js.str) : Js.str :=
  List.filter (fun c => negb (Js.is_space c)) s.

(** The text the thread summary falls back to: that of the first tweet
    of the (sorted) thread. *)
Definition first_text (tweets : list TwitterPost) : Js.str :=
  match tweets with
  | t :: _ => text t
  | [] => []
  end.

(** What [cleanAndOptimizeContent] returns for an answer of the service. *)
Definition cleaned (ai : AiOutcome) (content : Js.str) : Js.str :=
  match ai with
  | AiText output_text => Js.or_else output_text content
  | AiThrows => cleanTextBasic content
  end.

(** What [summarizeThread] returns for an answer of the service. *)
Definition summarized (ai : AiOutcome) (tweets : list TwitterPost) : Js.str :=
  match ai with
  | AiText output_text => output_text
  | AiThrows => cleanTextBasic (first_text tweets)
  end.


(** What a run that ended with outcome [o] appended to the run log. *)
Definition log_matches (o : Outcome) (before after : list LogEntry)
    (evs : list Event) : Prop :=
  match o with
  | Completed =>
      exists src req tx,
        after = before ++ [SUCCESS_ENTRY src] /\ In (EvMint src req (Some tx)) evs
  | Exited code => code = 1%Z /\ after = before ++ [FAILED_ENTRY]
  | Rejected _ => after = before
  end.

(** [m] neither reads nor writes the ledger file [f]: on a world where
    [f] holds something else it gives the same result and the same
    world, up to that file. *)
Definition blind {R} (f : LedgerName) (m : World -> R * World) : Prop :=
  forall c w, m (set_ledger f c w) = (fst (m w), set_ledger f c (snd (m w))).

(** * Properties *)

Arguments Js.lit : simpl never.

(** ** Regular-expression replacement and the text fallback *)

Section Replace.

Variable m : Js.str -> option Js.str.
Variable rep : Js.str.

(** The matcher consumes at least one code unit. *)
Hypothesis consuming : forall s rest, m s = Some rest -> (length rest < length s)%nat.

Lemma replace_all_cons c s' :
  Js.replace_all m rep (c :: s') =
  match m (c :: s') with
  | Some rest => rep ++ Js.replace_all m rep rest
  | None => c :: Js.replace_all m rep s'
  end.
Proof.
  simp replace_all.
  destruct (m (c :: s')) as [rest|] eqn:Hm; simpl; [|reflexivity].
  apply consuming in Hm. unfold Js.behind. simpl in Hm.
  destruct (Nat.leb_spec (length rest) (length s')); [reflexivity | lia].
Qed.

(** A property that holds of the scan at every suffix, by induction on
    the length of the subject. *)
Lemma replace_all_ind (P : Js.str -> Js.str -> Prop) :
  P [] [] ->
  (forall c s' rest, m (c :: s') = Some rest ->
     P rest (Js.replace_all m rep rest) ->
     P (c :: s') (rep ++ Js.replace_all m rep rest)) ->
  (forall c s', m (c :: s') = None ->
     P s' (Js.replace_all m rep s') ->
     P (c :: s') (c :: Js.replace_all m rep s')) ->
  forall s, P s (Js.replace_all m rep s).
Proof.
  intros Hnil Hsome Hnone s.
  remember (length s) as n eqn:Hn. revert s Hn.
  induction n as [n IH] using lt_wf_ind. intros [|c s'] Hn.
  - simp replace_all.
  - rewrite replace_all_cons. destruct (m (c :: s')) as [rest|] eqn:Hm.
    + apply Hsome; [exact Hm|]. apply (IH (length rest)); [|reflexivity].
      apply consuming in Hm. lia.
    + apply Hnone; [exact Hm|]. apply (IH (length s')); [|reflexivity].
      subst n. simpl. lia.
Qed.

Lemma replace_all_length :
  (forall s rest, m s = Some rest -> (length rep + length rest <= length s)%nat) ->
  forall s, (length (Js.replace_all m rep s) <= length s)%nat.
Proof.
  intros Hrep. apply (replace_all_ind (fun s out => (length out <= length s)%nat)).
  - simpl. lia.
  - intros c s' rest Hm IH. apply Hrep in Hm. rewrite length_app. lia.
  - intros c s' _ IH. simpl. lia.
Qed.

End Replace.

Lemma drop_while_length p s : (length (Js.drop_while p s) <= length s)%nat.
Proof. induction s as [|c s IH]; simpl; [lia|]. destruct (p c); simpl; lia. Qed.

Lemma drop_while_suffix p s : exists pre, s = pre ++ Js.drop_while p s.
Proof.
  induction s as [|c s [pre IH]]; simpl.
  - exists []. reflexivity.
  - destruct (p c).
    + exists (c :: pre). simpl. congruence.
    + exists []. reflexivity.
Qed.

Lemma strip_prefix_app p s r : Js.strip_prefix p s = Some r -> s = p ++ r.
Proof.
  revert s. induction p as [|a p IH]; intros s H.
  - destruct s; simpl in H; inversion H; reflexivity.
  - destruct s as [|c s]; simpl in H; [discriminate|].
    destruct (N.eqb_spec a c); [|discriminate]. subst. simpl. f_equal. auto.
Qed.

Lemma strip_prefix_app_r p s r q :
  Js.strip_prefix p s = Some r -> Js.strip_prefix p (s ++ q) = Some (r ++ q).
Proof.
  revert s. induction p as [|a p IH]; intros s H.
  - destruct s; simpl in H; inversion H; reflexivity.
  - destruct s as [|c s]; simpl in H; [discriminate|]. simpl.
    destruct (a =? c)%N; [auto | discriminate].
Qed.

Lemma match_tco_inv s rest :
  match_tco s = Some rest ->
  exists w r, s = tco_prefix ++ w :: r /\ Js.is_word w = true
              /\ rest = Js.drop_while Js.is_word r.
Proof.
  unfold match_tco. destruct (Js.strip_prefix tco_prefix s) as [[|w r]|] eqn:Hp;
    try discriminate.
  destruct (Js.is_word w) eqn:Hw; [|discriminate]. intros [= <-].
  exists w, r. split; [|split]; auto. apply strip_prefix_app. exact Hp.
Qed.

Lemma match_tco_suffix s rest :
  match_tco s = Some rest -> exists pre, s = pre ++ rest /\ (0 < length pre)%nat.
Proof.
  intros (w & r & -> & _ & ->)%match_tco_inv.
  destruct (drop_while_suffix Js.is_word r) as [pre Hpre].
  exists (tco_prefix ++ w :: pre). split.
  - rewrite <- app_assoc. simpl. rewrite <- Hpre. reflexivity.
  - rewrite length_app. simpl. lia.
Qed.

Lemma match_tco_consuming s rest :
  match_tco s = Some rest -> (length rest < length s)%nat.
Proof.
  intros (pre & -> & Hpre)%match_tco_suffix. rewrite length_app. lia.
Qed.

Lemma match_spaces_consuming s rest :
  match_spaces s = Some rest -> (length rest < length s)%nat.
Proof.
  destruct s as [|c s]; simpl; [discriminate|].
  destruct (Js.is_space c); [|discriminate]. intros [= <-].
  pose proof (drop_while_length Js.is_space s). simpl. lia.
Qed.

Lemma trim_length s : (length (Js.trim s) <= length s)%nat.
Proof.
  unfold Js.trim, Js.trim_end, Js.trim_start.
  rewrite length_rev.
  etransitivity; [apply drop_while_length|]. rewrite length_rev.
  apply drop_while_length.
Qed.

(** The fallback never lengthens its input. *)
Lemma cleanTextBasic_length t : (length (cleanTextBasic t) <= length t)%nat.
Proof.
  unfold cleanTextBasic.
  etransitivity; [apply trim_length|].
  etransitivity; [apply replace_all_length|].
  - apply match_spaces_consuming.
  - intros s rest H. apply match_spaces_consuming in H. simpl. lia.
  - apply replace_all_length.
    + apply match_tco_consuming.
    + intros s rest H. apply match_tco_consuming in H. simpl. lia.
Qed.

(** *** Tracking links in the output of the fallback *)

Lemma starts_link_true s : starts_link s = true <-> exists rest, match_tco s = Some rest.
Proof.
  unfold starts_link. destruct (match_tco s); split; eauto; try discriminate.
  intros [? ?]; discriminate.
Qed.

Lemma strip_tco_cons c s :
  Js.strip_prefix tco_prefix (c :: s) =
  if (104 =? c)%N then Js.strip_prefix (Js.lit "ttps://t.co/") s else None.
Proof. reflexivity. Qed.

Lemma starts_link_space c s : Js.is_space c = true -> starts_link (c :: s) = false.
Proof.
  intros Hc. unfold starts_link, match_tco. rewrite strip_tco_cons.
  destruct (N.eqb_spec 104 c) as [<-|]; [discriminate Hc | reflexivity].
Qed.

Lemma word_not_space c : Js.is_word c = true -> Js.is_space c = false.
Proof.
  intros Hw. destruct (Js.is_space c) eqn:Hs; [exfalso | reflexivity].
  unfold Js.is_word in Hw. unfold Js.is_space in Hs.
  rewrite ?orb_true_iff, ?andb_true_iff in Hw.
  rewrite ?orb_true_iff, ?andb_true_iff in Hs.
  rewrite ?N.leb_le, ?N.eqb_eq in Hw.
  rewrite ?N.leb_le, ?N.eqb_eq in Hs.
  lia.
Qed.

Lemma agree_refl s : agree s s = true.
Proof.
  induction s as [|c s IH]; simpl; [reflexivity|].
  destruct (Js.is_space c); [reflexivity|]. rewrite N.eqb_refl. exact IH.
Qed.

Lemma agree_cons c a b : agree a b = true -> agree (c :: a) (c :: b) = true.
Proof. intros H. simpl. destruct (Js.is_space c); [reflexivity|]. rewrite N.eqb_refl. exact H. Qed.

Lemma agree_strip_prefix p : forallb (fun c => negb (Js.is_space c)) p = true ->
  forall a b ra, agree a b = true -> Js.strip_prefix p a = Some ra ->
  exists rb, Js.strip_prefix p b = Some rb /\ agree ra rb = true.
Proof.
  induction p as [|x p IH]; intros Hp a b ra Hab Ha.
  - exists b. split; [destruct b; reflexivity|].
    destruct a; simpl in Ha; inversion Ha; subst; exact Hab.
  - simpl in Hp. apply andb_true_iff in Hp as [Hx Hp].
    destruct a as [|c a]; simpl in Ha; [discriminate|].
    destruct (N.eqb_spec x c) as [<-|]; [|discriminate].
    simpl in Hab. apply negb_true_iff in Hx. rewrite Hx in Hab.
    destruct b as [|y b]; [discriminate|].
    apply andb_true_iff in Hab as [Hxy Hab]. apply N.eqb_eq in Hxy as <-.
    simpl. rewrite N.eqb_refl. eauto.
Qed.

Lemma starts_link_agree a b :
  agree a b = true -> starts_link a = true -> starts_link b = true.
Proof.
  intros Hab [rest Ha]%starts_link_true.
  unfold match_tco in Ha.
  destruct (Js.strip_prefix tco_prefix a) as [[|w r]|] eqn:Hp; try discriminate.
  destruct (Js.is_word w) eqn:Hw; [|discriminate].
  destruct (agree_strip_prefix tco_prefix eq_refl a b _ Hab Hp) as (rb & Hb & Hr).
  simpl in Hr. rewrite (word_not_space _ Hw) in Hr.
  destruct rb as [|y rb]; [discriminate|].
  apply andb_true_iff in Hr as [Hwy _]. apply N.eqb_eq in Hwy as <-.
  unfold starts_link, match_tco. rewrite Hb, Hw. reflexivity.
Qed.

Lemma starts_link_app p q : starts_link p = true -> starts_link (p ++ q) = true.
Proof.
  intros [rest Hp]%starts_link_true. unfold match_tco in Hp.
  destruct (Js.strip_prefix tco_prefix p) as [[|w r]|] eqn:Hs; try discriminate.
  destruct (Js.is_word w) eqn:Hw; [|discriminate].
  unfold starts_link, match_tco.
  rewrite (strip_prefix_app_r _ _ _ q Hs). simpl. rewrite Hw. reflexivity.
Qed.

Lemma has_link_app_l p q : has_link p = true -> has_link (p ++ q) = true.
Proof.
  induction p as [|c p IH]; simpl; [discriminate|].
  intros [H|H]%orb_true_iff; apply orb_true_iff.
  - left. apply (starts_link_app (c :: p) q H).
  - right. auto.
Qed.

Lemma has_link_app_r p q : has_link q = true -> has_link (p ++ q) = true.
Proof.
  intros H. induction p as [|c p IH]; simpl; [exact H|].
  rewrite IH. apply orb_true_r.
Qed.

Lemma no_link_app_r p q : has_link (p ++ q) = false -> has_link q = false.
Proof.
  intros H. destruct (has_link q) eqn:Hq; [|reflexivity].
  rewrite (has_link_app_r p q Hq) in H. discriminate.
Qed.

Lemma no_link_app_l p q : has_link (p ++ q) = false -> has_link p = false.
Proof.
  intros H. destruct (has_link p) eqn:Hp; [|reflexivity].
  rewrite (has_link_app_l p q Hp) in H. discriminate.
Qed.

Lemma links_delimited_app_r p q :
  links_delimited (p ++ q) = true -> links_delimited q = true.
Proof.
  induction p as [|c p IH]; simpl; [auto|].
  intros [_ H]%andb_true_iff. auto.
Qed.

(** Removing the links of a text whose links are delimited leaves the
    space-free prefix of the text in place ... *)
Lemma remove_links_agree s :
  links_delimited s = true -> agree (Js.replace_all match_tco [] s) s = true.
Proof.
  pose proof (replace_all_ind match_tco [] match_tco_consuming
    (fun s out => links_delimited s = true -> agree out s = true)) as Hind.
  apply Hind; clear Hind s.
  - reflexivity.
  - intros c s' rest Hm _ Hd. simpl app.
    simpl in Hd. rewrite Hm in Hd. apply andb_true_iff in Hd as [Hd _].
    destruct rest as [|d r]; [simp replace_all; reflexivity|].
    rewrite (replace_all_cons _ _ match_tco_consuming).
    pose proof (starts_link_space d r Hd) as Hn. unfold starts_link in Hn.
    destruct (match_tco (d :: r)); [discriminate|].
    simpl. rewrite Hd. reflexivity.
  - intros c s' _ IH Hd. apply agree_cons, IH.
    simpl in Hd. apply andb_true_iff in Hd as [_ Hd]. exact Hd.
Qed.

(** ... so no link is spliced together from the two sides of a removed
    one. *)
Lemma remove_links_no_link s :
  links_delimited s = true -> has_link (Js.replace_all match_tco [] s) = false.
Proof.
  pose proof (replace_all_ind match_tco [] match_tco_consuming
    (fun s out => links_delimited s = true -> has_link out = false)) as Hind.
  apply Hind; clear Hind s.
  - reflexivity.
  - intros c s' rest Hm IH Hd. simpl app. apply IH.
    destruct (match_tco_suffix _ _ Hm) as (pre & Hs & _).
    rewrite Hs in Hd. apply (links_delimited_app_r pre rest Hd).
  - intros c s' Hm IH Hd.
    assert (Hd' : links_delimited s' = true).
    { simpl in Hd. apply andb_true_iff in Hd as [_ Hd]. exact Hd. }
    simpl. rewrite (IH Hd'), orb_false_r.
    destruct (starts_link (c :: Js.replace_all match_tco [] s')) eqn:Hl; [|reflexivity].
    apply (starts_link_agree _ (c :: s')) in Hl.
    + unfold starts_link in Hl. rewrite Hm in Hl. discriminate.
    + apply agree_cons, remove_links_agree, Hd'.
Qed.

Lemma collapse_spaces_agree s :
  agree (Js.replace_all match_spaces (Js.lit " ") s) s = true.
Proof.
  apply (replace_all_ind match_spaces (Js.lit " ") match_spaces_consuming
    (fun s out => agree out s = true)).
  - reflexivity.
  - intros c s' rest _ _. reflexivity.
  - intros c s' _ IH. apply agree_cons, IH.
Qed.

Lemma collapse_spaces_no_link s :
  has_link s = false -> has_link (Js.replace_all match_spaces (Js.lit " ") s) = false.
Proof.
  pose proof (replace_all_ind match_spaces (Js.lit " ") match_spaces_consuming
    (fun s out => has_link s = false -> has_link out = false)) as Hind.
  apply Hind; clear Hind s.
  - reflexivity.
  - intros c s' rest Hm IH Hs.
    change (Js.lit " " ++ ?x) with (32%N :: x). cbn [has_link].
    rewrite (starts_link_space 32 _ eq_refl). simpl. apply IH.
    simpl in Hm. destruct (Js.is_space c); [|discriminate]. injection Hm as <-.
    destruct (drop_while_suffix Js.is_space s') as [pre Hpre].
    apply (no_link_app_r (c :: pre)). simpl. rewrite <- Hpre. exact Hs.
  - intros c s' _ IH Hs. simpl in Hs. apply orb_false_iff in Hs as [Hh Hs].
    cbn [has_link]. rewrite (IH Hs), orb_false_r.
    destruct (starts_link (c :: Js.replace_all match_spaces (Js.lit " ") s')) eqn:Hl;
      [|reflexivity].
    apply (starts_link_agree _ (c :: s')) in Hl; [congruence|].
    apply agree_cons, collapse_spaces_agree.
Qed.

Lemma trim_end_prefix s : exists q, s = Js.trim_end s ++ q.
Proof.
  unfold Js.trim_end.
  destruct (drop_while_suffix Js.is_space (rev s)) as [pre Hpre].
  exists (rev pre). rewrite <- rev_app_distr, <- Hpre, rev_involutive. reflexivity.
Qed.

Lemma trim_no_link s : has_link s = false -> has_link (Js.trim s) = false.
Proof.
  intros Hs. unfold Js.trim.
  destruct (trim_end_prefix (Js.trim_start s)) as [q Hq].
  apply (no_link_app_l _ q). rewrite <- Hq.
  unfold Js.trim_start. destruct (drop_while_suffix Js.is_space s) as [pre Hpre].
  apply (no_link_app_r pre). rewrite <- Hpre. exact Hs.
Qed.

Lemma cleanTextBasic_no_link t :
  links_delimited t = true -> has_link (cleanTextBasic t) = false.
Proof.
  intros Hd. unfold cleanTextBasic.
  apply trim_no_link, collapse_spaces_no_link, remove_links_no_link, Hd.
Qed.

(** *** When the fallback returns the empty string *)

Lemma drop_while_nil p s : Js.drop_while p s = [] <-> forallb p s = true.
Proof.
  induction s as [|c s IH]; simpl; [tauto|].
  destruct (p c); simpl; [exact IH|]. split; discriminate.
Qed.

Lemma forallb_drop_while p s : forallb p (Js.drop_while p s) = forallb p s.
Proof.
  induction s as [|c s IH]; simpl; [reflexivity|].
  destruct (p c) eqn:Hc; simpl; [exact IH|]. rewrite Hc. reflexivity.
Qed.

Lemma forallb_rev (p : N -> bool) s : forallb p (rev s) = forallb p s.
Proof.
  induction s as [|c s IH]; simpl; [reflexivity|].
  rewrite forallb_app, IH. simpl. rewrite andb_true_r. apply andb_comm.
Qed.

Lemma trim_nil s : Js.trim s = [] <-> forallb Js.is_space s = true.
Proof.
  unfold Js.trim, Js.trim_end, Js.trim_start.
  rewrite <- (forallb_drop_while Js.is_space s), <- (forallb_rev _ (Js.drop_while _ s)).
  rewrite <- drop_while_nil. split.
  - intros H. apply (f_equal (@rev N)) in H. rewrite rev_involutive in H. exact H.
  - intros ->. reflexivity.
Qed.

Lemma collapse_spaces_all_space s :
  forallb Js.is_space (Js.replace_all match_spaces (Js.lit " ") s)
  = forallb Js.is_space s.
Proof.
  apply (replace_all_ind match_spaces (Js.lit " ") match_spaces_consuming
    (fun s out => forallb Js.is_space out = forallb Js.is_space s)).
  - reflexivity.
  - intros c s' rest Hm IH. simpl in Hm.
    destruct (Js.is_space c) eqn:Hc; [|discriminate]. injection Hm as <-.
    change (Js.lit " " ++ ?x) with (32%N :: x). cbn [forallb].
    rewrite Hc, IH, forallb_drop_while. reflexivity.
  - intros c s' _ IH. cbn [forallb]. rewrite IH. reflexivity.
Qed.

(** The fallback is empty exactly when only white space is left once the
    links are removed. *)
Lemma cleanTextBasic_nil t :
  cleanTextBasic t = [] <->
  forallb Js.is_space (Js.replace_all match_tco [] t) = true.
Proof.
  unfold cleanTextBasic. rewrite trim_nil, collapse_spaces_all_space. reflexivity.
Qed.

(** ** The deduplication store *)

Lemma add_events_nil w : add_events [] w = w.
Proof. destruct w. unfold add_events. simpl. rewrite app_nil_r. reflexivity. Qed.

Lemma add_events_app a b w : add_events b (add_events a w) = add_events (a ++ b) w.
Proof. unfold add_events. simpl. rewrite app_assoc. reflexivity. Qed.

Lemma set_ledger_same f w : set_ledger f (ledger f w) w = w.
Proof. destruct w, f; reflexivity. Qed.

Lemma ledger_set_ledger f c w : ledger f (set_ledger f c w) = c.
Proof. destruct f; reflexivity. Qed.

Lemma loadPosted_spec f w :
  loadPosted f w = (Ok (list_to_set (stored_ids (ledger f w))), w).
Proof.
  unfold loadPosted, try_catch, bind, readJson, stored_ids.
  destruct (ledger f w); reflexivity.
Qed.

(** A record operation returns normally in every case, and changes
    nothing but its ledger file. *)
Lemma savePosted_spec f cap E record w :
  savePosted f cap E record w
  = (Ok tt, set_ledger f (after_save cap (write_outcome E f) record (ledger f w)) w).
Proof.
  unfold savePosted, try_catch, bind, readJson, writeJson, after_save.
  destruct (ledger f w) eqn:Hl; simpl;
    destruct (write_outcome E f); simpl; rewrite <- ?Hl, ?set_ledger_same; reflexivity.
Qed.

Lemma write_outcome_ok E f : writeFile_ok E f = true -> write_outcome E f = Written.
Proof. unfold write_outcome. intros ->. reflexivity. Qed.

Lemma slice_neg_length {A} cap (l : list A) :
  (0 < cap)%nat -> (length (slice_neg cap l) <= cap)%nat.
Proof.
  intros Hc. destruct cap; [lia|]. unfold slice_neg. rewrite length_skipn. lia.
Qed.

Lemma after_save_length cap ok record c :
  (0 < cap)%nat -> (length (stored c) <= cap)%nat ->
  (length (stored (after_save cap ok record c)) <= cap)%nat.
Proof.
  intros Hc Hl. unfold after_save.
  destruct c as [| | |l], ok; simpl in *; try lia.
  all: match goal with |- context [(?k <? ?n)%nat] =>
         destruct (Nat.ltb_spec k n) end;
       simpl; try (apply slice_neg_length; lia); try lia.
  all: rewrite length_app in *; simpl in *; lia.
Qed.

(** A write that happens leaves at most [cap] records, whatever the file
    held before. *)
Lemma after_save_written cap record c :
  (0 < cap)%nat -> c <> NotAnArray ->
  exists l, after_save cap Written record c = Records l /\ (length l <= cap)%nat
            /\ In record l.
Proof.
  intros Hc Hn. unfold after_save.
  assert (Hin : forall l, In record
            (if (cap <? length (l ++ [record]))%nat
             then slice_neg cap (l ++ [record]) else l ++ [record])).
  { intros l. destruct (Nat.ltb_spec cap (length (l ++ [record]))) as [Hlt|Hge].
    - destruct cap; [lia|]. unfold slice_neg. rewrite length_app in *. simpl in *.
      replace (length l + 1 - S cap)%nat with (length l - cap)%nat by lia.
      rewrite skipn_app. apply in_or_app. right.
      replace (length l - cap - length l)%nat with 0%nat by lia. simpl. auto.
    - apply in_or_app. right. simpl. auto. }
  assert (Hlen : forall l, (length
            (if (cap <? length (l ++ [record]))%nat
             then slice_neg cap (l ++ [record]) else l ++ [record]) <= cap)%nat).
  { intros l. destruct (Nat.ltb_spec cap (length (l ++ [record]))) as [Hlt|Hge].
    - apply slice_neg_length, Hc.
    - exact Hge. }
  destruct c as [| | |l]; try congruence; eexists; split; try reflexivity; auto.
Qed.

Lemma record_all_length f cap ops : forall w,
  (0 < cap)%nat -> (length (stored (ledger f w)) <= cap)%nat ->
  (length (stored (ledger f (record_all f cap ops w))) <= cap)%nat.
Proof.
  induction ops as [|[E record] ops IH]; intros w Hc Hw; simpl; [exact Hw|].
  apply IH; [exact Hc|]. rewrite savePosted_spec. simpl.
  rewrite ledger_set_ledger. apply after_save_length; assumption.
Qed.

(** Below capacity the record is appended; at capacity the oldest record
    leaves and the others keep their order. *)
Lemma after_save_fifo cap record l :
  (0 < cap)%nat ->
  after_save cap Written record (Records l)
  = Records (if (length l <? cap)%nat then l ++ [record]
             else skipn (length l + 1 - cap) (l ++ [record])).
Proof.
  intros Hc. unfold after_save. rewrite length_app. simpl. f_equal.
  destruct (Nat.ltb_spec cap (length l + 1)), (Nat.ltb_spec (length l) cap); try lia.
  - destruct cap; [lia|]. unfold slice_neg. rewrite length_app. reflexivity.
  - reflexivity.
Qed.

(** C2.  After any sequence of record operations on a ledger that held at
    most K records, it holds at most K records (K = 1000 for
    posted-tweets.json, K = 100 for posted-videos.json), whatever the
    outcome of each write; a write into a full ledger drops exactly the
    earliest-inserted record and keeps the others in order; with K = 3,
    recording four distinct ids leaves the first absent and the three
    newest present. *)
Theorem dedup_store_capacity_fifo :
  (forall ops w,
     (length (stored (posted_tweets w)) <= 1000)%nat ->
     (length (stored (posted_tweets (record_all POSTED_TWEETS_FILE 1000 ops w))) <= 1000)%nat)
  /\ (forall ops w,
     (length (stored (posted_videos w)) <= 100)%nat ->
     (length (stored (posted_videos (record_all POSTED_VIDEOS_FILE 100 ops w))) <= 100)%nat)
  /\ (forall E record w c,
     writeFile_ok E POSTED_TWEETS_FILE = true -> posted_tweets w = c -> c <> NotAnArray ->
     exists l, posted_tweets (savePostedTweet E record w).2 = Records l
               /\ (length l <= 1000)%nat)
  /\ (forall E record w c,
     writeFile_ok E POSTED_VIDEOS_FILE = true -> posted_videos w = c -> c <> NotAnArray ->
     exists l, posted_videos (savePostedVideo E record w).2 = Records l
               /\ (length l <= 100)%nat)
  /\ (forall f cap E record w oldest l,
     (0 < cap)%nat -> writeFile_ok E f = true ->
     ledger f w = Records (oldest :: l) -> length (oldest :: l) = cap ->
     ledger f (savePosted f cap E record w).2 = Records (l ++ [record]))
  /\ (forall f,
     stored_ids (ledger f (record_all f 3
        [(env_ok, rec_of "a"); (env_ok, rec_of "b"); (env_ok, rec_of "c");
         (env_ok, rec_of "d")] world0))
     = [Js.lit "b"; Js.lit "c"; Js.lit "d"]).
Proof.
  split; [|split; [|split; [|split; [|split]]]].
  - intros ops w Hw. apply (record_all_length POSTED_TWEETS_FILE 1000 ops w); [lia | exact Hw].
  - intros ops w Hw. apply (record_all_length POSTED_VIDEOS_FILE 100 ops w); [lia | exact Hw].
  - intros E record w c Hok Hc Hn. unfold savePostedTweet. rewrite savePosted_spec.
    simpl. rewrite (write_outcome_ok _ _ Hok), Hc.
    destruct (after_save_written 1000 record c) as (l & -> & Hl & _); [lia | exact Hn |].
    eauto.
  - intros E record w c Hok Hc Hn. unfold savePostedVideo. rewrite savePosted_spec.
    simpl. rewrite (write_outcome_ok _ _ Hok), Hc.
    destruct (after_save_written 100 record c) as (l & -> & Hl & _); [lia | exact Hn |].
    eauto.
  - intros f cap E record w oldest l Hcap Hok Hw Hlen.
    rewrite savePosted_spec. simpl.
    rewrite ledger_set_ledger, (write_outcome_ok _ _ Hok), Hw.
    rewrite after_save_fifo by exact Hcap. f_equal.
    destruct (Nat.ltb_spec (length (oldest :: l)) cap); [lia|].
    rewrite Hlen. replace (cap + 1 - cap)%nat with 1%nat by lia. reflexivity.
  - intros f. destruct f; vm_compute; reflexivity.
Qed.

(** ** What each step does to the world *)

Lemma ai_call_spec E input w :
  ai_call E input w = (Ok (openai E (trace w) input), add_events [EvAi input] w).
Proof. reflexivity. Qed.

Lemma cleanAndOptimizeContent_spec E content isThread w :
  cleanAndOptimizeContent E content isThread w
  = (Ok match openai E (trace w) (clean_input content isThread) with
        | AiText output_text => Js.or_else output_text content
        | AiThrows => cleanTextBasic content
        end,
     add_events [EvAi (clean_input content isThread)] w).
Proof.
  unfold cleanAndOptimizeContent. unfold bind at 1. rewrite ai_call_spec.
  destruct (openai E (trace w) _); reflexivity.
Qed.

Lemma summarizeThread_spec E tweets w :
  exists out,
    summarizeThread E tweets w = (Ok out, add_events [EvAi (summary_input tweets)] w).
Proof.
  unfold summarizeThread. unfold bind at 1. rewrite ai_call_spec.
  destruct (openai E (trace w) _); eexists; reflexivity.
Qed.

(** Content processing always returns; it only calls the language
    service. *)
Lemma processTwitterContent_spec E tweet timelineData w :
  exists p evs,
    processTwitterContent E tweet timelineData w = (Ok p, add_events evs w)
    /\ forallb is_ai evs = true.
Proof.
  unfold processTwitterContent, try_catch.
  destruct (negb (isPartOfThread tweet)).
  - unfold bind at 1. rewrite cleanAndOptimizeContent_spec.
    eexists _, [_]. split; reflexivity.
  - destruct (length (getThreadFromTimeline (conversation_id tweet) timelineData) <=? 1)%nat.
    + unfold bind at 1. rewrite cleanAndOptimizeContent_spec.
      eexists _, [_]. split; reflexivity.
    + unfold bind at 1.
      destruct (summarizeThread_spec E
        (sortThreadChronologically
           (getThreadFromTimeline (conversation_id tweet) timelineData)) w)
        as (out & ->).
      unfold bind at 1. rewrite cleanAndOptimizeContent_spec.
      eexists _, [_; _]. rewrite add_events_app. split; reflexivity.
Qed.

Lemma appendLog_spec E entry w :
  appendLog E entry w
  = if appendFile_ok E entry then (Ok tt, add_log [entry] w)
    else (Throw (FsError "open"), w).
Proof. reflexivity. Qed.

(** The hand-off of the image path: at most one call to the minting
    subsystem, recorded with its outcome. *)
Lemma mint_spec E source req w :
  mint E source req w
  = match zora E req with
    | Ok hash => (Ok hash, add_events [EvMint source req (Some hash)] w)
    | Throw e => (Throw e, add_events [EvMint source req None] w)
    end.
Proof. unfold mint. destruct (zora E req); reflexivity. Qed.

(** ** The content normalizer *)

(** C3, as stated, fails twice: on an empty result the input comes back
    as it is, links and outer blanks included, and not its cleaned form
    ["gm"]; and when the call throws on a text that is only a link, the
    returned string is empty. *)
Lemma normalize_empty_result_returns_raw_input :
  let t := Js.lit " gm https://t.co/abc " in
  (cleanAndOptimizeContent (env_ai (AiText [])) t false world0).1 = Ok t
  /\ cleanTextBasic t = Js.lit "gm"
  /\ (cleanAndOptimizeContent (env_ai AiThrows) (Js.lit "https://t.co/abc") false world0).1
     = Ok [].
Proof. vm_compute. repeat split; reflexivity. Qed.

(** C3 (amended).  [cleanAndOptimizeContent] never throws.  When the
    language service throws (an error or a timeout of the client), it
    returns the regex fallback of the input, which is empty exactly when
    only white space is left once the links are removed; when the service
    returns an empty result, it returns the input unchanged. *)
Theorem normalize_never_raises E content isThread w :
  exists out,
    (cleanAndOptimizeContent E content isThread w).1 = Ok out
    /\ (openai E (trace w) (clean_input content isThread) = AiThrows ->
        out = cleanTextBasic content
        /\ (out = [] <->
            forallb Js.is_space (Js.replace_all match_tco [] content) = true))
    /\ (openai E (trace w) (clean_input content isThread) = AiText [] ->
        out = content).
Proof.
  rewrite cleanAndOptimizeContent_spec. eexists. split; [reflexivity|]. split.
  - intros ->. split; [reflexivity | apply cleanTextBasic_nil].
  - intros ->. reflexivity.
Qed.

(** C4, as stated, fails: the fallback of 251 letters has 251 code units,
    above a budget of 250; and removing the link inside
    ["httpshttps://t.co/x://t.co/a"] splices the two sides into a link. *)
Lemma fallback_over_budget_and_spliced_link :
  (exists out,
     (cleanAndOptimizeContent (env_ai AiThrows) (repeat 120%N 251) false world0).1 = Ok out
     /\ length out = 251%nat)
  /\ (cleanAndOptimizeContent (env_ai AiThrows)
        (Js.lit "httpshttps://t.co/x://t.co/a") false world0).1
     = Ok (Js.lit "https://t.co/a")
  /\ has_link (Js.lit "https://t.co/a") = true.
Proof.
  split; [|split].
  - eexists. split; [vm_compute; reflexivity | reflexivity].
  - vm_compute. reflexivity.
  - vm_compute. reflexivity.
Qed.

(** C4 (amended).  On the fallback path the output is never longer than
    the input (no fixed budget is enforced), and it contains no tracking
    link whenever every tracking link of the input runs up to a white
    space or to the end of the text. *)
Theorem fallback_non_lengthening_link_free E content isThread w out :
  openai E (trace w) (clean_input content isThread) = AiThrows ->
  (cleanAndOptimizeContent E content isThread w).1 = Ok out ->
  (length out <= length content)%nat
  /\ (links_delimited content = true -> has_link out = false).
Proof.
  intros Hai. rewrite cleanAndOptimizeContent_spec, Hai. simpl. intros [= <-].
  split; [apply cleanTextBasic_length | apply cleanTextBasic_no_link].
Qed.

Lemma fallback_non_lengthening_link_free_witness :
  (length (Js.lit "gm now") <= length (Js.lit " gm https://t.co/abc  now "))%nat
  /\ (links_delimited (Js.lit " gm https://t.co/abc  now ") = true ->
      has_link (Js.lit "gm now") = false).
Proof.
  apply (fallback_non_lengthening_link_free (env_ai AiThrows)
           (Js.lit " gm https://t.co/abc  now ") false world0 (Js.lit "gm now")).
  - reflexivity.
  - vm_compute. reflexivity.
Defined.

(** ** The image path *)

Lemma first_image_post_spec S mediaData tweets tweet imageUrl :
  AutoPostDaily.first_image_post S mediaData tweets = Some (tweet, imageUrl) ->
  In tweet tweets /\ (id tweet ∉ S).
Proof.
  induction tweets as [|t tweets IH]; simpl; [discriminate|].
  destruct (AutoPostDaily.image_of S mediaData t) as [u|] eqn:Hi.
  - intros [= <- <-]. split; [auto|].
    unfold AutoPostDaily.image_of in Hi.
    destruct (bool_decide (id t ∈ S)) eqn:Hd; [discriminate|].
    apply bool_decide_eq_false in Hd. exact Hd.
  - intros H. apply IH in H as [? ?]. auto.
Qed.

Lemma getLatestImagePost_spec E S w :
  exists r, AutoPostDaily.getLatestImagePost E S w = (r, w)
            /\ forall found, r = Ok found -> id (AutoPostDaily.post found) ∉ S.
Proof.
  unfold AutoPostDaily.getLatestImagePost.
  destruct (userTimeline E) as [[tweetData mediaData]|e].
  - destruct tweetData as [|t tweetData].
    + eexists. split; [reflexivity | discriminate].
    + destruct (AutoPostDaily.first_image_post S mediaData (t :: tweetData))
        as [[tweet imageUrl]|] eqn:Hf.
      * eexists. split; [reflexivity|]. intros found [= <-]. simpl.
        apply first_image_post_spec in Hf as [_ ?]. assumption.
      * eexists. split; [reflexivity | discriminate].
  - eexists. split; [reflexivity | discriminate].
Qed.

Lemma createZoraCoin_spec E post imageUrl processedContent linkToPost w :
  (exists e, AutoPostDaily.createZoraCoin E post imageUrl processedContent linkToPost w
             = (Throw e, w))
  \/ (exists e req, AutoPostDaily.createZoraCoin E post imageUrl processedContent linkToPost w
                    = (Throw e, add_events [EvMint (id post) req None] w))
  \/ (exists tx req, AutoPostDaily.createZoraCoin E post imageUrl processedContent linkToPost w
                     = (Ok tx, add_events [EvMint (id post) req (Some tx)] w)).
Proof.
  unfold AutoPostDaily.createZoraCoin, client_setup, bind.
  destruct (wallet_ok E); simpl.
  - rewrite mint_spec. destruct (zora E _); [right; right | right; left]; eauto.
  - left. eauto.
Qed.

(** The three shapes of a run of the image path: it stops before the
    minting subsystem is called, the mint fails, or the mint succeeds and
    the record operation and the log entry follow. *)
Lemma image_main_try_shape E w r w' :
  AutoPostDaily.main_try E w = (r, w') ->
  let S : gset Js.str := list_to_set (stored_ids (posted_tweets w)) in
  exists evs, forallb is_ai evs = true /\
    ((exists e, r = Throw e /\ w' = add_events evs w)
     \/ (exists e post req, (id post ∉ S) /\ r = Throw e /\
           w' = add_events (evs ++ [EvMint (id post) req None]) w)
     \/ (exists post req tx record, (id post ∉ S) /\ itemId record = id post /\
           (r, w') = appendLog E (SUCCESS_ENTRY (id post))
               (set_ledger POSTED_TWEETS_FILE
                  (after_save 1000 (write_outcome E POSTED_TWEETS_FILE) record
                     (posted_tweets w))
                  (add_events (evs ++ [EvMint (id post) req (Some tx)]) w)))).
Proof.
  intros Hrun S. unfold AutoPostDaily.main_try in Hrun.
  unfold bind at 1 in Hrun. unfold loadPostedTweets in Hrun.
  rewrite loadPosted_spec in Hrun. simpl ledger in Hrun. fold S in Hrun.
  unfold bind at 1 in Hrun.
  destruct (getLatestImagePost_spec E S w) as (r0 & Hget & Hr). rewrite Hget in Hrun.
  destruct r0 as [found|e].
  2:{ injection Hrun as <- <-. exists []. split; [reflexivity|]. left.
      rewrite add_events_nil. eauto. }
  specialize (Hr found eq_refl).
  unfold bind at 1 in Hrun.
  destruct (processTwitterContent_spec E (AutoPostDaily.post found)
              (AutoPostDaily.timelineData found) w) as (p & evs & Hp & Hevs).
  rewrite Hp in Hrun.
  exists evs. split; [exact Hevs|].
  unfold bind at 1 in Hrun.
  destruct (createZoraCoin_spec E (AutoPostDaily.post found) (AutoPostDaily.imageUrl found)
              (content p)
              (Js.lit "https://x.com/tokenmetricsinc/status/" ++ firstTweetId p)
              (add_events evs w))
    as [[e Hc] | [(e & req & Hc) | (tx & req & Hc)]]; rewrite Hc in Hrun.
  - injection Hrun as <- <-. left. eauto.
  - injection Hrun as <- <-. right. left. rewrite add_events_app. eauto 10.
  - right. right. rewrite add_events_app in Hrun. unfold bind at 1 in Hrun.
    unfold savePostedTweet in Hrun. rewrite savePosted_spec in Hrun.
    eexists _, req, tx, _. split; [exact Hr|]. split; [|rewrite <- Hrun; reflexivity].
    reflexivity.
Qed.

(** ** The video path *)

Lemma set_downloads_same w : set_downloads (downloads w) w = w.
Proof. destruct w; reflexivity. Qed.

Lemma tryDownloadWithFormat_spec E videoId formatString w :
  exists r files,
    YoutubeShorts.tryDownloadWithFormat E videoId formatString w
    = (r, set_downloads files (add_events [EvDownload videoId formatString] w))
    /\ forall d, r = Ok d ->
         In (YoutubeShorts.videoPath d) files /\ In (YoutubeShorts.thumbnailPath d) files.
Proof.
  unfold YoutubeShorts.tryDownloadWithFormat, bind, get, emit. simpl.
  destruct (yt_dlp E (trace w) videoId formatString (downloads w)) as [|code files].
  - exists (Throw YtDlpSpawnError), (downloads w). split; [reflexivity | discriminate].
  - simpl. destruct (code =? 0)%Z.
    2:{ eexists _, files. split; [reflexivity | discriminate]. }
    destruct (bool_decide (videoId ++ Js.lit ".mp4" ∈ files)) eqn:Hv;
    destruct (bool_decide (videoId ++ Js.lit ".jpg" ∈ files)) eqn:Ht; simpl.
    1:{ eexists _, files. split; [reflexivity|]. intros d [= <-]. simpl.
        apply bool_decide_eq_true in Hv, Ht.
        split; apply list_elem_of_In; assumption. }
    all: destruct (readdir_ok E);
      [|eexists _, files; split; [reflexivity | discriminate]].
    all: destruct (find (YoutubeShorts.is_video_file videoId) files) as [[|c v]|] eqn:Hfv;
      try (eexists _, files; split; [reflexivity | discriminate]).
    all: destruct (find (YoutubeShorts.is_thumb_file videoId) files) as [[|c' t]|] eqn:Hft;
      try (eexists _, files; split; [reflexivity | discriminate]).
    all: eexists _, files; split; [reflexivity|]; intros d [= <-]; simpl;
      apply find_some in Hfv as [? _]; apply find_some in Hft as [? _]; auto.
Qed.


Lemma tryDownloadWithFormat_trace E videoId formatString w r w' :
  YoutubeShorts.tryDownloadWithFormat E videoId formatString w = (r, w') ->
  trace w' = trace w ++ [EvDownload videoId formatString].
Proof.
  destruct (tryDownloadWithFormat_spec E videoId formatString w) as (r0 & files & -> & _).
  intros [= <- <-]. reflexivity.
Qed.

(** The loop: the strategies before the first success all failed, in the
    order of the list, one downloader call each; nothing is tried behind
    the first success; the loop throws only when all have failed. *)
Lemma try_strategies_spec E videoId strategies : forall w r w',
  YoutubeShorts.try_strategies E videoId strategies w = (r, w') ->
  match r with
  | Ok d =>
      exists failed formatString later w1,
        strategies = failed ++ formatString :: later
        /\ all_failed E videoId failed w w1
        /\ YoutubeShorts.tryDownloadWithFormat E videoId formatString w1 = (Ok d, w')
        /\ trace w' = trace w ++ map (EvDownload videoId) (failed ++ [formatString])
  | Throw e =>
      all_failed E videoId strategies w w'
      /\ trace w' = trace w ++ map (EvDownload videoId) strategies
      /\ match strategies with
         | [] => e = AllFormatStrategiesFailed
         | _ :: _ =>
             exists w1, YoutubeShorts.tryDownloadWithFormat E videoId
                          (List.last strategies []) w1 = (Throw e, w')
         end
  end.
Proof.
  induction strategies as [|formatString rest IH]; intros w r w' Hrun.
  - injection Hrun as <- <-. split; [constructor|]. rewrite app_nil_r. auto.
  - cbn [YoutubeShorts.try_strategies] in Hrun. unfold try_catch in Hrun.
    destruct (YoutubeShorts.tryDownloadWithFormat E videoId formatString w)
      as [[d|e] w1] eqn:Htry.
    + injection Hrun as <- <-.
      exists [], formatString, rest, w. split; [reflexivity|]. split; [constructor|].
      split; [exact Htry|]. apply (tryDownloadWithFormat_trace _ _ _ _ _ _ Htry).
    + pose proof (tryDownloadWithFormat_trace _ _ _ _ _ _ Htry) as Ht1.
      destruct rest as [|next rest'].
      * injection Hrun as <- <-. split; [|split].
        -- econstructor; [exact Htry | constructor].
        -- exact Ht1.
        -- exists w. exact Htry.
      * specialize (IH w1 r w' Hrun). destruct r as [d|e'].
        -- destruct IH as (failed & fmt & later & w2 & Hs & Hf & Hok & Htr).
           exists (formatString :: failed), fmt, later, w2.
           split; [simpl; congruence|]. split; [econstructor; eassumption|].
           split; [exact Hok|]. rewrite Htr, Ht1, <- app_assoc. reflexivity.
        -- destruct IH as (Hf & Htr & Hlast). split; [|split].
           ++ econstructor; eassumption.
           ++ rewrite Htr, Ht1, <- app_assoc. reflexivity.
           ++ exact Hlast.
Qed.




(** Strategies A and B fail, C succeeds: the result is C's, and the
    downloader ran three times, never for the fourth strategy. *)
Example acquire_third_strategy :
  let E := env_video dl_third (Ok (Js.lit "0xabc")) true in
  let run := YoutubeShorts.downloadShortVideo E (Js.lit "abc") world0 in
  run.1 = Ok {| YoutubeShorts.videoPath := Js.lit "abc.mp4";
                YoutubeShorts.thumbnailPath := Js.lit "abc.jpg" |}
  /\ trace run.2 = map (EvDownload (Js.lit "abc")) (take 3 YoutubeShorts.formatStrategies).
Proof. vm_compute. split; reflexivity. Qed.

Lemma world_merge f f' a b w :
  set_downloads f' (add_events b (set_downloads f (add_events a w)))
  = set_downloads f' (add_events (a ++ b) w).
Proof. unfold set_downloads, add_events. simpl. rewrite app_assoc. reflexivity. Qed.

Lemma world_plain w : w = set_downloads (downloads w) (add_events [] w).
Proof. destruct w. unfold set_downloads, add_events. simpl. rewrite app_nil_r. reflexivity. Qed.

Lemma before_mint_of_download v formatString :
  before_mint_of v (EvDownload v formatString) = true.
Proof. simpl. unfold str_eqb. apply bool_decide_eq_true_2. reflexivity. Qed.

(** Acquisition only spawns the downloader for its item and only changes
    [downloads/]; what it returns is in [downloads/]. *)
Lemma try_strategies_frame E videoId strategies : forall w r w',
  YoutubeShorts.try_strategies E videoId strategies w = (r, w') ->
  exists files evs,
    w' = set_downloads files (add_events evs w)
    /\ forallb (before_mint_of videoId) evs = true
    /\ forall d, r = Ok d ->
         In (YoutubeShorts.videoPath d) files /\ In (YoutubeShorts.thumbnailPath d) files.
Proof.
  induction strategies as [|formatString rest IH]; intros w r w' Hrun.
  - injection Hrun as <- <-. exists (downloads w), [].
    split; [apply world_plain|]. split; [reflexivity | discriminate].
  - cbn [YoutubeShorts.try_strategies] in Hrun. unfold try_catch in Hrun.
    destruct (tryDownloadWithFormat_spec E videoId formatString w) as (r0 & files & Htry & Hin).
    rewrite Htry in Hrun.
    assert (Hev : forallb (before_mint_of videoId) [EvDownload videoId formatString] = true).
    { cbn [forallb]. rewrite before_mint_of_download. reflexivity. }
    destruct r0 as [d|e].
    + injection Hrun as <- <-. exists files, [EvDownload videoId formatString]. auto.
    + destruct rest as [|next rest'].
      * injection Hrun as <- <-. exists files, [EvDownload videoId formatString].
        split; [reflexivity|]. split; [exact Hev | discriminate].
      * apply IH in Hrun as (files' & evs & -> & Hevs & Hd).
        exists files', ([EvDownload videoId formatString] ++ evs).
        split; [apply world_merge|]. split; [|exact Hd].
        rewrite forallb_app, Hev, Hevs. reflexivity.
Qed.

Lemma downloadShortVideo_frame E videoId w r w' :
  YoutubeShorts.downloadShortVideo E videoId w = (r, w') ->
  exists files evs,
    w' = set_downloads files (add_events evs w)
    /\ forallb (before_mint_of videoId) evs = true
    /\ forall d, r = Ok d ->
         In (YoutubeShorts.videoPath d) files /\ In (YoutubeShorts.thumbnailPath d) files.
Proof.
  unfold YoutubeShorts.downloadShortVideo, bind.
  destruct (mkdir_ok E); cbv beta iota delta [ret throw].
  - apply try_strategies_frame.
  - intros [= <- <-]. exists (downloads w), [].
    split; [apply world_plain|]. split; [reflexivity | discriminate].
Qed.

(** The [finally] block never throws. *)
Lemma cleanup_spec E videoPath thumbnailPath w :
  YoutubeShorts.cleanup E videoPath thumbnailPath w
  = (Ok tt, set_downloads (after_cleanup E videoPath thumbnailPath (downloads w)) w).
Proof.
  unfold YoutubeShorts.cleanup, try_catch, bind, YoutubeShorts.unlink, after_cleanup, ret.
  destruct (bool_decide (videoPath ∈ downloads w) && unlink_ok E videoPath).
  - cbn [downloads set_downloads].
    destruct (bool_decide (thumbnailPath ∈ _) && unlink_ok E thumbnailPath); reflexivity.
  - rewrite set_downloads_same. reflexivity.
Qed.

Lemma optimizeContentWithAI_spec E title description w :
  exists caption,
    YoutubeShorts.optimizeContentWithAI E title description w
    = (Ok caption, add_events [EvAi (YoutubeShorts.caption_input title description)] w).
Proof.
  unfold YoutubeShorts.optimizeContentWithAI. unfold bind at 1. rewrite ai_call_spec.
  destruct (openai E (trace w) _); eexists; reflexivity.
Qed.

(** The [try] block calls the minting subsystem at most once, after the
    language service. *)
Lemma video_mint_spec E video videoPath thumbnailPath w :
  exists r evs i,
    YoutubeShorts.video_mint E video videoPath thumbnailPath w = (r, add_events evs w)
    /\ ((exists e, r = Throw e /\ evs = [EvAi i])
        \/ (exists e req, r = Throw e /\ evs = [EvAi i; EvMint (vid video) req None])
        \/ (exists tx req, r = Ok tx
                           /\ evs = [EvAi i; EvMint (vid video) req (Some tx)])).
Proof.
  unfold YoutubeShorts.video_mint. unfold bind at 1.
  destruct (optimizeContentWithAI_spec E (title video) (description video) w) as [c ->].
  set (i := YoutubeShorts.caption_input (title video) (description video)).
  unfold bind, YoutubeShorts.readFile.
  change (downloads (add_events [EvAi i] w)) with (downloads w).
  destruct (bool_decide (videoPath ∈ downloads w));
    [|eexists _, _, i; split; [reflexivity|]; left; eauto].
  change (downloads (add_events [EvAi i] w)) with (downloads w).
  destruct (bool_decide (thumbnailPath ∈ downloads w));
    [|eexists _, _, i; split; [reflexivity|]; left; eauto].
  rewrite mint_spec. destruct (zora E _) as [tx|e]; rewrite add_events_app.
  - eexists _, _, i. split; [reflexivity|]. right. right. eauto.
  - eexists _, _, i. split; [reflexivity|]. right. left. eauto.
Qed.

(** The hand-off of the video path.  When the client setup throws, the
    [try] is never entered; otherwise the clean-up runs on every exit. *)
Lemma createZoraCoinWithVideo_spec E video videoPath thumbnailPath w :
  (wallet_ok E = false /\
   YoutubeShorts.createZoraCoinWithVideo E video videoPath thumbnailPath w
   = (Throw (ServiceError "wallet"), w))
  \/ (wallet_ok E = true /\ exists r evs i,
        YoutubeShorts.createZoraCoinWithVideo E video videoPath thumbnailPath w
        = (r, set_downloads (after_cleanup E videoPath thumbnailPath (downloads w))
                (add_events evs w))
        /\ ((exists e, r = Throw e /\ evs = [EvAi i])
            \/ (exists e req, r = Throw e /\ evs = [EvAi i; EvMint (vid video) req None])
            \/ (exists tx req, r = Ok tx
                               /\ evs = [EvAi i; EvMint (vid video) req (Some tx)]))).
Proof.
  unfold YoutubeShorts.createZoraCoinWithVideo, client_setup, bind.
  destruct (wallet_ok E); [right | left; auto].
  split; [reflexivity|]. cbv beta iota delta [ret]. unfold try_finally, try_catch.
  destruct (video_mint_spec E video videoPath thumbnailPath w) as (r & evs & i & -> & Hshape).
  exists r, evs, i. split; [|exact Hshape].
  destruct r; unfold throw; rewrite cleanup_spec; reflexivity.
Qed.

(** What follows the fetch of the candidate. *)
Lemma video_after_fetch_shape E (latest : bool) video w r w' :
  (d <- YoutubeShorts.downloadShortVideo E (vid video) ;;
   txHash <- YoutubeShorts.createZoraCoinWithVideo E video
               (YoutubeShorts.videoPath d) (YoutubeShorts.thumbnailPath d) ;;
   (if latest
    then savePostedVideo E {| itemId := vid video; coinName := title video;
                              zoraTransaction := txHash; postedAt := now E |}
    else (ret tt : M unit)) ;;;
   appendLog E (SUCCESS_ENTRY (vid video))) w = (r, w') ->
  exists files evs, forallb (before_mint_of (vid video)) evs = true /\
    ((exists e, r = Throw e /\ w' = set_downloads files (add_events evs w))
     \/ (exists e req, r = Throw e /\
           w' = set_downloads files (add_events (evs ++ [EvMint (vid video) req None]) w))
     \/ (exists req tx record, itemId record = vid video /\
           (r, w') = appendLog E (SUCCESS_ENTRY (vid video))
                       (video_world E latest record files
                          (evs ++ [EvMint (vid video) req (Some tx)]) w))).
Proof.
  intros Hrun. unfold bind at 1 in Hrun.
  destruct (YoutubeShorts.downloadShortVideo E (vid video) w) as [r0 w0] eqn:Hdl.
  apply downloadShortVideo_frame in Hdl as (files & evs & -> & Hevs & _).
  destruct r0 as [d|e].
  2:{ injection Hrun as <- <-. exists files, evs. split; [exact Hevs|]. left. eauto. }
  unfold bind at 1 in Hrun.
  destruct (createZoraCoinWithVideo_spec E video (YoutubeShorts.videoPath d)
              (YoutubeShorts.thumbnailPath d) (set_downloads files (add_events evs w)))
    as [[_ Hc] | (_ & r1 & evs1 & i & Hc & Hshape)]; rewrite Hc in Hrun; clear Hc.
  { injection Hrun as <- <-. exists files, evs. split; [exact Hevs|]. left. eauto. }
  cbn [downloads set_downloads] in Hrun.
  set (files' := after_cleanup E _ _ files) in Hrun.
  assert (Hw : forall l, set_downloads files'
                 (add_events l (set_downloads files (add_events evs w)))
               = set_downloads files' (add_events (evs ++ l) w)).
  { intros l. apply world_merge. }
  rewrite Hw in Hrun.
  assert (Hai : forallb (before_mint_of (vid video)) (evs ++ [EvAi i]) = true).
  { rewrite forallb_app, Hevs. reflexivity. }
  destruct Hshape as [(e & -> & ->) | [(e & req & -> & ->) | (tx & req & -> & ->)]].
  - injection Hrun as <- <-. exists files', (evs ++ [EvAi i]). split; [exact Hai|].
    left. eauto.
  - injection Hrun as <- <-. exists files', (evs ++ [EvAi i]). split; [exact Hai|].
    right. left. exists e, req. split; [reflexivity|].
    rewrite <- app_assoc. reflexivity.
  - exists files', (evs ++ [EvAi i]). split; [exact Hai|]. right. right.
    exists req, tx, {| itemId := vid video; coinName := title video;
                       zoraTransaction := tx; postedAt := now E |}.
    split; [reflexivity|]. rewrite <- Hrun. unfold video_world.
    rewrite <- app_assoc. cbn [app].
    destruct latest; unfold bind.
    + unfold savePostedVideo. rewrite savePosted_spec. reflexivity.
    + reflexivity.
Qed.

(** The shapes of a run of the video path. *)
Lemma video_main_try_shape E arg w r w' :
  YoutubeShorts.main_try E arg w = (r, w') ->
  (exists e, r = Throw e /\ w' = w)
  \/ exists video files evs,
       (vid video ∉ video_loaded arg w)
       /\ forallb (before_mint_of (vid video)) evs = true
       /\ ((exists e, r = Throw e /\ w' = set_downloads files (add_events evs w))
           \/ (exists e req, r = Throw e /\
                 w' = set_downloads files
                        (add_events (evs ++ [EvMint (vid video) req None]) w))
           \/ (exists req tx record, itemId record = vid video /\
                 (r, w') = appendLog E (SUCCESS_ENTRY (vid video))
                             (video_world E (is_latest arg) record files
                                (evs ++ [EvMint (vid video) req (Some tx)]) w))).
Proof.
  unfold YoutubeShorts.main_try, video_loaded, is_latest.
  destruct (YoutubeShorts.specific arg) as [specificVideoId|].
  - unfold bind at 1. cbv beta iota delta [ret]. unfold bind at 1.
    unfold YoutubeShorts.getSpecificVideo.
    destruct (youtube_video E specificVideoId) as [video|e];
      cbv beta iota delta [ret throw]; [|intros [= <- <-]; left; eauto].
    intros Hrun. right.
    apply (video_after_fetch_shape E false video) in Hrun as (files & evs & Hevs & Hs).
    exists video, files, evs. split; [apply not_elem_of_empty|]. auto.
  - unfold bind at 1. unfold loadPostedVideos. rewrite loadPosted_spec.
    unfold bind at 1. unfold YoutubeShorts.getLatestShorts.
    destruct (youtube_latest E) as [video|e];
      cbv beta iota delta [throw]; [|intros [= <- <-]; left; eauto].
    cbn [ledger].
    destruct (bool_decide (vid video ∈ _)) eqn:Hin;
      cbv beta iota delta [ret throw]; [intros [= <- <-]; left; eauto|].
    apply bool_decide_eq_false in Hin.
    intros Hrun. right.
    apply (video_after_fetch_shape E true video) in Hrun as (files & evs & Hevs & Hs).
    exists video, files, evs. auto.
Qed.

(** ** Whole runs *)

(** A projection of the world behind the [catch] of [main] is the same
    whether or not the failure entry could be logged. *)
Ltac log_cases :=
  repeat match goal with
         | |- context [appendFile_ok ?E FAILED_ENTRY] =>
             destruct (appendFile_ok E FAILED_ENTRY)
         | |- context [is_latest ?arg] => destruct (is_latest arg)
         end;
  simpl; rewrite ?app_nil_r; reflexivity.

Lemma quiet_nil S : quiet S [].
Proof. intros ev []. Qed.

Lemma quiet_ai S evs : forallb is_ai evs = true -> quiet S evs.
Proof.
  intros H ev Hin. rewrite forallb_forall in H. apply H in Hin.
  destruct ev; try discriminate. split; [reflexivity | discriminate].
Qed.

Lemma quiet_before_mint S v evs :
  v ∉ S -> forallb (before_mint_of v) evs = true -> quiet S evs.
Proof.
  intros Hv H ev Hin. rewrite forallb_forall in H. apply H in Hin.
  destruct ev as [i|v' fmt|s r t]; simpl in Hin; try discriminate.
  - split; [reflexivity | discriminate].
  - split; [reflexivity|]. intros src [= <-].
    apply bool_decide_eq_true in Hin. subst. exact Hv.
Qed.

(** How the [catch] of [main] ends the process. *)
Lemma main_catch_failure E w :
  exists o, (match appendLog E FAILED_ENTRY w with
             | (Ok _, w'') => (Exited 1, w'')
             | (Throw e, w'') => (Rejected e, w'')
             end)
            = (o, if appendFile_ok E FAILED_ENTRY then add_log [FAILED_ENTRY] w else w)
            /\ failure E o.
Proof.
  rewrite appendLog_spec. destruct (appendFile_ok E FAILED_ENTRY) eqn:Hok.
  - eexists. split; [reflexivity|]. split; [discriminate | reflexivity].
  - eexists. split; [reflexivity|]. split; [discriminate | congruence].
Qed.

Lemma image_main_shape E w o w' :
  AutoPostDaily.main E w = (o, w') ->
  exists evs,
    trace w' = trace w ++ evs
    /\ posted_videos w' = posted_videos w
    /\ downloads w' = downloads w
    /\ RunShape E (list_to_set (stored_ids (posted_tweets w))) POSTED_TWEETS_FILE 1000 true
         (posted_tweets w) (posted_tweets w') evs o.
Proof.
  unfold AutoPostDaily.main.
  destruct (AutoPostDaily.main_try E w) as [r w1] eqn:Htry.
  apply image_main_try_shape in Htry as (evs & Hevs & Hcases). cbv zeta in Hcases.
  apply (quiet_ai (list_to_set (stored_ids (posted_tweets w)))) in Hevs.
  destruct Hcases as [(e & -> & ->) | [(e & post & req & Hnew & -> & ->)
                                      | (post & req & tx & record & Hnew & Hid & Hlog)]].
  - change (Build_LogEntry FAILED None) with FAILED_ENTRY.
    destruct (main_catch_failure E (add_events evs w)) as (o' & -> & Hf).
    intros [= <- <-]. exists evs.
    split; [log_cases|].
    split; [log_cases|].
    split; [log_cases|].
    apply StoppedBeforeMint; [exact Hevs | | exact Hf].
    log_cases.
  - change (Build_LogEntry FAILED None) with FAILED_ENTRY.
    destruct (main_catch_failure E
                (add_events (evs ++ [EvMint (id post) req None]) w)) as (o' & -> & Hf).
    intros [= <- <-]. exists (evs ++ [EvMint (id post) req None]).
    split; [log_cases|].
    split; [log_cases|].
    split; [log_cases|].
    eapply MintFailed; [reflexivity | exact Hevs | exact Hnew | | exact Hf].
    log_cases.
  - rewrite appendLog_spec in Hlog.
    destruct (appendFile_ok E (SUCCESS_ENTRY (id post))) eqn:Hok;
      injection Hlog as -> ->.
    + intros [= <- <-]. exists (evs ++ [EvMint (id post) req (Some tx)]).
      split; [reflexivity|]. split; [reflexivity|]. split; [reflexivity|].
      eapply Minted; [reflexivity | exact Hevs | exact Hnew | exact Hid | reflexivity
                     | reflexivity | congruence].
    + change (Build_LogEntry FAILED None) with FAILED_ENTRY.
      match goal with |- context [appendLog E FAILED_ENTRY ?x] =>
        destruct (main_catch_failure E x) as (o' & -> & Hf) end.
      intros [= <- <-]. exists (evs ++ [EvMint (id post) req (Some tx)]).
      split; [log_cases|].
      split; [log_cases|].
      split; [log_cases|].
      eapply Minted; [reflexivity | exact Hevs | exact Hnew | exact Hid | | | ].
      * log_cases.
      * intros H. congruence.
      * intros _. exact Hf.
Qed.

Lemma video_main_shape E arg w o w' :
  YoutubeShorts.main E arg w = (o, w') ->
  exists evs,
    trace w' = trace w ++ evs
    /\ posted_tweets w' = posted_tweets w
    /\ RunShape E (video_loaded arg w) POSTED_VIDEOS_FILE 100 (is_latest arg)
         (posted_videos w) (posted_videos w') evs o.
Proof.
  unfold YoutubeShorts.main.
  destruct (YoutubeShorts.main_try E arg w) as [r w1] eqn:Htry.
  change (Build_LogEntry FAILED None) with FAILED_ENTRY.
  apply video_main_try_shape in Htry
    as [(e & -> & ->) | (video & files & evs & Hnew & Hevs & Hcases)].
  { destruct (main_catch_failure E w) as (o' & -> & Hf).
    intros [= <- <-]. exists [].
    split; [log_cases|].
    split; [log_cases|].
    apply StoppedBeforeMint; [apply quiet_nil | | exact Hf].
    log_cases. }
  apply (quiet_before_mint _ _ _ Hnew) in Hevs.
  destruct Hcases as [(e & -> & ->) | [(e & req & -> & ->)
                                      | (req & tx & record & Hid & Hlog)]].
  - match goal with |- context [appendLog E FAILED_ENTRY ?x] =>
      destruct (main_catch_failure E x) as (o' & -> & Hf) end.
    intros [= <- <-]. exists evs.
    split; [log_cases|].
    split; [log_cases|].
    apply StoppedBeforeMint; [exact Hevs | | exact Hf].
    log_cases.
  - match goal with |- context [appendLog E FAILED_ENTRY ?x] =>
      destruct (main_catch_failure E x) as (o' & -> & Hf) end.
    intros [= <- <-]. exists (evs ++ [EvMint (vid video) req None]).
    split; [log_cases|].
    split; [log_cases|].
    eapply MintFailed; [reflexivity | exact Hevs | exact Hnew | | exact Hf].
    log_cases.
  - rewrite appendLog_spec in Hlog. unfold video_world in Hlog.
    destruct (appendFile_ok E (SUCCESS_ENTRY (vid video))) eqn:Hok;
      injection Hlog as -> ->.
    + intros [= <- <-]. exists (evs ++ [EvMint (vid video) req (Some tx)]).
      split; [log_cases|].
      split; [log_cases|].
      eapply Minted; [reflexivity | exact Hevs | exact Hnew | exact Hid | | | congruence].
      * log_cases.
      * reflexivity.
    + match goal with |- context [appendLog E FAILED_ENTRY ?x] =>
        destruct (main_catch_failure E x) as (o' & -> & Hf) end.
      intros [= <- <-]. exists (evs ++ [EvMint (vid video) req (Some tx)]).
      split; [log_cases|].
      split; [log_cases|].
      eapply Minted; [reflexivity | exact Hevs | exact Hnew | exact Hid | | | ].
      * log_cases.
      * intros H. congruence.
      * intros _. exact Hf.
Qed.

(** *** What the shape of a run entails *)

Section Shape.

Variables (E : Env) (S : gset Js.str) (f : LedgerName) (cap : nat) (saves : bool).
Variables (old new : LedgerFile) (evs : list Event) (o : Outcome).
Hypothesis shape : RunShape E S f cap saves old new evs o.


Lemma shape_mint_failed src req :
  In (EvMint src req None) evs -> new = old /\ failure E o.
Proof using shape.
  intros Hin.
  destruct shape as [_ Hn Hf | src0 req0 evs0 _ _ _ Hn Hf
                    | src0 req0 tx evs0 record -> Hq _ _ _ _ _]; auto.
  apply in_app_or in Hin as [Hin | [[=] | []]].
  apply Hq in Hin as [Hm _]. discriminate Hm.
Qed.

Lemma shape_changed :
  new <> old -> saves = true /\ exists src req tx, In (EvMint src req (Some tx)) evs.
Proof using shape.
  intros Hne.
  destruct shape as [_ Hn _ | src req evs0 _ _ _ Hn _
                    | src req tx evs0 record -> _ _ _ Hn _ _]; try contradiction.
  destruct saves; [|contradiction]. split; [reflexivity|].
  exists src, req, tx. apply in_or_app. right. simpl. auto.
Qed.

Lemma shape_minted src req tx :
  In (EvMint src req (Some tx)) evs ->
  (appendFile_ok E (SUCCESS_ENTRY src) = true -> o = Completed)
  /\ (o <> Completed -> failure E o)
  /\ (src ∉ S)
  /\ exists record, itemId record = src
       /\ new = if saves then after_save cap (write_outcome E f) record old else old.
Proof using shape.
  intros Hin.
  destruct shape as [Hq _ _ | src0 req0 evs0 -> Hq _ _ _
                    | src0 req0 tx0 evs0 record -> Hq Hs Hid Hn Hok Hf].
  - apply Hq in Hin as [Hm _]. discriminate Hm.
  - apply in_app_or in Hin as [Hin | [[=] | []]].
    apply Hq in Hin as [Hm _]. discriminate Hm.
  - apply in_app_or in Hin as [Hin | [[= <- <- <-] | []]].
    + apply Hq in Hin as [Hm _]. discriminate Hm.
    + split; [exact Hok|]. split; [exact Hf|]. split; [exact Hs|]. eauto.
Qed.

Lemma shape_not_saving : saves = false -> new = old.
Proof using shape.
  intros Hs.
  destruct shape as [_ Hn _ | src req evs0 _ _ _ Hn _
                    | src req tx evs0 record _ _ _ _ Hn _ _]; try exact Hn.
  rewrite Hs in Hn. exact Hn.
Qed.

End Shape.

Lemma after_save_recorded cap record c :
  (0 < cap)%nat -> c <> NotAnArray ->
  In (itemId record) (stored_ids (after_save cap Written record c)).
Proof.
  intros Hc Hn.
  destruct (after_save_written cap record c Hc Hn) as (l & -> & _ & Hin).
  unfold stored_ids. simpl. apply in_map. exact Hin.
Qed.

Lemma NoDup_skipn {A} n (l : list A) : List.NoDup l -> List.NoDup (skipn n l).
Proof.
  revert l. induction n as [|n IH]; intros l Hl; [exact Hl|].
  destruct l as [|x l]; [constructor|]. simpl. apply IH.
  inversion Hl; assumption.
Qed.

(** A record operation keeps the ids unique when the new id is not among
    the stored ones. *)
Lemma after_save_NoDup cap ok record c :
  List.NoDup (stored_ids c) -> ~ In (itemId record) (stored_ids c) ->
  List.NoDup (stored_ids (after_save cap ok record c)).
Proof.
  intros Hnd Hnew. unfold after_save.
  assert (Happ : forall l, List.NoDup (map itemId l) -> ~ In (itemId record) (map itemId l) ->
            List.NoDup (map itemId
              (if (cap <? length (l ++ [record]))%nat
               then slice_neg cap (l ++ [record]) else l ++ [record]))).
  { intros l Hl Hn.
    assert (Hall : List.NoDup (map itemId (l ++ [record]))).
    { rewrite map_app. simpl. apply List.NoDup_app; [exact Hl | |].
      - constructor; [simpl; tauto | constructor].
      - intros x Hx [<- | []]. exact (Hn Hx). }
    destruct (cap <? length (l ++ [record]))%nat; [|exact Hall].
    destruct cap; [exact Hall|]. unfold slice_neg.
    rewrite <- List.skipn_map. apply NoDup_skipn, Hall. }
  destruct c as [| | |l], ok; simpl; try exact Hnd; try constructor.
  - apply (Happ []); [constructor | simpl; tauto].
  - apply (Happ []); [constructor | simpl; tauto].
  - apply (Happ l); assumption.
Qed.

Lemma not_in_loaded x c :
  x ∉ (list_to_set (stored_ids c) : gset Js.str) <-> ~ In x (stored_ids c).
Proof. rewrite elem_of_list_to_set, list_elem_of_In. reflexivity. Qed.

(** ** Minting and the ledger *)

(** C1, as stated, fails: a run of the video path for a given video id
    mints and completes, and writes no record for the minted item. *)
Lemma specific_mode_mints_without_record :
  let E := env_video dl_ok (Ok (Js.lit "0xabc")) true in
  let run := YoutubeShorts.main E (Some (Js.lit "abc")) (with_videos (Records []) world0) in
  run.1 = Completed
  /\ (exists req, In (EvMint (Js.lit "abc") req (Some (Js.lit "0xabc"))) (trace run.2))
  /\ posted_videos run.2 = Records [].
Proof.
  vm_compute. split; [reflexivity|]. split; [|reflexivity].
  eexists. do 2 right. left. reflexivity.
Qed.

Lemma recorded_when_written f cap (E : Env) record old src :
  (0 < cap)%nat -> itemId record = src ->
  writeFile_ok E f = true -> old <> NotAnArray ->
  In src (stored_ids (after_save cap (write_outcome E f) record old)).
Proof.
  intros Hc <- Hok Hn. rewrite (write_outcome_ok _ _ Hok).
  apply after_save_recorded; assumption.
Qed.

(** C1 (amended).  In both programs a run changes its ledger only after
    a confirmed mint; when the mint fails the ledger is left as it was
    and the run does not complete (exit status 1 once the failure entry
    is logged).  After a confirmed mint the id of the minted item is in
    the ledger when the mode records (always on the image path, only
    without a video id argument on the video path) and the ledger could
    be written (it is not a non-array JSON value and the write succeeds);
    with a video id argument the ledger is never touched. *)
Theorem record_only_after_confirmed_mint :
  (forall E w o w',
     AutoPostDaily.main E w = (o, w') ->
     exists evs, trace w' = trace w ++ evs
       /\ (forall src req, In (EvMint src req None) evs ->
             posted_tweets w' = posted_tweets w /\ o <> Completed
             /\ (appendFile_ok E FAILED_ENTRY = true -> exit_status o = 1%Z))
       /\ (posted_tweets w' <> posted_tweets w ->
             exists src req tx, In (EvMint src req (Some tx)) evs)
       /\ (forall src req tx, In (EvMint src req (Some tx)) evs ->
             writeFile_ok E POSTED_TWEETS_FILE = true ->
             posted_tweets w <> NotAnArray ->
             In src (stored_ids (posted_tweets w'))))
  /\ (forall E arg w o w',
     YoutubeShorts.main E arg w = (o, w') ->
     exists evs, trace w' = trace w ++ evs
       /\ (forall src req, In (EvMint src req None) evs ->
             posted_videos w' = posted_videos w /\ o <> Completed
             /\ (appendFile_ok E FAILED_ENTRY = true -> exit_status o = 1%Z))
       /\ (posted_videos w' <> posted_videos w ->
             exists src req tx, In (EvMint src req (Some tx)) evs)
       /\ (forall src req tx, In (EvMint src req (Some tx)) evs ->
             YoutubeShorts.specific arg = None ->
             writeFile_ok E POSTED_VIDEOS_FILE = true ->
             posted_videos w <> NotAnArray ->
             In src (stored_ids (posted_videos w')))
       /\ (YoutubeShorts.specific arg <> None -> posted_videos w' = posted_videos w)).
Proof.
  split.
  - intros E w o w' Hrun.
    apply image_main_shape in Hrun as (evs & Htr & _ & _ & Hs).
    exists evs. split; [exact Htr|]. split; [|split].
    + intros src req Hin.
      destruct (shape_mint_failed _ _ _ _ _ _ _ _ _ Hs src req Hin) as [Hn [Hc Hx]].
      split; [exact Hn|]. split; [exact Hc|]. intros Hok. rewrite (Hx Hok). reflexivity.
    + intros Hne. apply (shape_changed _ _ _ _ _ _ _ _ _ Hs) in Hne as [_ H]. exact H.
    + intros src req tx Hin Hw Hn.
      destruct (shape_minted _ _ _ _ _ _ _ _ _ Hs src req tx Hin)
        as (_ & _ & _ & record & Hid & ->).
      apply recorded_when_written; [lia | assumption..].
  - intros E arg w o w' Hrun.
    apply video_main_shape in Hrun as (evs & Htr & _ & Hs).
    exists evs. split; [exact Htr|]. split; [|split; [|split]].
    + intros src req Hin.
      destruct (shape_mint_failed _ _ _ _ _ _ _ _ _ Hs src req Hin) as [Hn [Hc Hx]].
      split; [exact Hn|]. split; [exact Hc|]. intros Hok. rewrite (Hx Hok). reflexivity.
    + intros Hne. apply (shape_changed _ _ _ _ _ _ _ _ _ Hs) in Hne as [_ H]. exact H.
    + intros src req tx Hin Hl Hw Hn.
      destruct (shape_minted _ _ _ _ _ _ _ _ _ Hs src req tx Hin)
        as (_ & _ & _ & record & Hid & ->).
      unfold is_latest. rewrite Hl.
      apply recorded_when_written; [lia | assumption..].
    + intros Hsp. apply (shape_not_saving _ _ _ _ _ _ _ _ _ Hs).
      unfold is_latest. destruct (YoutubeShorts.specific arg); [reflexivity | contradiction].
Qed.

(** ** Already processed candidates *)


(** C8.  In "latest" mode the only candidate is already in the ledger
    and the run log cannot be appended to.  The run makes no downloader
    and no mint call and leaves the ledger as it was, as the claim says;
    but the [appendFile] of the [catch] block throws before
    [process.exit(1)] is reached, the promise of [main] is rejected, and
    the process ends with status 0, not with a non-zero status.  The
    same holds on the image path. *)
Theorem processed_candidate_run_ends_with_status_zero :
  (let E := with_log_failure (env_video dl_ok (Ok (Js.lit "0xabc")) true) in
   let w := with_videos (Records [rec_of "abc"]) world0 in
   let run := YoutubeShorts.main E None w in
   youtube_latest E = Ok video_abc
   /\ In (vid video_abc) (stored_ids (posted_videos w))
   /\ run.1 = Rejected (FsError "open")
   /\ exit_status run.1 = 0%Z
   /\ trace run.2 = [] /\ run_log run.2 = []
   /\ posted_videos run.2 = posted_videos w)
  /\ (let post := tweet_of "1001" "gm $ETH" 0 "1001" None in
      let E := with_log_failure
                 (env_image [post] [photo_of "1001"] (Ok (Js.lit "0xabc")) true) in
      let w := with_tweets (Records [rec_of "1001"]) world0 in
      let run := AutoPostDaily.main E w in
      userTimeline E = Ok ([post], [photo_of "1001"])
      /\ In (id post) (stored_ids (posted_tweets w))
      /\ run.1 = Rejected (FsError "open")
      /\ exit_status run.1 = 0%Z
      /\ trace run.2 = [] /\ run_log run.2 = []
      /\ posted_tweets run.2 = posted_tweets w).
Proof.
  split; cbv zeta.
  - split; [reflexivity|]. split; [left; reflexivity|].
    vm_compute. repeat split; reflexivity.
  - split; [reflexivity|]. split; [left; reflexivity|].
    vm_compute. repeat split; reflexivity.
Qed.

(** The only candidate is already in the ledger: the run ends with
    status 1 before anything else happens. *)
Example latest_video_already_posted :
  let E := env_video dl_ok (Ok (Js.lit "0xabc")) true in
  let w := with_videos (Records [rec_of "abc"]) world0 in
  let run := YoutubeShorts.main E None w in
  run.1 = Exited 1 /\ trace run.2 = [] /\ downloads run.2 = []
  /\ posted_videos run.2 = Records [rec_of "abc"].
Proof. vm_compute. repeat split; reflexivity. Qed.

(** ** Record operations that fail or repeat *)

(** The mint succeeds, the ledger cannot be written: the run completes
    and the item is not in the ledger. *)
Lemma minted_but_not_recorded :
  let E := env_image [tweet_of "1001" "gm $ETH" 0 "1001" None] [photo_of "1001"]
             (Ok (Js.lit "0xabc")) false in
  let w := with_tweets (Records []) world0 in
  let run := AutoPostDaily.main E w in
  run.1 = Completed
  /\ (exists req, In (EvMint (Js.lit "1001") req (Some (Js.lit "0xabc"))) (trace run.2))
  /\ posted_tweets run.2 = Records [].
Proof.
  vm_compute. split; [reflexivity|]. split; [|reflexivity].
  eexists. right. left. reflexivity.
Qed.

(** C10.  [savePostedTweet] and [savePostedVideo] return normally
    whatever the ledger file holds and whether or not it can be written;
    a run whose mint is confirmed completes as soon as its success entry
    is logged, whatever happened to the ledger; and there is a run that
    mints and completes without the item being added to the ledger. *)
Theorem record_never_throws :
  (forall E record w, (savePostedTweet E record w).1 = Ok tt)
  /\ (forall E record w, (savePostedVideo E record w).1 = Ok tt)
  /\ (forall E w o w',
     AutoPostDaily.main E w = (o, w') ->
     exists evs, trace w' = trace w ++ evs
       /\ forall src req tx, In (EvMint src req (Some tx)) evs ->
            appendFile_ok E (SUCCESS_ENTRY src) = true -> o = Completed)
  /\ (forall E arg w o w',
     YoutubeShorts.main E arg w = (o, w') ->
     exists evs, trace w' = trace w ++ evs
       /\ forall src req tx, In (EvMint src req (Some tx)) evs ->
            appendFile_ok E (SUCCESS_ENTRY src) = true -> o = Completed)
  /\ (exists E w src req tx,
     (AutoPostDaily.main E w).1 = Completed
     /\ In (EvMint src req (Some tx)) (trace (AutoPostDaily.main E w).2)
     /\ ~ In src (stored_ids (posted_tweets (AutoPostDaily.main E w).2))).
Proof.
  split; [|split; [|split; [|split]]].
  - intros E record w. unfold savePostedTweet. rewrite savePosted_spec. reflexivity.
  - intros E record w. unfold savePostedVideo. rewrite savePosted_spec. reflexivity.
  - intros E w o w' Hrun.
    apply image_main_shape in Hrun as (evs & Htr & _ & _ & Hs).
    exists evs. split; [exact Htr|]. intros src req tx Hin.
    apply (shape_minted _ _ _ _ _ _ _ _ _ Hs src req tx Hin).
  - intros E arg w o w' Hrun.
    apply video_main_shape in Hrun as (evs & Htr & _ & Hs).
    exists evs. split; [exact Htr|]. intros src req tx Hin.
    apply (shape_minted _ _ _ _ _ _ _ _ _ Hs src req tx Hin).
  - destruct minted_but_not_recorded as (Hc & [req Hin] & Hl).
    eexists _, _, _, req, _. split; [exact Hc|]. split; [exact Hin|].
    cbv zeta in Hl. rewrite Hl. simpl. tauto.
Qed.

(** C6, as stated, fails: recording an id that is already stored leaves
    two records with that id. *)
Lemma record_of_stored_id_duplicates :
  let w := with_tweets (Records [rec_of "a"]) world0 in
  stored_ids (posted_tweets (savePostedTweet env_ok (rec_of "a") w).2)
  = [Js.lit "a"; Js.lit "a"]
  /\ ~ List.NoDup (stored_ids (posted_tweets (savePostedTweet env_ok (rec_of "a") w).2)).
Proof.
  assert (H : stored_ids (posted_tweets
                (savePostedTweet env_ok (rec_of "a")
                   (with_tweets (Records [rec_of "a"]) world0)).2)
              = [Js.lit "a"; Js.lit "a"]) by (vm_compute; reflexivity).
  cbv zeta. rewrite H. split; [reflexivity|].
  intros Hnd. inversion Hnd as [|x l Hx _]. apply Hx. simpl. auto.
Qed.

(** C6 (amended).  A record operation appends without looking for the
    id: it keeps the ids of the ledger distinct when the new id is not
    among them.  A run only records an id that is absent from the ledger
    it loaded, so every run of either program keeps the ids of its
    ledger distinct. *)
Theorem runs_keep_ids_unique :
  (forall f cap E record w,
     List.NoDup (stored_ids (ledger f w)) ->
     ~ In (itemId record) (stored_ids (ledger f w)) ->
     List.NoDup (stored_ids (ledger f (savePosted f cap E record w).2)))
  /\ (forall E w o w',
     AutoPostDaily.main E w = (o, w') ->
     List.NoDup (stored_ids (posted_tweets w)) ->
     List.NoDup (stored_ids (posted_tweets w')))
  /\ (forall E arg w o w',
     YoutubeShorts.main E arg w = (o, w') ->
     List.NoDup (stored_ids (posted_videos w)) ->
     List.NoDup (stored_ids (posted_videos w'))).
Proof.
  assert (Hshape : forall E S f cap saves old new evs o,
            RunShape E S f cap saves old new evs o ->
            (forall x, x ∉ S -> ~ In x (stored_ids old)) ->
            List.NoDup (stored_ids old) -> List.NoDup (stored_ids new)).
  { intros E S f cap saves old new evs o Hs HS Hnd.
    destruct Hs as [_ -> _ | src req evs0 _ _ _ -> _
                   | src req tx evs0 record _ _ Hsrc Hid -> _ _]; try exact Hnd.
    destruct saves; [|exact Hnd].
    apply after_save_NoDup; [exact Hnd|]. rewrite Hid. apply HS, Hsrc. }
  split; [|split].
  - intros f cap E record w Hnd Hnew. rewrite savePosted_spec. simpl.
    rewrite ledger_set_ledger. apply after_save_NoDup; assumption.
  - intros E w o w' Hrun Hnd.
    apply image_main_shape in Hrun as (evs & _ & _ & _ & Hs).
    apply (Hshape _ _ _ _ _ _ _ _ _ Hs); [|exact Hnd].
    intros x. apply not_in_loaded.
  - intros E arg w o w' Hrun Hnd.
    apply video_main_shape in Hrun as (evs & _ & _ & Hs).
    destruct (is_latest arg) eqn:Hl.
    + apply (Hshape _ _ _ _ _ _ _ _ _ Hs); [|exact Hnd].
      intros x. unfold video_loaded. rewrite Hl. apply not_in_loaded.
    + rewrite (shape_not_saving _ _ _ _ _ _ _ _ _ Hs eq_refl). exact Hnd.
Qed.

(** ** Release of the acquired files *)

Lemma after_cleanup_removes E videoPath thumbnailPath files :
  In videoPath files ->
  unlink_ok E videoPath = true -> unlink_ok E thumbnailPath = true ->
  ~ In videoPath (after_cleanup E videoPath thumbnailPath files)
  /\ ~ In thumbnailPath (after_cleanup E videoPath thumbnailPath files).
Proof.
  intros Hv Hov Hot. unfold after_cleanup.
  rewrite bool_decide_eq_true_2 by (apply list_elem_of_In; exact Hv).
  rewrite Hov, Hot, andb_true_r. cbn [andb].
  set (files1 := List.filter (fun f => negb (str_eqb f videoPath)) files).
  assert (Hgone : forall p l, ~ In p (List.filter (fun f => negb (str_eqb f p)) l)).
  { intros p l [_ Hp]%filter_In. unfold str_eqb in Hp.
    rewrite bool_decide_eq_true_2 in Hp by reflexivity. discriminate Hp. }
  destruct (bool_decide (thumbnailPath ∈ files1)) eqn:Ht.
  - split; [|apply Hgone]. intros [Hin _]%filter_In. exact (Hgone _ _ Hin).
  - split; [apply Hgone|]. apply bool_decide_eq_false in Ht.
    intros Hin. apply Ht, list_elem_of_In, Hin.
Qed.

(** C9, as stated, fails.  (1) Every strategy writes the thumbnail and
    then fails: the run aborts with status 1 after five attempts and the
    thumbnail stays in the download directory.  (2) The run reaches the
    hand-off, the mint throws, the video cannot be deleted: the deletion
    of the thumbnail is skipped and both files stay. *)
Lemma aborted_runs_leave_files :
  (let E := env_video dl_thumb_only (Ok (Js.lit "0xabc")) true in
   let run := YoutubeShorts.main E None (with_videos (Records []) world0) in
   run.1 = Exited 1
   /\ length (List.filter is_download (trace run.2)) = 5%nat
   /\ downloads run.2 = [Js.lit "abc.jpg"])
  /\ (let E := with_unlink (fun f => negb (str_eqb f (Js.lit "abc.mp4")))
                 (env_video dl_ok (Throw (ServiceError "createCoin")) true) in
      let run := YoutubeShorts.main E None (with_videos (Records []) world0) in
      run.1 = Exited 1
      /\ (exists req, In (EvMint (Js.lit "abc") req None) (trace run.2))
      /\ downloads run.2 = [Js.lit "abc.mp4"; Js.lit "abc.jpg"]).
Proof.
  split.
  - vm_compute. repeat split; reflexivity.
  - vm_compute. split; [reflexivity|]. split; [|reflexivity].
    eexists. do 2 right. left. reflexivity.
Qed.

(** The client setup precedes the [try]: when it throws, the [finally]
    block does not run and the two files stay. *)
Example setup_failure_skips_cleanup :
  let E := with_wallet false (env_video dl_ok (Ok (Js.lit "0xabc")) true) in
  let run := YoutubeShorts.main E None (with_videos (Records []) world0) in
  run.1 = Exited 1 /\ downloads run.2 = [Js.lit "abc.mp4"; Js.lit "abc.jpg"].
Proof. vm_compute. split; reflexivity. Qed.

(** C9 (amended).  In a run of the video path that reaches the hand-off
    with the clients set up, the two files that the acquisition returned
    are gone from the download directory when the hand-off returns or
    throws, whatever the minting subsystem answered, provided the two
    deletions themselves succeed. *)
Theorem handoff_releases_acquired_files E video w d w1 r w2 :
  YoutubeShorts.downloadShortVideo E (vid video) w = (Ok d, w1) ->
  YoutubeShorts.createZoraCoinWithVideo E video
    (YoutubeShorts.videoPath d) (YoutubeShorts.thumbnailPath d) w1 = (r, w2) ->
  wallet_ok E = true ->
  unlink_ok E (YoutubeShorts.videoPath d) = true ->
  unlink_ok E (YoutubeShorts.thumbnailPath d) = true ->
  ~ In (YoutubeShorts.videoPath d) (downloads w2)
  /\ ~ In (YoutubeShorts.thumbnailPath d) (downloads w2).
Proof.
  intros Hdl Hmint Hwallet Hov Hot.
  apply downloadShortVideo_frame in Hdl as (files & evs & -> & _ & Hin).
  destruct (Hin d eq_refl) as [Hv _].
  destruct (createZoraCoinWithVideo_spec E video (YoutubeShorts.videoPath d)
              (YoutubeShorts.thumbnailPath d) (set_downloads files (add_events evs w)))
    as [[Hw _] | (_ & r' & evs' & i & Hc & _)]; [congruence|].
  rewrite Hc in Hmint. injection Hmint as <- <-.
  cbn [downloads set_downloads].
  apply after_cleanup_removes; assumption.
Qed.

Lemma handoff_releases_acquired_files_witness :
  let E := env_video dl_ok (Throw (ServiceError "createCoin")) true in
  let d := {| YoutubeShorts.videoPath := Js.lit "abc.mp4";
              YoutubeShorts.thumbnailPath := Js.lit "abc.jpg" |} in
  let w1 := (YoutubeShorts.downloadShortVideo E (vid video_abc) world0).2 in
  let w2 := (YoutubeShorts.createZoraCoinWithVideo E video_abc
               (YoutubeShorts.videoPath d) (YoutubeShorts.thumbnailPath d) w1).2 in
  ~ In (YoutubeShorts.videoPath d) (downloads w2)
  /\ ~ In (YoutubeShorts.thumbnailPath d) (downloads w2).
Proof.
  intros E d w1 w2.
  apply (handoff_releases_acquired_files E video_abc world0 d w1
           (Throw (ServiceError "createCoin")) w2).
  - vm_compute. reflexivity.
  - vm_compute. reflexivity.
  - reflexivity.
  - reflexivity.
  - reflexivity.
Defined.

(** ** Thread reconstruction *)

Lemma insert_sorted_In t l x : In x (insert_sorted t l) <-> x = t \/ In x l.
Proof.
  induction l as [|h l IH]; simpl; [intuition congruence|].
  destruct (created_at t <=? created_at h)%Z; simpl; [intuition congruence|].
  rewrite IH. intuition congruence.
Qed.

Lemma sortThreadChronologically_In tweets x :
  In x (sortThreadChronologically tweets) <-> In x tweets.
Proof.
  induction tweets as [|t tweets IH]; simpl; [tauto|].
  rewrite insert_sorted_In, IH. intuition congruence.
Qed.

Lemma insert_sorted_sorted t l :
  StronglySorted chronological l -> StronglySorted chronological (insert_sorted t l).
Proof.
  induction 1 as [|h l Hs IH Hh]; simpl; [repeat constructor|].
  destruct (Z.leb_spec (created_at t) (created_at h)) as [Hle|Hgt].
  - constructor; [constructor; assumption|].
    constructor; [exact Hle|].
    rewrite List.Forall_forall in Hh |- *. intros y Hy. specialize (Hh y Hy).
    unfold chronological in *. lia.
  - constructor; [exact IH|].
    rewrite List.Forall_forall in Hh |- *. intros y [-> | Hy]%insert_sorted_In.
    + unfold chronological. lia.
    + apply Hh, Hy.
Qed.

Lemma sortThreadChronologically_sorted tweets :
  StronglySorted chronological (sortThreadChronologically tweets).
Proof.
  induction tweets as [|t tweets IH]; simpl; [constructor|].
  apply insert_sorted_sorted, IH.
Qed.

(** [find] on a sorted array returns the earliest match. *)
Lemma find_sorted_earliest (p : TwitterPost -> bool) l x :
  StronglySorted chronological l -> find p l = Some x ->
  forall y, In y l -> p y = true -> chronological x y.
Proof.
  induction 1 as [|h l Hs IH Hh]; simpl; [discriminate|].
  destruct (p h) eqn:Hp.
  - intros [= <-] y [<- | Hy] _; [unfold chronological; lia|].
    rewrite List.Forall_forall in Hh. apply Hh, Hy.
  - intros Hf y [<- | Hy] Hpy; [congruence|]. apply IH; assumption.
Qed.

Lemma findFirstTweet_sorted tweets :
  match findFirstTweet (sortThreadChronologically tweets) with
  | Some first =>
      In first tweets /\ is_root first = true
      /\ forall root, In root tweets -> is_root root = true ->
           (created_at first <= created_at root)%Z
  | None => forall t, In t tweets -> is_root t = false
  end.
Proof.
  unfold findFirstTweet.
  destruct (find _ (sortThreadChronologically tweets)) as [first|] eqn:Hf.
  - pose proof (find_some _ _ Hf) as [Hin Hp].
    split; [apply sortThreadChronologically_In, Hin|]. split; [exact Hp|].
    intros root Hr Hroot.
    apply (find_sorted_earliest _ _ _ (sortThreadChronologically_sorted tweets) Hf).
    + apply sortThreadChronologically_In, Hr.
    + exact Hroot.
  - intros t Ht. apply (find_none _ _ Hf t).
    apply sortThreadChronologically_In, Ht.
Qed.

(** The model's tests against the data they read. *)
Lemma is_root_spec tweet : is_root tweet = true <-> no_reply_ref tweet.
Proof.
  unfold is_root, no_reply_ref, some_ref, truthy.
  destruct (referenced_tweets tweet) as [refs|]; cbn [negb].
  - rewrite negb_true_iff. split.
    + intros Hex refs' ref [= <-] Hin Heq.
      assert (Ht : existsb (fun r => str_eqb (fst r) REPLIED_TO) refs = true).
      { apply existsb_exists. exists ref. split; [exact Hin|].
        unfold str_eqb. apply bool_decide_eq_true_2. exact Heq. }
      congruence.
    + intros Hno. destruct (existsb _ refs) eqn:Hex; [|reflexivity].
      apply existsb_exists in Hex as (ref & Hin & Heq).
      unfold str_eqb in Heq. apply bool_decide_eq_true in Heq.
      destruct (Hno refs ref eq_refl Hin Heq).
  - split; [|reflexivity]. intros _ refs ref Hrefs. discriminate Hrefs.
Qed.

Lemma is_root_false tweet : is_root tweet = false <-> ~ no_reply_ref tweet.
Proof.
  rewrite <- is_root_spec. destruct (is_root tweet); split; congruence.
Qed.

Lemma isPartOfThread_spec tweet :
  isPartOfThread tweet = true <->
  ~ no_reply_ref tweet \/ conversation_id tweet <> id tweet.
Proof.
  rewrite <- is_root_false. unfold isPartOfThread, is_root, str_eqb.
  rewrite orb_true_iff, negb_false_iff, negb_true_iff, bool_decide_eq_false. tauto.
Qed.

Lemma getThreadFromTimeline_In c timelineData t :
  In t (getThreadFromTimeline c timelineData) <-> in_conversation c timelineData t.
Proof.
  unfold getThreadFromTimeline, in_conversation, str_eqb.
  rewrite filter_In, bool_decide_eq_true. tauto.
Qed.

Lemma getThreadFromTimeline_two c timelineData :
  two_in_conversation c timelineData ->
  (2 <= length (getThreadFromTimeline c timelineData))%nat.
Proof.
  intros (l1 & a & l2 & b & l3 & -> & Ha & Hb).
  unfold getThreadFromTimeline, str_eqb.
  rewrite List.filter_app. cbn [List.filter]. rewrite bool_decide_eq_true_2 by exact Ha.
  rewrite List.filter_app. cbn [List.filter]. rewrite bool_decide_eq_true_2 by exact Hb.
  rewrite length_app. cbn [length]. rewrite length_app. cbn [length]. lia.
Qed.

(** What the thread branch of [processTwitterContent] returns as
    [firstTweetId], in terms of the thread it reconstructed. *)
Lemma first_tweet_of_thread E tweet timelineData w :
  let thread := getThreadFromTimeline (conversation_id tweet) timelineData in
  isPartOfThread tweet = true ->
  (2 <= length thread)%nat ->
  (forall t, In t thread -> id t <> []) ->
  exists p w',
    processTwitterContent E tweet timelineData w = (Ok p, w')
    /\ match findFirstTweet (sortThreadChronologically thread) with
       | Some first => firstTweetId p = id first
       | None => firstTweetId p = conversation_id tweet
       end.
Proof.
  intros thread Hpart Hlen Hids.
  unfold processTwitterContent, try_catch. rewrite Hpart. cbn [negb].
  fold thread.
  destruct (Nat.leb_spec (length thread) 1) as [Hle|_]; [lia|].
  unfold bind at 1.
  destruct (summarizeThread_spec E (sortThreadChronologically thread) w) as (out & ->).
  unfold bind at 1. rewrite cleanAndOptimizeContent_spec.
  eexists _, _. split; [reflexivity|]. cbn [firstTweetId ret].
  pose proof (findFirstTweet_sorted thread) as Hfirst.
  destruct (findFirstTweet (sortThreadChronologically thread)) as [first|]; [|reflexivity].
  destruct Hfirst as (Hin & _ & _).
  specialize (Hids first Hin). destruct (id first); [contradiction | reflexivity].
Qed.

(** C7.  The candidate is a thread member (it carries a "replied_to"
    reference, or its conversation id is not its own id) and the fetched
    window holds at least two tweets of its conversation.  Then
    processing returns, and [firstTweetId] is decided by the tweets of
    the window that belong to the candidate's conversation, and by no
    other tweet: when one of them has no "replied_to" reference,
    [firstTweetId] is the id of such a tweet of that conversation, the
    earliest one (so the id of the root when there is exactly one); when
    none has, [firstTweetId] is the candidate's conversation id.  Ids
    are non-empty strings. *)
Theorem thread_root_id E tweet timelineData w :
  let member := in_conversation (conversation_id tweet) timelineData in
  ~ no_reply_ref tweet \/ conversation_id tweet <> id tweet ->
  two_in_conversation (conversation_id tweet) timelineData ->
  (forall t, member t -> id t <> []) ->
  exists p w',
    processTwitterContent E tweet timelineData w = (Ok p, w')
    /\ ((exists root, member root /\ no_reply_ref root) ->
        exists first,
          member first /\ no_reply_ref first
          /\ (forall root, member root -> no_reply_ref root ->
                (created_at first <= created_at root)%Z)
          /\ firstTweetId p = id first)
    /\ (forall root, member root -> no_reply_ref root ->
          (forall t, member t -> no_reply_ref t -> t = root) ->
          firstTweetId p = id root)
    /\ ((forall t, member t -> ~ no_reply_ref t) ->
        firstTweetId p = conversation_id tweet).
Proof.
  intros member Hpart Htwo Hids.
  set (thread := getThreadFromTimeline (conversation_id tweet) timelineData).
  assert (Hmem : forall t, In t thread <-> member t)
    by (intros t; apply getThreadFromTimeline_In).
  destruct (first_tweet_of_thread E tweet timelineData w) as (p & w' & Hrun & Hfirst).
  { apply isPartOfThread_spec, Hpart. }
  { apply getThreadFromTimeline_two, Htwo. }
  { intros t Ht. apply Hids, Hmem, Ht. }
  exists p, w'. split; [exact Hrun|].
  fold thread in Hfirst.
  pose proof (findFirstTweet_sorted thread) as Hsorted.
  destruct (findFirstTweet (sortThreadChronologically thread)) as [first|].
  - destruct Hsorted as (Hin & Hroot & Hearly).
    apply Hmem in Hin. apply is_root_spec in Hroot.
    assert (Hmin : forall root, member root -> no_reply_ref root ->
                     (created_at first <= created_at root)%Z).
    { intros root Hr Hrr. apply Hearly; [apply Hmem, Hr | apply is_root_spec, Hrr]. }
    split; [|split].
    + intros _. exists first. auto.
    + intros root Hr Hrr Huniq. rewrite Hfirst, (Huniq first Hin Hroot). reflexivity.
    + intros Hnone. destruct (Hnone first Hin Hroot).
  - assert (Hno : forall t, member t -> ~ no_reply_ref t).
    { intros t Ht. apply is_root_false, Hsorted, Hmem, Ht. }
    split; [|split].
    + intros (root & Hr & Hrr). destruct (Hno root Hr Hrr).
    + intros root Hr Hrr _. destruct (Hno root Hr Hrr).
    + intros _. exact Hfirst.
Qed.

Lemma thread_root_id_witness :
  let E := env_ai (AiText (Js.lit "summary")) in
  let member := in_conversation (conversation_id thread_mid) thread_timeline in
  exists p w',
    processTwitterContent E thread_mid thread_timeline world0 = (Ok p, w')
    /\ ((exists root, member root /\ no_reply_ref root) ->
        exists first,
          member first /\ no_reply_ref first
          /\ (forall root, member root -> no_reply_ref root ->
                (created_at first <= created_at root)%Z)
          /\ firstTweetId p = id first)
    /\ (forall root, member root -> no_reply_ref root ->
          (forall t, member t -> no_reply_ref t -> t = root) ->
          firstTweetId p = id root)
    /\ ((forall t, member t -> ~ no_reply_ref t) ->
        firstTweetId p = conversation_id thread_mid).
Proof.
  intros E member.
  apply (thread_root_id E thread_mid thread_timeline world0).
  - right. vm_compute. intros H. discriminate H.
  - exists [], thread_last, [], thread_mid, [thread_root].
    split; [reflexivity|]. split; reflexivity.
  - intros t [Ht _].
    destruct Ht as [<- | [<- | [<- | []]]]; vm_compute; intros H; discriminate H.
Defined.

(** A window that also holds the root of another conversation, earlier
    than every tweet of the thread: [firstTweetId] is still the id of
    the root of the candidate's conversation. *)
Example thread_root_among_other_conversations :
  let E := env_ai (AiText (Js.lit "summary")) in
  let other := tweet_of "500" "unrelated" 1 "500" None in
  let run := processTwitterContent E thread_mid
               (other :: thread_timeline ++ [other]) world0 in
  run.1 = Ok {| content := Js.lit "summary"; firstTweetId := Js.lit "1000" |}.
Proof. vm_compute. reflexivity. Qed.

(** The candidate is the middle tweet of a thread of three whose root is
    in the window: the three are summarized in one call, in
    chronological order, and [firstTweetId] is the id of the root, not
    the conversation id. *)
Example thread_of_three :
  let E := env_ai (AiText (Js.lit "summary")) in
  let run := processTwitterContent E thread_mid thread_timeline world0 in
  run.1 = Ok {| content := Js.lit "summary"; firstTweetId := Js.lit "1000" |}
  /\ trace run.2
     = [EvAi (summary_input [thread_root; thread_mid; thread_last]);
        EvAi (clean_input (Js.lit "summary") true)].
Proof. vm_compute. split; reflexivity. Qed.

(** * Further properties *)

(** ** The text fallback: normal form, content, idempotence *)

Lemma drop_while_head_ok s : head_ok (Js.drop_while Js.is_space s) = true.
Proof.
  induction s as [|c s IH]; simpl; [reflexivity|].
  destruct (Js.is_space c) eqn:Hc; [exact IH|]. simpl. rewrite Hc. reflexivity.
Qed.

Lemma drop_while_id s : head_ok s = true -> Js.drop_while Js.is_space s = s.
Proof.
  destruct s as [|c s]; simpl; [reflexivity|].
  intros Hc. apply negb_true_iff in Hc. rewrite Hc. reflexivity.
Qed.

Lemma collapse_spaces_cons_visible c s :
  Js.is_space c = false ->
  Js.replace_all match_spaces (Js.lit " ") (c :: s)
  = c :: Js.replace_all match_spaces (Js.lit " ") s.
Proof.
  intros Hc. rewrite (replace_all_cons _ _ match_spaces_consuming).
  simpl. rewrite Hc. reflexivity.
Qed.

Lemma collapse_spaces_head_ok s :
  head_ok s = true -> head_ok (Js.replace_all match_spaces (Js.lit " ") s) = true.
Proof.
  destruct s as [|c s]; [intros _; simp replace_all; reflexivity|].
  simpl. intros Hc. apply negb_true_iff in Hc.
  rewrite collapse_spaces_cons_visible by exact Hc. simpl. rewrite Hc. reflexivity.
Qed.

Lemma no_space_runs_cons c s :
  no_space_runs (c :: s) = (negb (Js.is_space c) || head_ok s) && no_space_runs s.
Proof.
  destruct s as [|d s]; cbn [no_space_runs head_ok].
  - rewrite orb_true_r. reflexivity.
  - rewrite negb_andb. reflexivity.
Qed.

(** After the second replacement all white space is single U+0020. *)
Lemma collapse_spaces_normal s :
  forallb space_is_32 (Js.replace_all match_spaces (Js.lit " ") s) = true
  /\ no_space_runs (Js.replace_all match_spaces (Js.lit " ") s) = true.
Proof.
  apply (replace_all_ind match_spaces (Js.lit " ") match_spaces_consuming
    (fun s out => forallb space_is_32 out = true /\ no_space_runs out = true)).
  - split; reflexivity.
  - intros c s' rest Hm [IH1 IH2]. simpl in Hm.
    destruct (Js.is_space c); [|discriminate]. injection Hm as <-.
    change (Js.lit " " ++ ?x) with (32%N :: x). split.
    + cbn [forallb]. rewrite IH1. reflexivity.
    + rewrite no_space_runs_cons, IH2.
      rewrite collapse_spaces_head_ok by apply drop_while_head_ok.
      rewrite orb_true_r. reflexivity.
  - intros c s' Hm [IH1 IH2]. simpl in Hm.
    destruct (Js.is_space c) eqn:Hc; [discriminate|]. split.
    + cbn [forallb]. unfold space_is_32 at 1. rewrite Hc, IH1. reflexivity.
    + rewrite no_space_runs_cons, Hc, IH2. reflexivity.
Qed.

Lemma no_space_runs_app_l p q : no_space_runs (p ++ q) = true -> no_space_runs p = true.
Proof.
  induction p as [|c p IH]; [reflexivity|].
  rewrite <- app_comm_cons, !no_space_runs_cons.
  intros [H1 H2]%andb_true_iff. rewrite (IH H2), andb_true_r.
  destruct (Js.is_space c); [|reflexivity]. simpl in *.
  destruct p as [|d p]; [reflexivity | exact H1].
Qed.

Lemma no_space_runs_app_r p q : no_space_runs (p ++ q) = true -> no_space_runs q = true.
Proof.
  induction p as [|c p IH]; [auto|].
  rewrite <- app_comm_cons, no_space_runs_cons. intros [_ H]%andb_true_iff. auto.
Qed.

Lemma forallb_app_l {A} (f : A -> bool) p q : forallb f (p ++ q) = true -> forallb f p = true.
Proof. rewrite forallb_app. intros [H _]%andb_true_iff. exact H. Qed.

Lemma forallb_app_r {A} (f : A -> bool) p q : forallb f (p ++ q) = true -> forallb f q = true.
Proof. rewrite forallb_app. intros [_ H]%andb_true_iff. exact H. Qed.

Lemma trim_decompose s : exists p q, s = p ++ Js.trim s ++ q.
Proof.
  unfold Js.trim, Js.trim_start.
  destruct (drop_while_suffix Js.is_space s) as [p Hp].
  destruct (trim_end_prefix (Js.drop_while Js.is_space s)) as [q Hq].
  exists p, q. rewrite <- Hq. exact Hp.
Qed.

Lemma trim_end_head_ok s : head_ok s = true -> head_ok (Js.trim_end s) = true.
Proof.
  destruct s as [|c s]; [reflexivity|]. simpl. intros Hc.
  destruct (trim_end_prefix (c :: s)) as [q Hq].
  destruct (Js.trim_end (c :: s)) as [|d t] eqn:Ht; [reflexivity|].
  simpl in Hq. injection Hq as <- _. exact Hc.
Qed.

Lemma trim_ends s : head_ok (Js.trim s) = true /\ head_ok (rev (Js.trim s)) = true.
Proof.
  unfold Js.trim. split.
  - apply trim_end_head_ok, drop_while_head_ok.
  - unfold Js.trim_end. rewrite rev_involutive. apply drop_while_head_ok.
Qed.

(** The output of the fallback has its white space in normal form. *)
Lemma cleanTextBasic_ws_normal t : ws_normal (cleanTextBasic t) = true.
Proof.
  unfold cleanTextBasic.
  set (x := Js.replace_all match_spaces (Js.lit " ") (Js.replace_all match_tco [] t)).
  destruct (collapse_spaces_normal (Js.replace_all match_tco [] t)) as [H1 H2].
  fold x in H1, H2.
  destruct (trim_decompose x) as (p & q & Hx).
  destruct (trim_ends x) as [Hh Hl].
  unfold ws_normal. rewrite Hh, Hl, !andb_true_r.
  rewrite Hx in H1, H2. apply andb_true_iff. split.
  - apply (forallb_app_l _ _ q), (forallb_app_r _ p). exact H1.
  - apply (no_space_runs_app_l _ q), (no_space_runs_app_r p). exact H2.
Qed.

Lemma visible_drop_while s : visible (Js.drop_while Js.is_space s) = visible s.
Proof.
  induction s as [|c s IH]; simpl; [reflexivity|].
  destruct (Js.is_space c) eqn:Hc; simpl; [exact IH|]. rewrite Hc. reflexivity.
Qed.

Lemma visible_trim s : visible (Js.trim s) = visible s.
Proof.
  unfold Js.trim, Js.trim_end, Js.trim_start, visible.
  rewrite List.filter_rev. fold (visible (Js.drop_while Js.is_space (rev (Js.drop_while Js.is_space s)))).
  rewrite visible_drop_while. unfold visible. rewrite List.filter_rev, rev_involutive.
  apply visible_drop_while.
Qed.

Lemma visible_collapse_spaces s :
  visible (Js.replace_all match_spaces (Js.lit " ") s) = visible s.
Proof.
  apply (replace_all_ind match_spaces (Js.lit " ") match_spaces_consuming
    (fun s out => visible out = visible s)).
  - reflexivity.
  - intros c s' rest Hm IH. simpl in Hm.
    destruct (Js.is_space c) eqn:Hc; [|discriminate]. injection Hm as <-.
    change (Js.lit " " ++ ?x) with (32%N :: x).
    unfold visible at 1 2. cbn [List.filter]. rewrite Hc.
    change (Js.is_space 32) with true. cbn [negb].
    fold (visible (Js.replace_all match_spaces (Js.lit " ") (Js.drop_while Js.is_space s'))).
    fold (visible s'). rewrite IH. apply visible_drop_while.
  - intros c s' _ IH. unfold visible in *. cbn [List.filter]. rewrite IH. reflexivity.
Qed.

Lemma visible_sublist s : visible s `sublist_of` s.
Proof.
  induction s as [|c s IH]; simpl; [constructor|].
  destruct (negb (Js.is_space c)); constructor; exact IH.
Qed.

Lemma remove_links_sublist s : Js.replace_all match_tco [] s `sublist_of` s.
Proof.
  apply (replace_all_ind match_tco [] match_tco_consuming
    (fun s out => out `sublist_of` s)).
  - constructor.
  - intros c s' rest Hm IH. simpl app.
    destruct (match_tco_suffix _ _ Hm) as (pre & -> & _).
    apply sublist_inserts_l, IH.
  - intros c s' _ IH. constructor. exact IH.
Qed.

(** Apart from white space, the output of the fallback is made of code
    units of the input, in their order. *)
Lemma cleanTextBasic_visible_sublist t : visible (cleanTextBasic t) `sublist_of` t.
Proof.
  unfold cleanTextBasic. rewrite visible_trim, visible_collapse_spaces.
  etransitivity; [apply visible_sublist | apply remove_links_sublist].
Qed.

Lemma remove_links_id s : has_link s = false -> Js.replace_all match_tco [] s = s.
Proof.
  induction s as [|c s IH]; [intros _; simp replace_all; reflexivity|].
  cbn [has_link]. intros [Hh Hs]%orb_false_iff.
  rewrite (replace_all_cons _ _ match_tco_consuming).
  unfold starts_link in Hh. destruct (match_tco (c :: s)); [discriminate|].
  rewrite (IH Hs). reflexivity.
Qed.

Lemma collapse_spaces_id s :
  forallb space_is_32 s = true -> no_space_runs s = true ->
  Js.replace_all match_spaces (Js.lit " ") s = s.
Proof.
  induction s as [|c s IH]; [intros _ _; simp replace_all; reflexivity|].
  cbn [forallb]. rewrite no_space_runs_cons.
  intros [Hc H32]%andb_true_iff [Hrun Hruns]%andb_true_iff.
  rewrite (replace_all_cons _ _ match_spaces_consuming). simpl match_spaces.
  destruct (Js.is_space c) eqn:Hsp.
  - unfold space_is_32 in Hc. rewrite Hsp in Hc. simpl in Hc, Hrun.
    apply N.eqb_eq in Hc as ->.
    rewrite (drop_while_id s Hrun), (IH H32 Hruns). reflexivity.
  - rewrite (IH H32 Hruns). reflexivity.
Qed.

Lemma trim_id s : head_ok s = true -> head_ok (rev s) = true -> Js.trim s = s.
Proof.
  intros Hh Hl. unfold Js.trim, Js.trim_start, Js.trim_end.
  rewrite (drop_while_id s Hh), (drop_while_id (rev s) Hl). apply rev_involutive.
Qed.

(** A text without tracking link and with its white space in normal form
    is a fixed point of the fallback. *)
Lemma cleanTextBasic_fixed s :
  has_link s = false -> ws_normal s = true -> cleanTextBasic s = s.
Proof.
  unfold ws_normal.
  intros Hl [[[H32 Hruns]%andb_true_iff Hh]%andb_true_iff Hr]%andb_true_iff.
  unfold cleanTextBasic.
  rewrite (remove_links_id s Hl), (collapse_spaces_id s H32 Hruns). apply trim_id; assumption.
Qed.

(** X1.  Whatever the input, the white space of [cleanTextBasic]'s
    output is in normal form: the output neither starts nor ends with
    white space, never has two white-space units in a row, and its only
    white-space unit is U+0020 (tabs, line breaks, no-break spaces are
    replaced). *)
Theorem fallback_white_space_normal_form t :
  head_ok (cleanTextBasic t) = true
  /\ head_ok (rev (cleanTextBasic t)) = true
  /\ no_space_runs (cleanTextBasic t) = true
  /\ (forall c, In c (cleanTextBasic t) -> Js.is_space c = true -> c = 32%N).
Proof.
  pose proof (cleanTextBasic_ws_normal t) as H. unfold ws_normal in H.
  apply andb_true_iff in H as [[[H32 Hruns]%andb_true_iff Hh]%andb_true_iff Hr].
  split; [exact Hh|]. split; [exact Hr|]. split; [exact Hruns|].
  intros c Hin Hc. rewrite forallb_forall in H32. specialize (H32 c Hin).
  unfold space_is_32 in H32. rewrite Hc in H32. apply N.eqb_eq. exact H32.
Qed.

(** X2.  [cleanTextBasic] leaves unchanged any text that has no tracking
    link and whose white space is in normal form; it is idempotent on
    every text whose tracking links run up to a white space or to the
    end. *)
Theorem fallback_idempotent t :
  links_delimited t = true ->
  cleanTextBasic (cleanTextBasic t) = cleanTextBasic t
  /\ forall s, has_link s = false -> ws_normal s = true -> cleanTextBasic s = s.
Proof.
  intros Hd. split; [|apply cleanTextBasic_fixed].
  apply cleanTextBasic_fixed; [apply cleanTextBasic_no_link, Hd | apply cleanTextBasic_ws_normal].
Qed.

Lemma fallback_idempotent_witness :
  let t := Js.lit " gm https://t.co/abc  now " in
  cleanTextBasic (cleanTextBasic t) = cleanTextBasic t
  /\ forall s, has_link s = false -> ws_normal s = true -> cleanTextBasic s = s.
Proof.
  intros t. apply (fallback_idempotent t). vm_compute. reflexivity.
Defined.

(** Without the condition a second pass can still change the text: the
    first pass splices a link, the second removes it. *)
Example fallback_second_pass_differs :
  let t := Js.lit "httpshttps://t.co/x://t.co/a" in
  cleanTextBasic t = Js.lit "https://t.co/a" /\ cleanTextBasic (cleanTextBasic t) = [].
Proof. vm_compute. split; reflexivity. Qed.

(** X3.  [cleanTextBasic] never invents or reorders content: the code
    units of its output that are not white space form a subsequence of
    the input; when the input has no tracking link they are exactly the
    non-white-space code units of the input. *)
Theorem fallback_keeps_visible_content t :
  visible (cleanTextBasic t) `sublist_of` t
  /\ (has_link t = false -> visible (cleanTextBasic t) = visible t).
Proof.
  split; [apply cleanTextBasic_visible_sublist|].
  intros Hl. unfold cleanTextBasic.
  rewrite visible_trim, visible_collapse_spaces, (remove_links_id t Hl). reflexivity.
Qed.

(** ** Thread reconstruction and content processing *)

Lemma insert_sorted_Permutation t l : Permutation (insert_sorted t l) (t :: l).
Proof.
  induction l as [|h l IH]; simpl; [reflexivity|].
  destruct (created_at t <=? created_at h)%Z; [reflexivity|].
  rewrite IH. apply perm_swap.
Qed.

Lemma sortThreadChronologically_Permutation tweets :
  Permutation (sortThreadChronologically tweets) tweets.
Proof.
  induction tweets as [|t tweets IH]; simpl; [reflexivity|].
  rewrite insert_sorted_Permutation, IH. reflexivity.
Qed.

Lemma insert_sorted_same_time k t l :
  List.filter (fun x => (created_at x =? k)%Z) (insert_sorted t l)
  = List.filter (fun x => (created_at x =? k)%Z) (t :: l).
Proof.
  induction l as [|h l IH]; [reflexivity|]. cbn [insert_sorted].
  destruct (Z.leb_spec (created_at t) (created_at h)) as [Hle|Hgt]; [reflexivity|].
  cbn [List.filter] in *. rewrite IH.
  destruct (Z.eqb_spec (created_at h) k) as [Hh|Hh],
           (Z.eqb_spec (created_at t) k) as [Ht|Ht]; try reflexivity. lia.
Qed.

(** X4.  [sortThreadChronologically] returns a permutation of its
    argument in non-decreasing order of creation time, and the sort is
    stable: tweets with the same creation time keep their order. *)
Theorem sort_is_stable_sorted_permutation tweets :
  Permutation (sortThreadChronologically tweets) tweets
  /\ StronglySorted chronological (sortThreadChronologically tweets)
  /\ forall k, List.filter (fun x => (created_at x =? k)%Z) (sortThreadChronologically tweets)
               = List.filter (fun x => (created_at x =? k)%Z) tweets.
Proof.
  split; [apply sortThreadChronologically_Permutation|].
  split; [apply sortThreadChronologically_sorted|].
  intros k. induction tweets as [|t tweets IH]; [reflexivity|].
  cbn [sortThreadChronologically fold_right].
  fold (sortThreadChronologically tweets).
  rewrite insert_sorted_same_time. cbn [List.filter]. rewrite IH. reflexivity.
Qed.

Lemma isPartOfThread_false tweet :
  isPartOfThread tweet = false <->
  conversation_id tweet = id tweet /\ is_root tweet = true.
Proof.
  unfold isPartOfThread, is_root, str_eqb. rewrite orb_false_iff, negb_false_iff, negb_true_iff.
  rewrite bool_decide_eq_true. tauto.
Qed.

Lemma single_branch_spec E tweet timelineData w :
  isPartOfThread tweet = false
  \/ (length (getThreadFromTimeline (conversation_id tweet) timelineData) <= 1)%nat ->
  processTwitterContent E tweet timelineData w
  = (Ok {| content := cleaned (openai E (trace w) (clean_input (text tweet) false)) (text tweet);
           firstTweetId := id tweet |},
     add_events [EvAi (clean_input (text tweet) false)] w).
Proof.
  intros Hcase. unfold processTwitterContent, try_catch, cleaned.
  destruct (isPartOfThread tweet) eqn:Hp; cbn [negb].
  - destruct Hcase as [|Hlen]; [discriminate|].
    destruct (Nat.leb_spec (length (getThreadFromTimeline (conversation_id tweet) timelineData)) 1);
      [|lia].
    unfold bind at 1. rewrite cleanAndOptimizeContent_spec. reflexivity.
  - unfold bind at 1. rewrite cleanAndOptimizeContent_spec. reflexivity.
Qed.

Lemma summarizeThread_exact E tweets w :
  summarizeThread E tweets w
  = (Ok (summarized (openai E (trace w) (summary_input tweets)) tweets),
     add_events [EvAi (summary_input tweets)] w).
Proof.
  unfold summarizeThread, summarized, first_text. unfold bind at 1. rewrite ai_call_spec.
  destruct (openai E (trace w) _); reflexivity.
Qed.

Lemma thread_branch_spec E tweet timelineData w :
  let sorted := sortThreadChronologically
                  (getThreadFromTimeline (conversation_id tweet) timelineData) in
  let summary := summarized (openai E (trace w) (summary_input sorted)) sorted in
  isPartOfThread tweet = true ->
  (2 <= length (getThreadFromTimeline (conversation_id tweet) timelineData))%nat ->
  exists p,
    processTwitterContent E tweet timelineData w
    = (Ok p, add_events [EvAi (summary_input sorted); EvAi (clean_input summary true)] w)
    /\ content p
       = cleaned (openai E (trace w ++ [EvAi (summary_input sorted)])
                    (clean_input summary true)) summary.
Proof.
  intros sorted summary Hp Hlen.
  unfold processTwitterContent, try_catch. rewrite Hp. cbn [negb].
  destruct (Nat.leb_spec (length (getThreadFromTimeline (conversation_id tweet) timelineData)) 1);
    [lia|].
  unfold bind at 1. fold sorted. rewrite summarizeThread_exact. fold summary.
  unfold bind at 1. rewrite cleanAndOptimizeContent_spec, add_events_app.
  eexists. split; reflexivity.
Qed.

(** X5.  A tweet that is not part of a thread (its conversation id is its
    id and it has no "replied_to" reference), or whose conversation has
    at most one tweet in the fetched timeline, is processed alone: one
    request to the language service with the tweet's own text, and
    [firstTweetId] is the tweet's own id, never the conversation id. *)
Theorem lone_tweet_is_processed_alone E tweet timelineData w :
  (conversation_id tweet = id tweet /\ is_root tweet = true)
  \/ (length (getThreadFromTimeline (conversation_id tweet) timelineData) <= 1)%nat ->
  exists p,
    processTwitterContent E tweet timelineData w
    = (Ok p, add_events [EvAi (clean_input (text tweet) false)] w)
    /\ firstTweetId p = id tweet
    /\ content p = cleaned (openai E (trace w) (clean_input (text tweet) false)) (text tweet).
Proof.
  intros Hcase. rewrite single_branch_spec.
  - eexists. split; [reflexivity|]. split; reflexivity.
  - destruct Hcase as [H|H]; [left; apply isPartOfThread_false, H | right; exact H].
Qed.

Lemma lone_tweet_is_processed_alone_witness :
  let E := env_ai AiThrows in
  exists p,
    processTwitterContent E thread_root [thread_root] world0
    = (Ok p, add_events [EvAi (clean_input (text thread_root) false)] world0)
    /\ firstTweetId p = id thread_root
    /\ content p = cleaned (openai E (trace world0) (clean_input (text thread_root) false))
                     (text thread_root).
Proof.
  intros E. apply (lone_tweet_is_processed_alone E thread_root [thread_root] world0).
  right. vm_compute. lia.
Defined.

Lemma sortThreadChronologically_same_time k tweets :
  List.filter (fun x => (created_at x =? k)%Z) (sortThreadChronologically tweets)
  = List.filter (fun x => (created_at x =? k)%Z) tweets.
Proof.
  induction tweets as [|t tweets IH]; [reflexivity|].
  cbn [sortThreadChronologically fold_right].
  fold (sortThreadChronologically tweets).
  rewrite insert_sorted_same_time. cbn [List.filter]. rewrite IH. reflexivity.
Qed.

Lemma getThreadFromTimeline_filter c timelineData :
  getThreadFromTimeline c timelineData
  = List.filter (fun t => bool_decide (conversation_id t = c)) timelineData.
Proof. reflexivity. Qed.

(** X6.  For a thread member with at least two tweets of its conversation
    in the fetched window, exactly two requests go to the language
    service, in this order: the summary of a list of tweets, then the
    cleaning of that summary as a thread summary; the content returned
    is the cleaned summary.  The tweets summarized are exactly the
    tweets of the window that belong to the candidate's conversation,
    each as often as the window holds it, in non-decreasing order of
    creation time, tweets of the same time in the order of the window. *)
Theorem thread_is_summarized_then_cleaned E tweet timelineData w :
  let conversation :=
    List.filter (fun t => bool_decide (conversation_id t = conversation_id tweet))
                timelineData in
  ~ no_reply_ref tweet \/ conversation_id tweet <> id tweet ->
  two_in_conversation (conversation_id tweet) timelineData ->
  exists sorted p,
    let summary := summarized (openai E (trace w) (summary_input sorted)) sorted in
    processTwitterContent E tweet timelineData w
    = (Ok p, add_events [EvAi (summary_input sorted); EvAi (clean_input summary true)] w)
    /\ content p
       = cleaned (openai E (trace w ++ [EvAi (summary_input sorted)])
                    (clean_input summary true)) summary
    /\ Permutation sorted conversation
    /\ StronglySorted chronological sorted
    /\ (forall k, List.filter (fun x => (created_at x =? k)%Z) sorted
                  = List.filter (fun x => (created_at x =? k)%Z) conversation)
    /\ (forall t, In t sorted <->
                  In t timelineData /\ conversation_id t = conversation_id tweet).
Proof.
  intros conversation Hp Htwo.
  apply isPartOfThread_spec in Hp. apply getThreadFromTimeline_two in Htwo.
  destruct (thread_branch_spec E tweet timelineData w Hp Htwo) as (p & Hrun & Hc).
  rewrite getThreadFromTimeline_filter in Hrun, Hc. fold conversation in Hrun, Hc.
  exists (sortThreadChronologically conversation), p. cbv zeta.
  split; [exact Hrun|]. split; [exact Hc|].
  split; [apply sortThreadChronologically_Permutation|].
  split; [apply sortThreadChronologically_sorted|].
  split; [intros k; apply sortThreadChronologically_same_time|].
  intros t. rewrite sortThreadChronologically_In. unfold conversation.
  rewrite filter_In, bool_decide_eq_true. tauto.
Qed.

Lemma thread_is_summarized_then_cleaned_witness :
  let E := env_ai AiThrows in
  let conversation :=
    List.filter (fun t => bool_decide (conversation_id t = conversation_id thread_mid))
                thread_timeline in
  exists sorted p,
    let summary := summarized (openai E (trace world0) (summary_input sorted)) sorted in
    processTwitterContent E thread_mid thread_timeline world0
    = (Ok p, add_events [EvAi (summary_input sorted); EvAi (clean_input summary true)] world0)
    /\ content p
       = cleaned (openai E (trace world0 ++ [EvAi (summary_input sorted)])
                    (clean_input summary true)) summary
    /\ Permutation sorted conversation
    /\ StronglySorted chronological sorted
    /\ (forall k, List.filter (fun x => (created_at x =? k)%Z) sorted
                  = List.filter (fun x => (created_at x =? k)%Z) conversation)
    /\ (forall t, In t sorted <->
                  In t thread_timeline /\ conversation_id t = conversation_id thread_mid).
Proof.
  intros E.
  apply (thread_is_summarized_then_cleaned E thread_mid thread_timeline world0).
  - right. vm_compute. intros H. discriminate H.
  - exists [], thread_last, [], thread_mid, [thread_root].
    split; [reflexivity|]. split; reflexivity.
Defined.

(** A window with a tweet of another conversation in the middle of the
    thread: it is not summarized, and the three tweets of the thread
    are, oldest first. *)
Example thread_summary_skips_other_conversations :
  let E := env_ai (AiText (Js.lit "summary")) in
  let other := tweet_of "500" "unrelated" 15 "500" None in
  trace (processTwitterContent E thread_mid
           [thread_last; other; thread_mid; thread_root] world0).2
  = [EvAi (summary_input [thread_root; thread_mid; thread_last]);
     EvAi (clean_input (Js.lit "summary") true)].
Proof. vm_compute. reflexivity. Qed.



(** ** Loading and recording *)

Lemma in_slice_neg {A} cap (l : list A) x : In x (slice_neg cap l) -> In x l.
Proof.
  unfold slice_neg. destruct cap; [auto|]. intros H.
  rewrite <- (firstn_skipn (length l - S cap) l). apply in_or_app. right. exact H.
Qed.

(** X8.  [loadPostedTweets] and [loadPostedVideos] never throw and change
    nothing; they return exactly the ids of the records of the ledger
    file, and the empty set when the file cannot be read, is not valid
    JSON, or holds a JSON value that is not an array. *)
Theorem load_fails_soft f w :
  exists S : gset Js.str,
    loadPosted f w = (Ok S, w)
    /\ (forall x, x ∈ S <-> exists r, In r (stored (ledger f w)) /\ itemId r = x)
    /\ match ledger f w with
       | Records _ => True
       | Unreadable | Unparsable | NotAnArray => S = ∅
       end.
Proof.
  rewrite loadPosted_spec. eexists. split; [reflexivity|]. split.
  - intros x. rewrite elem_of_list_to_set, list_elem_of_In. unfold stored_ids.
    rewrite in_map_iff. split; intros (r & H1 & H2); exists r; auto.
  - destruct (ledger f w); auto.
Qed.

(** X9.  Record then load.  After a record operation whose write
    succeeds on a ledger that is not a non-array JSON value, the ids
    loaded from the ledger contain the recorded id; they contain nothing
    but that id and ids stored before; and every id stored before is
    still there when the ledger was below its capacity. *)
Theorem record_then_load f cap E record w :
  (0 < cap)%nat ->
  writeFile_ok E f = true ->
  ledger f w <> NotAnArray ->
  let w' := (savePosted f cap E record w).2 in
  exists S : gset Js.str,
    loadPosted f w' = (Ok S, w')
    /\ itemId record ∈ S
    /\ (forall x, x ∈ S -> x = itemId record \/ In x (stored_ids (ledger f w)))
    /\ ((length (stored (ledger f w)) < cap)%nat ->
        forall x, In x (stored_ids (ledger f w)) -> x ∈ S).
Proof.
  intros Hc Hok Hn w'. rewrite loadPosted_spec. eexists. split; [reflexivity|].
  unfold w'. rewrite savePosted_spec. cbn [snd].
  rewrite ledger_set_ledger, (write_outcome_ok _ _ Hok).
  split; [|split].
  - apply elem_of_list_to_set, list_elem_of_In, after_save_recorded; assumption.
  - intros x Hx. apply elem_of_list_to_set, list_elem_of_In in Hx.
    unfold stored_ids in *. apply in_map_iff in Hx as (r & <- & Hr).
    assert (Hin : In r (stored (ledger f w) ++ [record])).
    { unfold after_save in Hr. destruct (ledger f w) as [| | |l]; try contradiction;
        cbn [stored] in *;
        match type of Hr with
        | In _ (if ?b then _ else _) => destruct b; [apply in_slice_neg in Hr|]
        end; exact Hr. }
    apply in_app_or in Hin as [Hin | [<- | []]]; [right | left; reflexivity].
    apply in_map. exact Hin.
  - intros Hlen x Hx. apply elem_of_list_to_set, list_elem_of_In.
    unfold stored_ids in *. apply in_map_iff in Hx as (r & <- & Hr). apply in_map.
    destruct (ledger f w) as [| | |l]; try contradiction. cbn [stored] in *.
    unfold after_save. cbn [stored].
    destruct (Nat.ltb_spec cap (length (l ++ [record]))) as [Hlt|_].
    + rewrite length_app in Hlt. simpl in Hlt. lia.
    + apply in_or_app. left. exact Hr.
Qed.

Lemma record_then_load_witness :
  let w' := (savePosted POSTED_TWEETS_FILE 3 env_ok (rec_of "b")
               (with_tweets (Records [rec_of "a"]) world0)).2 in
  exists S : gset Js.str,
    loadPosted POSTED_TWEETS_FILE w' = (Ok S, w')
    /\ itemId (rec_of "b") ∈ S
    /\ (forall x, x ∈ S ->
          x = itemId (rec_of "b")
          \/ In x (stored_ids (ledger POSTED_TWEETS_FILE
                                 (with_tweets (Records [rec_of "a"]) world0))))
    /\ ((length (stored (ledger POSTED_TWEETS_FILE
                           (with_tweets (Records [rec_of "a"]) world0))) < 3)%nat ->
        forall x, In x (stored_ids (ledger POSTED_TWEETS_FILE
                                      (with_tweets (Records [rec_of "a"]) world0))) ->
                  x ∈ S).
Proof.
  apply (record_then_load POSTED_TWEETS_FILE 3 env_ok (rec_of "b")
           (with_tweets (Records [rec_of "a"]) world0)).
  - lia.
  - reflexivity.
  - discriminate.
Defined.

(** X10.  Record on a damaged ledger, and damage by a record.  When the
    ledger file cannot be read or is not valid JSON, a successful record
    operation replaces it by an array holding the new record alone (what
    the file held is gone).  When the file holds a JSON value that is
    not an array, or when the write is rejected before the file is
    opened, the record operation changes nothing at all.  When the write
    is rejected after the file was opened, and so truncated, the record
    operation still returns normally, but every record is lost: the
    file is left unparsable and the next load gives the empty set. *)
Theorem record_on_damaged_ledger :
  (forall E record w,
     writeFile_ok E POSTED_TWEETS_FILE = true ->
     posted_tweets w = Unreadable \/ posted_tweets w = Unparsable ->
     posted_tweets (savePostedTweet E record w).2 = Records [record])
  /\ (forall E record w,
     writeFile_ok E POSTED_VIDEOS_FILE = true ->
     posted_videos w = Unreadable \/ posted_videos w = Unparsable ->
     posted_videos (savePostedVideo E record w).2 = Records [record])
  /\ (forall f cap E record w,
     ledger f w = NotAnArray
     \/ (writeFile_ok E f = false /\ writeFile_opened E f = false) ->
     (savePosted f cap E record w).2 = w)
  /\ (forall f cap E record w,
     ledger f w <> NotAnArray ->
     writeFile_ok E f = false -> writeFile_opened E f = true ->
     savePosted f cap E record w = (Ok tt, set_ledger f Unparsable w)
     /\ stored (ledger f (savePosted f cap E record w).2) = []
     /\ loadPosted f (savePosted f cap E record w).2
        = (Ok ∅, (savePosted f cap E record w).2)).
Proof.
  split; [|split; [|split]].
  - intros E record w Hok Hc. unfold savePostedTweet. rewrite savePosted_spec.
    cbn [snd set_ledger posted_tweets ledger]. rewrite (write_outcome_ok _ _ Hok).
    destruct Hc as [-> | ->]; reflexivity.
  - intros E record w Hok Hc. unfold savePostedVideo. rewrite savePosted_spec.
    cbn [snd set_ledger posted_videos ledger]. rewrite (write_outcome_ok _ _ Hok).
    destruct Hc as [-> | ->]; reflexivity.
  - intros f cap E record w Hc. rewrite savePosted_spec. cbn [snd].
    assert (Hsame : after_save cap (write_outcome E f) record (ledger f w) = ledger f w).
    { unfold after_save, write_outcome. destruct Hc as [-> | [-> ->]]; [reflexivity|].
      destruct (ledger f w); reflexivity. }
    rewrite Hsame. apply set_ledger_same.
  - intros f cap E record w Hn Hok Hop.
    assert (Hsave : savePosted f cap E record w = (Ok tt, set_ledger f Unparsable w)).
    { rewrite savePosted_spec. unfold after_save, write_outcome. rewrite Hok, Hop.
      destruct (ledger f w); [reflexivity | reflexivity | contradiction | reflexivity]. }
    rewrite Hsave. cbn [snd]. split; [reflexivity|].
    rewrite ledger_set_ledger. split; [reflexivity|].
    rewrite loadPosted_spec, ledger_set_ledger. reflexivity.
Qed.

(** A ledger of two records, and a write that fails after the file was
    opened: the record operation returns, and the ledger is lost. *)
Example record_with_torn_write :
  let E := with_torn_write env_ok in
  let w := with_tweets (Records [rec_of "a"; rec_of "b"]) world0 in
  savePostedTweet E (rec_of "c") w = (Ok tt, with_tweets Unparsable world0)
  /\ loadPostedTweets (with_tweets Unparsable world0)
     = (Ok ∅, with_tweets Unparsable world0).
Proof. vm_compute. split; reflexivity. Qed.

(** ** Selection of the image post *)



Lemma first_image_post_none S mediaData tweets :
  AutoPostDaily.first_image_post S mediaData tweets = None ->
  forall t, In t tweets -> AutoPostDaily.image_of S mediaData t = None.
Proof.
  induction tweets as [|t tweets IH]; simpl; [intros _ ? []|].
  destruct (AutoPostDaily.image_of S mediaData t) eqn:Hi; [discriminate|].
  intros H t' [<- | Hin]; auto.
Qed.



(** X12.  [getLatestImagePost] fails in exactly three ways, each without
    changing anything: the error of the timeline request is passed on;
    an empty timeline gives 'No tweets found'; a timeline in which every
    tweet is filtered out gives 'No valid image posts found'. *)
Theorem latest_image_post_failures E alreadyPosted w e w' :
  AutoPostDaily.getLatestImagePost E alreadyPosted w = (Throw e, w') ->
  w' = w
  /\ (userTimeline E = Throw e
      \/ (exists mediaData, userTimeline E = Ok ([], mediaData)) /\ e = NoTweetsFound
      \/ (exists tweetData mediaData,
            userTimeline E = Ok (tweetData, mediaData) /\ tweetData <> []
            /\ forall t, In t tweetData ->
                 AutoPostDaily.image_of alreadyPosted mediaData t = None)
         /\ e = NoValidImagePosts).
Proof.
  unfold AutoPostDaily.getLatestImagePost.
  destruct (userTimeline E) as [[tweetData mediaData]|e0].
  - destruct tweetData as [|t0 tweetData].
    + intros [= <- <-]. split; [reflexivity|]. right. left. eauto.
    + destruct (AutoPostDaily.first_image_post alreadyPosted mediaData (t0 :: tweetData))
        as [[tweet imageUrl]|] eqn:Hf; [discriminate|].
      intros [= <- <-]. split; [reflexivity|]. right. right. split; [|reflexivity].
      exists (t0 :: tweetData), mediaData. split; [reflexivity|]. split; [discriminate|].
      apply first_image_post_none, Hf.
  - intros [= <- <-]. split; [reflexivity|]. left. reflexivity.
Qed.

Lemma latest_image_post_failures_witness :
  let t1 := tweet_of "1001" "RT @someone gm" 0 "1001" None in
  let E := env_image [t1] [photo_of "1001"] (Ok (Js.lit "0xabc")) true in
  world0 = world0
  /\ (userTimeline E = Throw NoValidImagePosts
      \/ (exists mediaData, userTimeline E = Ok ([], mediaData))
         /\ NoValidImagePosts = NoTweetsFound
      \/ (exists tweetData mediaData,
            userTimeline E = Ok (tweetData, mediaData) /\ tweetData <> []
            /\ forall t, In t tweetData -> AutoPostDaily.image_of ∅ mediaData t = None)
         /\ NoValidImagePosts = NoValidImagePosts).
Proof.
  intros t1 E.
  apply (latest_image_post_failures E ∅ world0 NoValidImagePosts world0).
  vm_compute. reflexivity.
Defined.

(** ** One download attempt, the acquisition, the hand-off *)

Lemma strip_prefix_self p x : Js.strip_prefix p (p ++ x) = Some x.
Proof.
  induction p as [|a p IH]; simpl; [destruct x; reflexivity|].
  rewrite N.eqb_refl. exact IH.
Qed.

Lemma startsWith_app p x : Js.startsWith (p ++ x) p = true.
Proof.
  unfold Js.startsWith. apply bool_decide_eq_true_2. rewrite strip_prefix_self. eauto.
Qed.

Lemma endsWith_app p x : Js.endsWith (p ++ x) x = true.
Proof. unfold Js.endsWith. rewrite rev_app_distr. apply startsWith_app. Qed.

(** X13.  One attempt of the downloader.  A spawn error or a non-zero
    exit code makes the attempt fail, whatever files exist.  When the
    attempt succeeds the exit code was 0, and the two paths returned are
    files present in the download directory, named after the video id:
    the video ends in .mp4, .webm or .mkv, the thumbnail in .jpg; when
    the two expected files [id.mp4] and [id.jpg] exist, they are the
    ones returned. *)
Theorem download_attempt_is_checked E videoId formatString w :
  let run := YoutubeShorts.tryDownloadWithFormat E videoId formatString w in
  (yt_dlp E (trace w) videoId formatString (downloads w) = SpawnError ->
   run.1 = Throw YtDlpSpawnError /\ downloads run.2 = downloads w)
  /\ (forall code files,
        yt_dlp E (trace w) videoId formatString (downloads w) = Closed code files ->
        downloads run.2 = files
        /\ (code <> 0%Z -> run.1 = Throw (YtDlpFailed code))
        /\ (code = 0%Z -> In (videoId ++ Js.lit ".mp4") files ->
            In (videoId ++ Js.lit ".jpg") files ->
            run.1 = Ok {| YoutubeShorts.videoPath := videoId ++ Js.lit ".mp4";
                          YoutubeShorts.thumbnailPath := videoId ++ Js.lit ".jpg" |}))
  /\ (forall d, run.1 = Ok d ->
        exists files,
          yt_dlp E (trace w) videoId formatString (downloads w) = Closed 0 files
          /\ In (YoutubeShorts.videoPath d) files
          /\ In (YoutubeShorts.thumbnailPath d) files
          /\ YoutubeShorts.is_video_file videoId (YoutubeShorts.videoPath d) = true
          /\ YoutubeShorts.is_thumb_file videoId (YoutubeShorts.thumbnailPath d) = true).
Proof.
  intros run. unfold run, YoutubeShorts.tryDownloadWithFormat, bind, get, emit.
  cbn [fst snd trace downloads].
  destruct (yt_dlp E (trace w) videoId formatString (downloads w)) as [|code files].
  - split; [intros _; split; reflexivity|]. split; [discriminate|]. discriminate.
  - split; [discriminate|]. cbv beta iota.
    destruct (Z.eqb_spec code 0) as [->|Hne].
    2:{ split.
        - intros c f [= <- <-]. split; [reflexivity|]. split; [reflexivity | contradiction].
        - discriminate. }
    destruct (bool_decide (videoId ++ Js.lit ".mp4" ∈ files)) eqn:Hv;
    destruct (bool_decide (videoId ++ Js.lit ".jpg" ∈ files)) eqn:Ht; cbn [andb].
    1:{ apply bool_decide_eq_true in Hv, Ht. apply list_elem_of_In in Hv, Ht. split.
        - intros c f [= <- <-]. split; [reflexivity|]. split; [contradiction | reflexivity].
        - intros d [= <-]. exists files. cbn.
          unfold YoutubeShorts.is_video_file, YoutubeShorts.is_thumb_file.
          rewrite !startsWith_app, !endsWith_app. auto. }
    all: assert (Hexp : ~ (In (videoId ++ Js.lit ".mp4") files
                           /\ In (videoId ++ Js.lit ".jpg") files))
      by (intros [H1 H2]; apply list_elem_of_In in H1, H2;
          first [apply bool_decide_eq_false in Hv; contradiction
                | apply bool_decide_eq_false in Ht; contradiction]).
    all: split;
      [intros c f [= <- <-]; split; [destruct (readdir_ok E);
         [destruct (find (YoutubeShorts.is_video_file videoId) files) as [[|? ?]|];
          [| destruct (find (YoutubeShorts.is_thumb_file videoId) files) as [[|? ?]|] |]
         |]; reflexivity|];
       split; [contradiction | intros _ H1 H2; exfalso; apply Hexp; auto]|].
    all: destruct (readdir_ok E); [|discriminate].
    all: destruct (find (YoutubeShorts.is_video_file videoId) files) as [[|c v]|] eqn:Hfv;
      try discriminate.
    all: destruct (find (YoutubeShorts.is_thumb_file videoId) files) as [[|c' t]|] eqn:Hft;
      try discriminate.
    all: intros d [= <-]; exists files; cbn;
      apply find_some in Hfv as [? ?]; apply find_some in Hft as [? ?]; auto.
Qed.

Lemma take_app_exact {A} (l1 : list A) x l2 :
  take (length l1 + 1) (l1 ++ x :: l2) = l1 ++ [x].
Proof.
  induction l1 as [|a l1 IH]; simpl; [reflexivity|]. rewrite IH. reflexivity.
Qed.

(** X14.  The acquisition touches nothing but the download directory and
    calls nothing but the downloader: ledgers and run log are as before,
    the trace grows by the first [k <= 5] strategies for this video id
    and by nothing else, and on success the two paths returned are files
    of the download directory. *)
Theorem acquisition_only_downloads E videoId w r w' :
  YoutubeShorts.downloadShortVideo E videoId w = (r, w') ->
  posted_tweets w' = posted_tweets w
  /\ posted_videos w' = posted_videos w
  /\ run_log w' = run_log w
  /\ (exists k, (k <= 5)%nat
        /\ trace w' = trace w ++ map (EvDownload videoId)
                                     (take k YoutubeShorts.formatStrategies))
  /\ (forall d, r = Ok d ->
        In (YoutubeShorts.videoPath d) (downloads w')
        /\ In (YoutubeShorts.thumbnailPath d) (downloads w')).
Proof.
  intros Hrun.
  destruct (downloadShortVideo_frame E videoId w r w' Hrun) as (files & evs & Hw & _ & Hin).
  split; [rewrite Hw; reflexivity|]. split; [rewrite Hw; reflexivity|].
  split; [rewrite Hw; reflexivity|]. split; [|rewrite Hw; exact Hin].
  unfold YoutubeShorts.downloadShortVideo, bind in Hrun.
  destruct (mkdir_ok E); cbv beta iota delta [ret throw] in Hrun.
  - apply try_strategies_spec in Hrun. destruct r as [d|e].
    + destruct Hrun as (failed & fmt & later & w1 & Hs & _ & _ & Htr).
      exists (length failed + 1)%nat. split.
      * apply (f_equal (@length _)) in Hs. rewrite length_app in Hs. simpl in Hs. lia.
      * rewrite Htr, Hs, take_app_exact. reflexivity.
    + destruct Hrun as (_ & Htr & _). exists 5%nat. split; [lia | exact Htr].
  - injection Hrun as <- <-. exists 0%nat. split; [lia|]. simpl. rewrite app_nil_r. reflexivity.
Qed.

Lemma acquisition_only_downloads_witness :
  let E := env_video dl_third (Ok (Js.lit "0xabc")) true in
  let run := YoutubeShorts.downloadShortVideo E (Js.lit "abc") world0 in
  posted_tweets run.2 = posted_tweets world0
  /\ posted_videos run.2 = posted_videos world0
  /\ run_log run.2 = run_log world0
  /\ (exists k, (k <= 5)%nat
        /\ trace run.2 = trace world0 ++ map (EvDownload (Js.lit "abc"))
                                             (take k YoutubeShorts.formatStrategies))
  /\ (forall d, run.1 = Ok d ->
        In (YoutubeShorts.videoPath d) (downloads run.2)
        /\ In (YoutubeShorts.thumbnailPath d) (downloads run.2)).
Proof.
  intros E run.
  apply (acquisition_only_downloads E (Js.lit "abc") world0 run.1 run.2).
  apply surjective_pairing.
Defined.

Lemma after_cleanup_subset E videoPath thumbnailPath files f :
  In f (after_cleanup E videoPath thumbnailPath files) -> In f files.
Proof.
  unfold after_cleanup.
  destruct (bool_decide (videoPath ∈ files) && unlink_ok E videoPath); [|auto].
  destruct (bool_decide (thumbnailPath ∈ _) && unlink_ok E thumbnailPath).
  - intros [[H _]%filter_In _]%filter_In. exact H.
  - intros [H _]%filter_In. exact H.
Qed.

Lemma after_cleanup_keeps E videoPath thumbnailPath files f :
  In f files -> f <> videoPath -> f <> thumbnailPath ->
  In f (after_cleanup E videoPath thumbnailPath files).
Proof.
  intros Hin Hv Ht.
  assert (Hkeep : forall p l, In f l -> f <> p ->
            In f (List.filter (fun g => negb (str_eqb g p)) l)).
  { intros p l Hl Hp. apply filter_In. split; [exact Hl|].
    unfold str_eqb. rewrite bool_decide_eq_false_2 by exact Hp. reflexivity. }
  unfold after_cleanup.
  destruct (bool_decide (videoPath ∈ files) && unlink_ok E videoPath); [|exact Hin].
  destruct (bool_decide (thumbnailPath ∈ _) && unlink_ok E thumbnailPath); auto.
Qed.

(** X15.  The hand-off of the video path deletes nothing but the two
    files it was given and creates none: every other file of the
    download directory is still there when it returns or throws, and it
    leaves the ledgers and the run log alone. *)
Theorem handoff_deletes_only_its_files E video videoPath thumbnailPath w r w' :
  YoutubeShorts.createZoraCoinWithVideo E video videoPath thumbnailPath w = (r, w') ->
  posted_tweets w' = posted_tweets w
  /\ posted_videos w' = posted_videos w
  /\ run_log w' = run_log w
  /\ (forall f, In f (downloads w') -> In f (downloads w))
  /\ (forall f, In f (downloads w) -> f <> videoPath -> f <> thumbnailPath ->
        In f (downloads w')).
Proof.
  destruct (createZoraCoinWithVideo_spec E video videoPath thumbnailPath w)
    as [[_ ->] | (_ & r0 & evs & i & -> & _)]; intros [= <- <-].
  - auto.
  - cbn [posted_tweets posted_videos run_log downloads set_downloads add_events].
    split; [reflexivity|]. split; [reflexivity|]. split; [reflexivity|].
    split; [apply after_cleanup_subset | apply after_cleanup_keeps].
Qed.

Lemma handoff_deletes_only_its_files_witness :
  let E := env_video dl_ok (Ok (Js.lit "0xabc")) true in
  let w := set_downloads [Js.lit "other.mp4"; Js.lit "abc.mp4"; Js.lit "abc.jpg"] world0 in
  let run := YoutubeShorts.createZoraCoinWithVideo E video_abc
               (Js.lit "abc.mp4") (Js.lit "abc.jpg") w in
  posted_tweets run.2 = posted_tweets w
  /\ posted_videos run.2 = posted_videos w
  /\ run_log run.2 = run_log w
  /\ (forall f, In f (downloads run.2) -> In f (downloads w))
  /\ (forall f, In f (downloads w) -> f <> Js.lit "abc.mp4" -> f <> Js.lit "abc.jpg" ->
        In f (downloads run.2)).
Proof.
  intros E w run.
  apply (handoff_deletes_only_its_files E video_abc (Js.lit "abc.mp4") (Js.lit "abc.jpg")
           w run.1 run.2).
  apply surjective_pairing.
Defined.

(** X16.  A hand-off whose video file is missing.  With the clients set
    up and the video file absent from the download directory, the
    hand-off throws after the caption request without calling the minting
    subsystem, and deletes nothing: the deletion of the missing video
    fails first, so the thumbnail stays. *)
Theorem handoff_with_missing_video E video videoPath thumbnailPath w :
  wallet_ok E = true ->
  ~ In videoPath (downloads w) ->
  YoutubeShorts.createZoraCoinWithVideo E video videoPath thumbnailPath w
  = (Throw (FsError "open"),
     add_events [EvAi (YoutubeShorts.caption_input (title video) (description video))] w).
Proof.
  intros Hwallet Hmissing.
  assert (Hdec : bool_decide (videoPath ∈ downloads w) = false).
  { apply bool_decide_eq_false_2. intros H. apply Hmissing, list_elem_of_In, H. }
  unfold YoutubeShorts.createZoraCoinWithVideo, client_setup, bind. rewrite Hwallet.
  cbv beta iota delta [ret]. unfold try_finally, try_catch at 1.
  unfold YoutubeShorts.video_mint. unfold bind at 1.
  destruct (optimizeContentWithAI_spec E (title video) (description video) w) as [c ->].
  unfold bind at 1. unfold YoutubeShorts.readFile at 1.
  change (downloads (add_events ?e w)) with (downloads w). rewrite Hdec.
  unfold throw. rewrite cleanup_spec.
  change (downloads (add_events ?e w)) with (downloads w).
  unfold after_cleanup. rewrite Hdec. cbn [andb].
  rewrite <- (set_downloads_same (add_events _ w)) at 2. reflexivity.
Qed.

Lemma handoff_with_missing_video_witness :
  let E := env_video dl_ok (Ok (Js.lit "0xabc")) true in
  let w := set_downloads [Js.lit "abc.jpg"] world0 in
  YoutubeShorts.createZoraCoinWithVideo E video_abc (Js.lit "abc.mp4") (Js.lit "abc.jpg") w
  = (Throw (FsError "open"),
     add_events [EvAi (YoutubeShorts.caption_input (title video_abc) (description video_abc))] w).
Proof.
  intros E w.
  apply (handoff_with_missing_video E video_abc (Js.lit "abc.mp4") (Js.lit "abc.jpg") w).
  - reflexivity.
  - vm_compute. intros [H | []]. discriminate H.
Defined.

(** ** Whole runs: calls, run log, isolation *)

Lemma quiet_no_mint S evs : quiet S evs -> forallb (fun ev => negb (is_mint ev)) evs = true.
Proof.
  intros Hq. apply forallb_forall. intros ev Hin.
  destruct (Hq ev Hin) as [-> _]. reflexivity.
Qed.

Lemma shape_mint_is_last E S f cap saves old new evs o :
  RunShape E S f cap saves old new evs o ->
  forallb (fun ev => negb (is_mint ev)) evs = true
  \/ exists evs0 src req tx,
       evs = evs0 ++ [EvMint src req tx]
       /\ forallb (fun ev => negb (is_mint ev)) evs0 = true.
Proof.
  intros [Hq _ _ | src req evs0 -> Hq _ _ _ | src req tx evs0 record -> Hq _ _ _ _ _].
  - left. apply (quiet_no_mint S), Hq.
  - right. exists evs0, src, req, None. split; [reflexivity | apply (quiet_no_mint S), Hq].
  - right. exists evs0, src, req, (Some tx).
    split; [reflexivity | apply (quiet_no_mint S), Hq].
Qed.

(** X17.  A run of either program calls the minting subsystem at most
    once, and that call is the last external call of the run: no request
    to the language service and no download follows it. *)
Theorem at_most_one_mint_and_it_is_last :
  (forall E w o w',
     AutoPostDaily.main E w = (o, w') ->
     exists evs, trace w' = trace w ++ evs
       /\ (forallb (fun ev => negb (is_mint ev)) evs = true
           \/ exists evs0 src req tx,
                evs = evs0 ++ [EvMint src req tx]
                /\ forallb (fun ev => negb (is_mint ev)) evs0 = true))
  /\ (forall E arg w o w',
     YoutubeShorts.main E arg w = (o, w') ->
     exists evs, trace w' = trace w ++ evs
       /\ (forallb (fun ev => negb (is_mint ev)) evs = true
           \/ exists evs0 src req tx,
                evs = evs0 ++ [EvMint src req tx]
                /\ forallb (fun ev => negb (is_mint ev)) evs0 = true)).
Proof.
  split.
  - intros E w o w' Hrun. apply image_main_shape in Hrun as (evs & Htr & _ & _ & Hs).
    exists evs. split; [exact Htr|]. exact (shape_mint_is_last _ _ _ _ _ _ _ _ _ Hs).
  - intros E arg w o w' Hrun. apply video_main_shape in Hrun as (evs & Htr & _ & Hs).
    exists evs. split; [exact Htr|]. exact (shape_mint_is_last _ _ _ _ _ _ _ _ _ Hs).
Qed.

(** How [main] ends, from the outcome of its [try] block. *)
Lemma main_wrapper_log E (r : Res unit) w1 o w' :
  (match r with
   | Ok _ => (Completed, w1)
   | Throw _ =>
       match appendLog E FAILED_ENTRY w1 with
       | (Ok _, w'') => (Exited 1, w'')
       | (Throw e, w'') => (Rejected e, w'')
       end
   end) = (o, w') ->
  match r with
  | Ok _ => o = Completed /\ w' = w1
  | Throw _ =>
      (o = Exited 1 /\ w' = add_log [FAILED_ENTRY] w1)
      \/ (o = Rejected (FsError "open") /\ w' = w1)
  end.
Proof.
  destruct r as [[]|e].
  - intros [= <- <-]. auto.
  - rewrite appendLog_spec. destruct (appendFile_ok E FAILED_ENTRY); intros [= <- <-]; auto.
Qed.

Lemma try_log_cases E x W (r : Res unit) w1 :
  (r, w1) = appendLog E (SUCCESS_ENTRY x) W ->
  (r = Ok tt /\ w1 = add_log [SUCCESS_ENTRY x] W) \/ (exists e, r = Throw e /\ w1 = W).
Proof.
  rewrite appendLog_spec. destruct (appendFile_ok E (SUCCESS_ENTRY x)); intros [= -> ->]; eauto.
Qed.

Lemma image_main_log E w o w' :
  AutoPostDaily.main E w = (o, w') ->
  exists evs, trace w' = trace w ++ evs /\ log_matches o (run_log w) (run_log w') evs.
Proof.
  unfold AutoPostDaily.main.
  destruct (AutoPostDaily.main_try E w) as [r w1] eqn:Htry.
  change (Build_LogEntry FAILED None) with FAILED_ENTRY.
  intros Hmain. apply main_wrapper_log in Hmain.
  apply image_main_try_shape in Htry as (evs & _ & Hcases). cbv zeta in Hcases.
  destruct Hcases as [(e & -> & ->) | [(e & post & req & _ & -> & ->)
                                      | (post & req & tx & record & _ & _ & Hlog)]].
  - exists evs. destruct Hmain as [[-> ->] | [-> ->]]; split; try reflexivity.
    split; reflexivity.
  - exists (evs ++ [EvMint (id post) req None]).
    destruct Hmain as [[-> ->] | [-> ->]]; split; try reflexivity. split; reflexivity.
  - exists (evs ++ [EvMint (id post) req (Some tx)]).
    apply try_log_cases in Hlog as [[-> ->] | (e & -> & ->)].
    + destruct Hmain as [-> ->]. split; [reflexivity|].
      exists (id post), req, tx. split; [reflexivity|]. apply in_or_app. right. simpl. auto.
    + destruct Hmain as [[-> ->] | [-> ->]]; split; try reflexivity. split; reflexivity.
Qed.

Lemma video_main_log E arg w o w' :
  YoutubeShorts.main E arg w = (o, w') ->
  exists evs, trace w' = trace w ++ evs /\ log_matches o (run_log w) (run_log w') evs.
Proof.
  unfold YoutubeShorts.main.
  destruct (YoutubeShorts.main_try E arg w) as [r w1] eqn:Htry.
  change (Build_LogEntry FAILED None) with FAILED_ENTRY.
  intros Hmain. apply main_wrapper_log in Hmain.
  apply video_main_try_shape in Htry
    as [(e & -> & ->) | (video & files & evs & _ & _ & Hcases)].
  { exists []. rewrite app_nil_r.
    destruct Hmain as [[-> ->] | [-> ->]]; split; try reflexivity. split; reflexivity. }
  destruct Hcases as [(e & -> & ->) | [(e & req & -> & ->)
                                      | (req & tx & record & _ & Hlog)]].
  - exists evs. destruct Hmain as [[-> ->] | [-> ->]]; split; try reflexivity.
    split; reflexivity.
  - exists (evs ++ [EvMint (vid video) req None]).
    destruct Hmain as [[-> ->] | [-> ->]]; split; try reflexivity. split; reflexivity.
  - exists (evs ++ [EvMint (vid video) req (Some tx)]).
    apply try_log_cases in Hlog as [[-> ->] | (e & -> & ->)].
    + destruct Hmain as [-> ->]. unfold video_world.
      split; [destruct (is_latest arg); reflexivity|].
      exists (vid video), req, tx.
      split; [destruct (is_latest arg); reflexivity|]. apply in_or_app. right. simpl. auto.
    + unfold video_world in Hmain.
      destruct Hmain as [[-> ->] | [-> ->]]; (split; [destruct (is_latest arg); reflexivity|]);
        cbn [log_matches]; try split; destruct (is_latest arg); reflexivity.
Qed.

(** X18.  Run log and outcome.  A run that completes has appended
    exactly one entry, a SUCCESS entry for an item whose mint was
    confirmed in that run; a run that ends through [process.exit] does so
    with status 1 after appending exactly one FAILED entry; a run whose
    promise is rejected has appended nothing.  No run appends two
    entries. *)
Theorem run_log_matches_outcome :
  (forall E w o w',
     AutoPostDaily.main E w = (o, w') ->
     exists evs, trace w' = trace w ++ evs
       /\ log_matches o (run_log w) (run_log w') evs)
  /\ (forall E arg w o w',
     YoutubeShorts.main E arg w = (o, w') ->
     exists evs, trace w' = trace w ++ evs
       /\ log_matches o (run_log w) (run_log w') evs).
Proof.
  split; [apply image_main_log | apply video_main_log].
Qed.

(** ** Which ledger a run depends on *)

Section Blind.
Variable f : LedgerName.

Lemma blind_ret {A} (a : A) : blind f (ret a).
Proof. intros c w. reflexivity. Qed.

Lemma blind_throw {A} e : blind f (@throw A e).
Proof. intros c w. reflexivity. Qed.

Lemma blind_bind {A B} (m : M A) (k : A -> M B) :
  blind f m -> (forall a, blind f (k a)) -> blind f (bind m k).
Proof.
  intros Hm Hk c w. unfold bind. rewrite Hm.
  destruct (m w) as [[a|e] w1]; cbn [fst snd]; [apply Hk | reflexivity].
Qed.

Lemma blind_try_catch {A} (m : M A) h :
  blind f m -> (forall e, blind f (h e)) -> blind f (try_catch m h).
Proof.
  intros Hm Hh c w. unfold try_catch. rewrite Hm.
  destruct (m w) as [[a|e] w1]; cbn [fst snd]; [reflexivity | apply Hh].
Qed.

Lemma blind_try_finally {A} (m : M A) g :
  blind f m -> blind f g -> blind f (try_finally m g).
Proof.
  intros Hm Hg c w. unfold try_finally. rewrite Hm.
  destruct (m w) as [r w1]; cbn [fst snd]. rewrite Hg.
  destruct (g w1) as [[[]|e] w2]; reflexivity.
Qed.

Lemma blind_emit ev : blind f (emit ev).
Proof. intros c w. destruct f; reflexivity. Qed.

Lemma blind_appendLog E entry : blind f (appendLog E entry).
Proof.
  intros c w. unfold appendLog.
  destruct (appendFile_ok E entry); destruct f; reflexivity.
Qed.

Lemma blind_client_setup E : blind f (client_setup E).
Proof. unfold client_setup. destruct (wallet_ok E); [apply blind_ret | apply blind_throw]. Qed.

Lemma blind_mint E src req : blind f (mint E src req).
Proof.
  unfold mint. destruct (zora E req);
    (apply blind_bind; [apply blind_emit | intros _]);
    [apply blind_ret | apply blind_throw].
Qed.

Lemma blind_ai_call E input : blind f (ai_call E input).
Proof. intros c w. destruct f; reflexivity. Qed.

Lemma blind_readJson g : g <> f -> blind f (readJson g).
Proof.
  intros Hg c w. unfold readJson.
  replace (ledger g (set_ledger f c w)) with (ledger g w)
    by (destruct f, g; try reflexivity; congruence).
  destruct (ledger g w); reflexivity.
Qed.

Lemma blind_writeJson E g l : g <> f -> blind f (writeJson E g l).
Proof.
  intros Hg c w. unfold writeJson.
  destruct (write_outcome E g); [|reflexivity|];
    destruct f, g; try reflexivity; congruence.
Qed.

Lemma blind_loadPosted g : g <> f -> blind f (loadPosted g).
Proof.
  intros Hg. unfold loadPosted.
  apply blind_try_catch; [|intros _; apply blind_ret].
  apply blind_bind; [apply blind_readJson, Hg|].
  intros [l|]; [apply blind_ret | apply blind_throw].
Qed.

Lemma blind_savePosted g cap E record : g <> f -> blind f (savePosted g cap E record).
Proof.
  intros Hg. unfold savePosted.
  apply blind_try_catch; [|intros _; apply blind_ret].
  apply blind_bind.
  - apply blind_try_catch; [apply blind_readJson, Hg | intros _; apply blind_ret].
  - intros [l|]; [apply blind_writeJson, Hg | apply blind_throw].
Qed.

Lemma blind_outcome E (m : M unit) :
  blind f m ->
  blind f (fun w =>
    match m w with
    | (Ok _, w') => (Completed, w')
    | (Throw _, w') =>
        match appendLog E {| status := FAILED; logged_id := None |} w' with
        | (Ok _, w'') => (Exited 1, w'')
        | (Throw e, w'') => (Rejected e, w'')
        end
    end).
Proof.
  intros Hm c w. cbv beta. rewrite Hm.
  destruct (m w) as [[[]|e] w1]; cbn [fst snd]; [reflexivity|].
  rewrite blind_appendLog.
  destruct (appendLog E _ w1) as [[[]|e'] w2]; reflexivity.
Qed.

(** *** The image path *)

Lemma blind_cleanAndOptimizeContent E content isThread :
  blind f (cleanAndOptimizeContent E content isThread).
Proof.
  unfold cleanAndOptimizeContent.
  repeat first
    [ apply blind_ret | apply blind_throw | apply blind_ai_call
    | apply blind_try_catch; [|intros ?]
    | apply blind_bind; [|intros ?]
    | match goal with |- blind _ (match ?x with _ => _ end) => destruct x end ].
Qed.

Lemma blind_summarizeThread E tweets : blind f (summarizeThread E tweets).
Proof.
  unfold summarizeThread.
  repeat first
    [ apply blind_ret | apply blind_throw | apply blind_ai_call
    | apply blind_try_catch; [|intros ?]
    | apply blind_bind; [|intros ?]
    | match goal with |- blind _ (match ?x with _ => _ end) => destruct x end ].
Qed.

Lemma blind_processTwitterContent E tweet timelineData :
  blind f (processTwitterContent E tweet timelineData).
Proof.
  unfold processTwitterContent.
  repeat first
    [ apply blind_ret | apply blind_throw
    | apply blind_cleanAndOptimizeContent | apply blind_summarizeThread
    | apply blind_try_catch; [|intros ?]
    | apply blind_bind; [|intros ?]
    | match goal with |- blind _ (if ?x then _ else _) => destruct x end ].
Qed.

Lemma blind_getLatestImagePost E alreadyPosted :
  blind f (AutoPostDaily.getLatestImagePost E alreadyPosted).
Proof.
  unfold AutoPostDaily.getLatestImagePost.
  destruct (userTimeline E) as [[tweetData mediaData]|e]; [|apply blind_throw].
  destruct tweetData as [|t l]; [apply blind_throw|].
  destruct (AutoPostDaily.first_image_post _ _ _) as [[tweet imageUrl]|];
    [apply blind_ret | apply blind_throw].
Qed.

Lemma blind_createZoraCoin E post imageUrl content link :
  blind f (AutoPostDaily.createZoraCoin E post imageUrl content link).
Proof.
  unfold AutoPostDaily.createZoraCoin.
  apply blind_bind; [apply blind_client_setup | intros _; apply blind_mint].
Qed.

(** *** The video path *)

Lemma blind_set_downloads files :
  blind f (fun w => (Ok tt, set_downloads files w)).
Proof. intros c w. destruct f; reflexivity. Qed.

Lemma blind_tryDownloadWithFormat E videoId formatString :
  blind f (YoutubeShorts.tryDownloadWithFormat E videoId formatString).
Proof.
  intros c w. unfold YoutubeShorts.tryDownloadWithFormat, bind, get, emit.
  cbv beta iota.
  replace (trace (set_ledger f c w)) with (trace w) by (destruct f; reflexivity).
  replace (downloads (set_ledger f c w)) with (downloads w) by (destruct f; reflexivity).
  destruct (yt_dlp E (trace w) videoId formatString (downloads w)) as [|code files].
  { destruct f; reflexivity. }
  cbv beta iota zeta.
  destruct (code =? 0)%Z; [|destruct f; reflexivity].
  destruct (bool_decide (videoId ++ Js.lit ".mp4" ∈ files)
            && bool_decide (videoId ++ Js.lit ".jpg" ∈ files));
    [destruct f; reflexivity|].
  destruct (readdir_ok E); [|destruct f; reflexivity].
  destruct (find (YoutubeShorts.is_video_file videoId) files) as [[|a v]|];
    try (destruct f; reflexivity).
  destruct (find (YoutubeShorts.is_thumb_file videoId) files) as [[|b t]|];
    destruct f; reflexivity.
Qed.

Lemma blind_try_strategies E videoId strategies :
  blind f (YoutubeShorts.try_strategies E videoId strategies).
Proof.
  induction strategies as [|formatString rest IH]; [apply blind_throw|].
  cbn [YoutubeShorts.try_strategies].
  apply blind_try_catch; [apply blind_tryDownloadWithFormat|].
  intros e. destruct rest; [apply blind_throw | apply IH].
Qed.

Lemma blind_downloadShortVideo E videoId :
  blind f (YoutubeShorts.downloadShortVideo E videoId).
Proof.
  unfold YoutubeShorts.downloadShortVideo.
  apply blind_bind; [|intros _; apply blind_try_strategies].
  destruct (mkdir_ok E); [apply blind_ret | apply blind_throw].
Qed.

Lemma blind_readFile path : blind f (YoutubeShorts.readFile path).
Proof.
  intros c w. unfold YoutubeShorts.readFile.
  replace (downloads (set_ledger f c w)) with (downloads w) by (destruct f; reflexivity).
  destruct (bool_decide (path ∈ downloads w)); reflexivity.
Qed.

Lemma blind_unlink E path : blind f (YoutubeShorts.unlink E path).
Proof.
  intros c w. unfold YoutubeShorts.unlink.
  replace (downloads (set_ledger f c w)) with (downloads w) by (destruct f; reflexivity).
  destruct (bool_decide (path ∈ downloads w) && unlink_ok E path);
    [destruct f|]; reflexivity.
Qed.

Lemma blind_createZoraCoinWithVideo E video videoPath thumbnailPath :
  blind f (YoutubeShorts.createZoraCoinWithVideo E video videoPath thumbnailPath).
Proof.
  unfold YoutubeShorts.createZoraCoinWithVideo, YoutubeShorts.video_mint,
    YoutubeShorts.cleanup, YoutubeShorts.optimizeContentWithAI.
  repeat first
    [ apply blind_ret | apply blind_throw | apply blind_ai_call
    | apply blind_client_setup | apply blind_mint
    | apply blind_readFile | apply blind_unlink
    | apply blind_try_finally
    | apply blind_try_catch; [|intros ?]
    | apply blind_bind; [|intros ?]
    | match goal with |- blind _ (match ?x with _ => _ end) => destruct x end ].
Qed.

Lemma blind_getSpecificVideo E videoId : blind f (YoutubeShorts.getSpecificVideo E videoId).
Proof.
  unfold YoutubeShorts.getSpecificVideo.
  destruct (youtube_video E videoId); [apply blind_ret | apply blind_throw].
Qed.

Lemma blind_getLatestShorts E alreadyPosted :
  blind f (YoutubeShorts.getLatestShorts E alreadyPosted).
Proof.
  unfold YoutubeShorts.getLatestShorts.
  destruct (youtube_latest E) as [video|e]; [|apply blind_throw].
  destruct (bool_decide (vid video ∈ alreadyPosted)); [apply blind_throw | apply blind_ret].
Qed.
End Blind.

Lemma image_main_blind E : blind POSTED_VIDEOS_FILE (AutoPostDaily.main E).
Proof.
  apply blind_outcome. unfold AutoPostDaily.main_try.
  apply blind_bind; [apply blind_loadPosted; discriminate | intros alreadyPosted].
  apply blind_bind; [apply blind_getLatestImagePost | intros found].
  apply blind_bind; [apply blind_processTwitterContent | intros processed].
  apply blind_bind; [apply blind_createZoraCoin | intros txHash].
  apply blind_bind; [apply blind_savePosted; discriminate | intros _].
  apply blind_appendLog.
Qed.

Lemma video_main_try_blind f E arg :
  f = POSTED_TWEETS_FILE \/ YoutubeShorts.specific arg <> None ->
  blind f (YoutubeShorts.main_try E arg).
Proof.
  intros Hf. unfold YoutubeShorts.main_try.
  apply blind_bind.
  { destruct (YoutubeShorts.specific arg); [apply blind_ret|].
    destruct Hf as [-> | Hf]; [apply blind_loadPosted; discriminate | congruence]. }
  intros alreadyPosted. apply blind_bind.
  { destruct (YoutubeShorts.specific arg);
      [apply blind_getSpecificVideo | apply blind_getLatestShorts]. }
  intros targetVideo.
  apply blind_bind; [apply blind_downloadShortVideo | intros d].
  apply blind_bind; [apply blind_createZoraCoinWithVideo | intros txHash].
  apply blind_bind; [|intros _; apply blind_appendLog].
  destruct (YoutubeShorts.specific arg); [apply blind_ret|].
  destruct Hf as [-> | Hf]; [apply blind_savePosted; discriminate | congruence].
Qed.

(** X19.  The two programs do not share state through the ledgers: a run
    of the image path neither reads nor writes [posted-videos.json], and
    a run of the video path neither reads nor writes
    [posted-tweets.json].  Whatever the other program's ledger holds, the
    run has the same outcome, makes the same external calls, and leaves
    that ledger as it found it. *)
Theorem programs_ignore_each_others_ledger :
  (forall E c w,
     AutoPostDaily.main E (with_videos c w)
     = (fst (AutoPostDaily.main E w), with_videos c (snd (AutoPostDaily.main E w))))
  /\ (forall E arg c w,
     YoutubeShorts.main E arg (with_tweets c w)
     = (fst (YoutubeShorts.main E arg w),
        with_tweets c (snd (YoutubeShorts.main E arg w)))).
Proof.
  split.
  - intros E c w. apply image_main_blind.
  - intros E arg c w.
    apply (blind_outcome POSTED_TWEETS_FILE E (YoutubeShorts.main_try E arg)).
    apply video_main_try_blind. left. reflexivity.
Qed.

(** X20.  Targeted mode ignores the ledger.  When the video path is
    started with a video id, its outcome, its external calls, the
    download directory and the run log do not depend on what
    [posted-videos.json] holds, and the file is left exactly as it was:
    in particular a video whose id is already recorded is acquired and
    minted again. *)
Theorem targeted_mode_ignores_ledger E arg c w :
  YoutubeShorts.specific arg <> None ->
  YoutubeShorts.main E arg (with_videos c w)
  = (fst (YoutubeShorts.main E arg w), with_videos c (snd (YoutubeShorts.main E arg w))).
Proof.
  intros Hs.
  apply (blind_outcome POSTED_VIDEOS_FILE E (YoutubeShorts.main_try E arg)).
  apply video_main_try_blind. right. exact Hs.
Qed.

Lemma targeted_mode_ignores_ledger_witness :
  let E := env_video dl_ok (Ok (Js.lit "0xabc")) true in
  let arg := Some (Js.lit "abc") in
  let c := Records [rec_of "abc"] in
  YoutubeShorts.main E arg (with_videos c world0)
  = (fst (YoutubeShorts.main E arg world0),
     with_videos c (snd (YoutubeShorts.main E arg world0))).
Proof.
  intros E arg c.
  apply (targeted_mode_ignores_ledger E arg c world0).
  vm_compute. discriminate.
Defined.

(** ** Identifiers derived from ids *)

Lemma strip_prefix_Some p s r : Js.strip_prefix p s = Some r -> s = p ++ r.
Proof.
  revert s. induction p as [|a p IH]; intros s; simpl.
  - intros [= ->]. reflexivity.
  - destruct s as [|c s]; [discriminate|].
    destruct (N.eqb_spec a c) as [->|]; [|discriminate].
    intros H. rewrite (IH _ H). reflexivity.
Qed.

Lemma startsWith_true s p : Js.startsWith s p = true -> exists r, s = p ++ r.
Proof.
  unfold Js.startsWith. intros H. apply bool_decide_eq_true in H as [r Hr].
  exists r. apply strip_prefix_Some, Hr.
Qed.

(** X21.  The playlist id of a channel.  [getShortsPlaylistId] accepts
    exactly the channel ids that start with UC; it replaces that prefix
    by UUSH and keeps the rest unchanged, so the channel id can be
    recovered from the playlist id and distinct channels have distinct
    playlists. *)
Theorem shorts_playlist_id :
  (forall channelId,
     match YoutubeShorts.getShortsPlaylistId channelId with
     | Some p => exists rest,
         channelId = Js.lit "UC" ++ rest /\ p = Js.lit "UUSH" ++ rest
     | None => forall rest, channelId <> Js.lit "UC" ++ rest
     end)
  /\ (forall a b p,
     YoutubeShorts.getShortsPlaylistId a = Some p ->
     YoutubeShorts.getShortsPlaylistId b = Some p -> a = b).
Proof.
  assert (Hsome : forall channelId p,
            YoutubeShorts.getShortsPlaylistId channelId = Some p ->
            exists rest, channelId = Js.lit "UC" ++ rest /\ p = Js.lit "UUSH" ++ rest).
  { intros channelId p. unfold YoutubeShorts.getShortsPlaylistId.
    destruct (Js.startsWith channelId (Js.lit "UC")) eqn:Hs; [|discriminate].
    apply startsWith_true in Hs as [rest ->]. intros [= <-].
    exists rest. split; reflexivity. }
  split.
  - intros channelId.
    destruct (YoutubeShorts.getShortsPlaylistId channelId) as [p|] eqn:Hp.
    + apply Hsome, Hp.
    + intros rest ->. unfold YoutubeShorts.getShortsPlaylistId in Hp.
      rewrite startsWith_app in Hp. discriminate.
  - intros a b p Ha Hb.
    apply Hsome in Ha as (ra & -> & ->). apply Hsome in Hb as (rb & -> & Heq).
    apply app_inv_head in Heq. congruence.
Qed.

Lemma slice_last_suffix n (s : Js.str) :
  exists front, s = front ++ Js.slice_last n s
    /\ length (Js.slice_last n s) = Nat.min n (length s).
Proof.
  unfold Js.slice_last. exists (firstn (length s - n) s). split.
  - symmetry. apply firstn_skipn.
  - rewrite length_skipn. lia.
Qed.

Lemma upper_ascii_no_lower s c :
  In c (map Js.upper_ascii s) -> ~ (97 <= c <= 122)%N.
Proof.
  unfold Js.upper_ascii. intros Hin. apply in_map_iff in Hin as (x & <- & _).
  destruct ((97 <=? x) && (x <=? 122))%N eqn:Hx.
  - apply andb_true_iff in Hx as [H1 H2].
    apply N.leb_le in H1, H2. lia.
  - intros [H1 H2]. apply N.leb_le in H1, H2. rewrite H1, H2 in Hx. discriminate.
Qed.

Lemma is_ascii_slice_last n s : Js.is_ascii s = true -> Js.is_ascii (Js.slice_last n s) = true.
Proof.
  unfold Js.is_ascii, Js.slice_last. rewrite !forallb_forall.
  intros H c Hc. apply H. rewrite <- (firstn_skipn (length s - n) s).
  apply in_or_app. right. exact Hc.
Qed.

(** X22.  The mint request of the image path.  With unusable
    credentials [createZoraCoin] throws before any call to the minting
    subsystem.  Otherwise it makes exactly one call, and its answer, hash
    or error, is passed on unchanged.  The request carries the processed
    content as description and the image address, and no video; name and
    symbol are built from the last six code units of the post id (the
    whole id when it is shorter).  When the id is ASCII the symbol is TM
    followed by those units with a-z turned to A-Z: it has at most eight
    code units and no lower-case letter.  The link to the post is not
    part of the request. *)
Theorem image_mint_request E post imageUrl content link w :
  if wallet_ok E then
    exists req front tail,
      AutoPostDaily.createZoraCoin E post imageUrl content link w
      = (zora E req,
         add_events [EvMint (id post) req
                       (match zora E req with Ok tx => Some tx | Throw _ => None end)] w)
      /\ id post = front ++ tail
      /\ length tail = Nat.min 6 (length (id post))
      /\ mint_name req = Js.lit "tokenmetrics#" ++ tail
      /\ mint_symbol req = Js.lit "TM" ++ Js.toUpperCase (unicode_upper E) tail
      /\ (Js.is_ascii (id post) = true ->
          mint_symbol req = Js.lit "TM" ++ map Js.upper_ascii tail
          /\ (length (mint_symbol req) <= 8)%nat
          /\ (forall c, In c (mint_symbol req) -> ~ (97 <= c <= 122)%N))
      /\ mint_description req = content
      /\ mint_image req = imageUrl
      /\ mint_video req = None
      /\ (forall link', AutoPostDaily.createZoraCoin E post imageUrl content link' w
                        = AutoPostDaily.createZoraCoin E post imageUrl content link w)
  else
    exists e, AutoPostDaily.createZoraCoin E post imageUrl content link w = (Throw e, w).
Proof.
  destruct (wallet_ok E) eqn:Hw.
  - destruct (slice_last_suffix 6 (id post)) as (front & Hid & Hlen).
    eexists _, front, (Js.slice_last 6 (id post)).
    split.
    { unfold AutoPostDaily.createZoraCoin, client_setup, bind. rewrite Hw.
      cbv beta iota delta [ret]. rewrite mint_spec.
      destruct (zora E _) eqn:Hz; rewrite Hz; reflexivity. }
    cbn [mint_name mint_symbol mint_description mint_image mint_video].
    split; [exact Hid|]. split; [exact Hlen|]. split; [reflexivity|].
    split; [reflexivity|]. split; [|repeat split].
    intros Hascii.
    assert (Hup : Js.toUpperCase (unicode_upper E) (Js.slice_last 6 (id post))
                  = map Js.upper_ascii (Js.slice_last 6 (id post))).
    { unfold Js.toUpperCase. rewrite (is_ascii_slice_last 6 _ Hascii). reflexivity. }
    rewrite Hup. split; [reflexivity|]. split.
    + rewrite length_app, length_map, Hlen.
      change (length (Js.lit "TM")) with 2%nat. lia.
    + intros c H [H1 H2].
      apply in_app_or in H as [H | H].
      * vm_compute in H. destruct H as [<- | [<- | []]]; lia.
      * exact (upper_ascii_no_lower _ _ H (conj H1 H2)).
  - exists (ServiceError "wallet").
    unfold AutoPostDaily.createZoraCoin, client_setup, bind. rewrite Hw. reflexivity.
Qed.

Lemma image_mint_request_witness :
  let E := env_ok in
  let post := tweet_of "1890000000000abcdef" "gm $ETH" 0 "1890000000000abcdef" None in
  let imageUrl := Js.lit "https://pbs.twimg.com/media/a.jpg" in
  Js.is_ascii (id post) = true
  /\ exists req front tail,
      AutoPostDaily.createZoraCoin E post imageUrl (Js.lit "gm") [] world0
      = (zora E req,
         add_events [EvMint (id post) req
                       (match zora E req with Ok tx => Some tx | Throw _ => None end)] world0)
      /\ id post = front ++ tail
      /\ length tail = Nat.min 6 (length (id post))
      /\ mint_name req = Js.lit "tokenmetrics#" ++ tail
      /\ mint_symbol req = Js.lit "TM" ++ Js.toUpperCase (unicode_upper E) tail
      /\ (Js.is_ascii (id post) = true ->
          mint_symbol req = Js.lit "TM" ++ map Js.upper_ascii tail
          /\ (length (mint_symbol req) <= 8)%nat
          /\ (forall c, In c (mint_symbol req) -> ~ (97 <= c <= 122)%N))
      /\ mint_description req = Js.lit "gm"
      /\ mint_image req = imageUrl
      /\ mint_video req = None
      /\ (forall link', AutoPostDaily.createZoraCoin E post imageUrl (Js.lit "gm") link' world0
                        = AutoPostDaily.createZoraCoin E post imageUrl (Js.lit "gm") [] world0).
Proof.
  intros E post imageUrl. split; [reflexivity|].
  exact (image_mint_request E post imageUrl (Js.lit "gm") [] world0).
Defined.

(** Outside ASCII the bound depends on the case mapping of the engine:
    with a mapping that sends U+00DF to SS, an id of six such code units
    gives a symbol of fourteen. *)
Example symbol_of_non_ascii_id :
  let sharp_s := fun s : Js.str => flat_map (fun c => if (c =? 223)%N then [83; 83]%N else [c]) s in
  Js.toUpperCase sharp_s [223; 223; 223; 223; 223; 223]%N
  = [83; 83; 83; 83; 83; 83; 83; 83; 83; 83; 83; 83]%N
  /\ length (Js.lit "TM" ++ Js.toUpperCase sharp_s [223; 223; 223; 223; 223; 223]%N) = 14%nat.
Proof. vm_compute. split; reflexivity. Qed.

(** X23.  The caption of a video.  [optimizeContentWithAI] never throws
    and makes exactly one request to the language service, built from
    the title and the description.  It returns the text of the service
    when that is not empty, and the title of the video when the service
    throws or answers with the empty string; so the caption is empty
    only when the title is. *)
Theorem video_caption_falls_back_to_title E title description w :
  exists caption,
    YoutubeShorts.optimizeContentWithAI E title description w
    = (Ok caption, add_events [EvAi (YoutubeShorts.caption_input title description)] w)
    /\ match openai E (trace w) (YoutubeShorts.caption_input title description) with
       | AiText (c :: output_text) => caption = c :: output_text
       | AiText [] | AiThrows => caption = title
       end
    /\ (caption = [] -> title = []).
Proof.
  unfold YoutubeShorts.optimizeContentWithAI. unfold bind at 1. rewrite ai_call_spec.
  destruct (openai E (trace w) _) as [|[|c output_text]];
    eexists; (split; [reflexivity|]); split; try reflexivity; try (intros H; exact H).
  intros H. discriminate H.
Qed.

(** ** Candidates that are already stored *)





(** One stored photo tweet and one text-only tweet that is not stored:
    there is no new candidate, and the run ends with status 1 before any
    external call. *)
Example stored_photo_and_plain_tweet :
  let photo := tweet_of "1001" "gm $ETH" 0 "1001" None in
  let plain := tweet_of "1002" "no image" 1 "1002" None in
  let E := env_image [plain; photo] [photo_of "1001"] (Ok (Js.lit "0xabc")) true in
  let w := with_tweets (Records [rec_of "1001"]) world0 in
  let run := AutoPostDaily.main E w in
  run.1 = Exited 1 /\ trace run.2 = [] /\ posted_tweets run.2 = posted_tweets w.
Proof. vm_compute. repeat split; reflexivity. Qed.
